(** * JUMPm feature alignment: a shallow embedding of [featureAlignment2.py]

    The Python module calibrates the retention time (RT) and m/z of the
    features of one LC-MS run against a reference run and then matches the
    features of the two runs.  This file embeds its functions in Rocq and
    proves properties of them.

    - float64 values are Rocq's primitive binary64 floats;
    - a pandas DataFrame is the list of its rows; while rows are dropped
      from it, it is a list of (row label, row) pairs; a row that is taken
      out of it as a Series has its integer columns converted to float64;
    - a numpy array that the code may mutate lives in a store of arrays and
      is passed by address;
    - a Python exception is the [Raise] result of the [M] monad, which also
      threads the store, the console and the random number generator;
    - functions of Python, numpy, rpy2 and R whose result cannot be read
      off this repository (parsing and formatting of numbers, percentiles,
      medians, the regression) are the variables of the sections below. *)

From Stdlib Require Import ZArith Floats String Ascii Lia DecimalString.
From stdpp Require Import base gmap list strings.

Local Open Scope Z_scope.

(** ** binary64 arithmetic as numpy and Python use it *)

Module F.

Definition zero : float := 0%float.

(** [x == 0]: true of both signed zeros, false of NaN. *)
Definition is_zero (x : float) : bool := PrimFloat.eqb x zero.

(** [x > 0]. *)
Definition is_pos (x : float) : bool := PrimFloat.ltb zero x.

Definition is_nan (x : float) : bool := negb (PrimFloat.eqb x x).

#[global] Arguments is_zero : simpl never.
#[global] Arguments is_pos : simpl never.
#[global] Arguments is_nan : simpl never.

(** Conversion of a Python [int] to a float, rounding to nearest. *)
Definition of_Z (z : Z) : float :=
  SF2Prim (binary_normalize FloatOps.prec FloatOps.emax z 0 false).

(** [np.maximum(a, b)] on two scalars: a NaN operand is propagated. *)
Definition maximum (a b : float) : float :=
  if is_nan a then a else if is_nan b then b
  else if PrimFloat.ltb a b then b else a.

(** The integer nearest to [m * 2^e], the even one on a tie; and the least
    integer not below [(-1)^s * m * 2^e]. *)
Definition round_half_even_mag (m : positive) (e : Z) : Z :=
  if 0 <=? e then Z.pos m * 2 ^ e
  else
    let d := 2 ^ (- e) in
    let q := Z.pos m / d in
    let r := Z.pos m mod d in
    match 2 * r ?= d with
    | Lt => q
    | Gt => q + 1
    | Eq => if Z.even q then q else q + 1
    end.

Definition ceil_mag (s : bool) (m : positive) (e : Z) : Z :=
  if 0 <=? e then (if s then - (Z.pos m * 2 ^ e) else Z.pos m * 2 ^ e)
  else
    let d := 2 ^ (- e) in
    let q := Z.pos m / d in
    let r := Z.pos m mod d in
    if s then - q else if r =? 0 then q else q + 1.

(** [np.ceil]: infinities, NaN and zeros are returned as they are. *)
Definition ceil (x : float) : float :=
  match Prim2SF x with
  | S754_finite s m e =>
      let c := ceil_mag s m e in
      if (c =? 0) && s then (-0)%float else of_Z c
  | _ => x
  end.

(** [k >= c] for an integer count [k] and a float [c], as numpy decides it:
    the count is far below 2^53, so its conversion to float64 is exact and
    the comparison is that of the two numbers. *)
Definition int_ge (k : Z) (c : float) : bool :=
match Prim2SF c with
| S754_zero _ => 0 <=? k
| S754_finite s m e => ceil_mag s m e <=? k
| S754_infinity s => s
| S754_nan => false
end.

End F.

(** ** Order facts on binary64 used by the zero-floor proofs *)

Section FloatOrder.

Lemma SFcompare_zero_lt x :
  SFltb (S754_zero false) x = true -> SFeqb x (S754_zero false) = false.
Proof.
  destruct x as [s | s | | s m e]; cbn; try discriminate;
    destruct s; cbn; congruence.
Qed.

Lemma is_pos_not_zero (x : float) : F.is_pos x = true -> F.is_zero x = false.
Proof.
  unfold F.is_pos, F.is_zero, F.zero.
  rewrite FloatAxioms.ltb_spec, FloatAxioms.eqb_spec.
  change (Prim2SF 0%float) with (S754_zero false).
  apply SFcompare_zero_lt.
Qed.

Lemma is_zero_not_pos (x : float) : F.is_zero x = true -> F.is_pos x = false.
Proof.
  intros Hz. destruct (F.is_pos x) eqn:Hp; [|reflexivity].
  apply is_pos_not_zero in Hp. congruence.
Qed.

(** On spec floats that are positive, [SFcompare] is a total order. *)
Definition sf_pos (x : spec_float) : Prop := SFltb (S754_zero false) x = true.

Lemma sf_pos_cases x :
  sf_pos x -> x = S754_infinity false \/ exists m e, x = S754_finite false m e.
Proof.
  unfold sf_pos. destruct x as [s | s | | s m e]; cbn; try discriminate;
    destruct s; try discriminate; eauto.
Qed.

Lemma SFleb_of_not_ltb x y :
  sf_pos x -> sf_pos y -> SFltb x y = false -> SFleb y x = true.
Proof.
  intros Hx Hy.
  destruct (sf_pos_cases _ Hx) as [-> | (m1 & e1 & ->)];
    destruct (sf_pos_cases _ Hy) as [-> | (m2 & e2 & ->)];
    cbn; try congruence.
  change (Pos.compare_cont Eq m1 m2) with (Pos.compare m1 m2).
  change (Pos.compare_cont Eq m2 m1) with (Pos.compare m2 m1).
  destruct (Z.compare_spec e1 e2), (Z.compare_spec e2 e1);
    try lia; cbn; try congruence.
  destruct (Pos.compare_spec m1 m2), (Pos.compare_spec m2 m1);
    try lia; cbn; congruence.
Qed.

Lemma SFltb_leb x y : SFltb x y = true -> SFleb x y = true.
Proof.
  unfold SFltb, SFleb. destruct (SFcompare x y) as [[]|]; congruence.
Qed.

Lemma SFleb_refl_pos x : sf_pos x -> SFleb x x = true.
Proof.
  intros Hx. destruct (sf_pos_cases _ Hx) as [-> | (m & e & ->)]; cbn;
    [reflexivity|].
  rewrite Z.compare_refl.
  change (Pos.compare_cont Eq m m) with (Pos.compare m m).
  now rewrite Pos.compare_refl.
Qed.

Lemma SFleb_trans_pos x y z :
  sf_pos x -> sf_pos y -> sf_pos z ->
  SFleb x y = true -> SFleb y z = true -> SFleb x z = true.
Proof.
  intros Hx Hy Hz.
  destruct (sf_pos_cases _ Hx) as [-> | (m1 & e1 & ->)];
    destruct (sf_pos_cases _ Hy) as [-> | (m2 & e2 & ->)];
    destruct (sf_pos_cases _ Hz) as [-> | (m3 & e3 & ->)];
    cbn; try congruence.
  change (Pos.compare_cont Eq m1 m2) with (Pos.compare m1 m2).
  change (Pos.compare_cont Eq m2 m3) with (Pos.compare m2 m3).
  change (Pos.compare_cont Eq m1 m3) with (Pos.compare m1 m3).
  destruct (Z.compare_spec e1 e2), (Z.compare_spec e2 e3),
    (Z.compare_spec e1 e3); try lia; cbn; try congruence; subst.
  destruct (Pos.compare_spec m1 m2), (Pos.compare_spec m2 m3),
    (Pos.compare_spec m1 m3); try lia; cbn; congruence.
Qed.

Lemma is_pos_sf x : F.is_pos x = true <-> sf_pos (Prim2SF x).
Proof.
  unfold F.is_pos, sf_pos, F.zero. rewrite FloatAxioms.ltb_spec.
  change (Prim2SF 0%float) with (S754_zero false). tauto.
Qed.

Lemma fleb_refl_pos x : F.is_pos x = true -> PrimFloat.leb x x = true.
Proof.
  rewrite is_pos_sf, FloatAxioms.leb_spec. apply SFleb_refl_pos.
Qed.

Lemma fleb_trans_pos x y z :
  F.is_pos x = true -> F.is_pos y = true -> F.is_pos z = true ->
  PrimFloat.leb x y = true -> PrimFloat.leb y z = true ->
  PrimFloat.leb x z = true.
Proof.
  rewrite !is_pos_sf, !FloatAxioms.leb_spec. apply SFleb_trans_pos.
Qed.

Lemma fltb_leb x y : PrimFloat.ltb x y = true -> PrimFloat.leb x y = true.
Proof.
  rewrite FloatAxioms.ltb_spec, FloatAxioms.leb_spec. apply SFltb_leb.
Qed.

Lemma fleb_of_not_ltb x y :
  F.is_pos x = true -> F.is_pos y = true ->
  PrimFloat.ltb x y = false -> PrimFloat.leb y x = true.
Proof.
  rewrite !is_pos_sf, FloatAxioms.ltb_spec, FloatAxioms.leb_spec.
  apply SFleb_of_not_ltb.
Qed.

End FloatOrder.

(** ** Integers that a binary64 holds exactly *)

Section ExactIntegers.

Lemma digits2_pos_iter p k :
  digits2_pos (Pos.iter xO p k) = (digits2_pos p + k)%positive.
Proof.
  induction k as [|k IH] using Pos.peano_ind.
  - cbn. by rewrite Pos.add_1_r.
  - rewrite Pos.iter_succ. cbn. rewrite IH. by rewrite Pos.add_succ_r.
Qed.

Lemma digits2_pos_lower p : 2 ^ (Z.pos (digits2_pos p) - 1) <= Z.pos p.
Proof.
  induction p as [p IH|p IH|]; cbn [digits2_pos].
  - rewrite Pos2Z.inj_succ.
    replace (Z.succ (Z.pos (digits2_pos p)) - 1) with (Z.succ (Z.pos (digits2_pos p) - 1)) by lia.
    rewrite Z.pow_succ_r by lia. lia.
  - rewrite Pos2Z.inj_succ.
    replace (Z.succ (Z.pos (digits2_pos p)) - 1) with (Z.succ (Z.pos (digits2_pos p) - 1)) by lia.
    rewrite Z.pow_succ_r by lia. lia.
  - done.
Qed.

Lemma digits2_pos_small p : Z.pos p < 2 ^ 53 -> Z.pos (digits2_pos p) <= 53.
Proof.
  intros Hp. destruct (Z.le_gt_cases (Z.pos (digits2_pos p)) 53) as [|Hd]; [done|].
  pose proof (digits2_pos_lower p).
  assert (2 ^ 53 <= 2 ^ (Z.pos (digits2_pos p) - 1)) by (apply Z.pow_le_mono_r; lia).
  lia.
Qed.

(** The mantissa and the exponent of the binary64 that holds [p]. *)
Definition normal53 (p : positive) : positive * Z :=
  match Z.pos (digits2_pos p) - 53 with
  | Zneg k => (Pos.iter xO p k, Zneg k)
  | _ => (p, 0)
  end.

Lemma normal53_digits p :
  Z.pos p < 2 ^ 53 ->
  Z.pos (digits2_pos (normal53 p).1) = 53 /\ -52 <= (normal53 p).2 <= 0.
Proof.
  intros Hp. apply digits2_pos_small in Hp. unfold normal53.
  destruct (Z.pos (digits2_pos p) - 53) as [|k|k] eqn:Hk; cbn [fst snd].
  - lia.
  - lia.
  - rewrite digits2_pos_iter. lia.
Qed.

Lemma binary_round_aux_exact s m e :
  Z.pos (digits2_pos m) = 53 -> -1074 <= e <= 971 ->
  binary_round_aux FloatOps.prec FloatOps.emax s (Z.pos m) e loc_Exact
  = S754_finite s m e.
Proof.
  intros Hd He. unfold binary_round_aux, shr_fexp.
  cbn [Zdigits2 shr_record_of_loc]. rewrite Hd.
  assert (Hf : fexp FloatOps.prec FloatOps.emax (53 + e) - e = 0).
  { unfold fexp, emin, FloatOps.prec, FloatOps.emax. lia. }
  rewrite Hf. cbn [shr shr_m loc_of_shr_record round_nearest_even Zdigits2 shr_record_of_loc].
  rewrite Hd, Hf. cbn [shr shr_m].
  assert (Hle : (e <=? FloatOps.emax - FloatOps.prec) = true).
  { apply Z.leb_le. unfold FloatOps.prec, FloatOps.emax. lia. }
  by rewrite Hle.
Qed.

Lemma binary_round_small s p :
  Z.pos p < 2 ^ 53 ->
  binary_round FloatOps.prec FloatOps.emax s p 0
  = S754_finite s (normal53 p).1 (normal53 p).2.
Proof.
  intros Hp. pose proof (normal53_digits p Hp) as [Hd He].
  pose proof (digits2_pos_small p Hp) as Hsmall.
  unfold binary_round, shl_align.
  assert (Hf : fexp FloatOps.prec FloatOps.emax (Z.pos (digits2_pos p) + 0)
               = Z.pos (digits2_pos p) - 53).
  { unfold fexp, emin, FloatOps.prec, FloatOps.emax. lia. }
  rewrite Hf. unfold normal53 in *.
  rewrite Z.sub_0_r.
  destruct (Z.pos (digits2_pos p) - 53) as [|k|k] eqn:Hk; cbn [fst snd] in *.
  - rewrite binary_round_aux_exact; [done|lia|lia].
  - lia.
  - rewrite binary_round_aux_exact; [done|done|lia].
Qed.

Lemma iter_xO_inj k p q : Pos.iter xO p k = Pos.iter xO q k -> p = q.
Proof.
  induction k as [|k IH] using Pos.peano_ind.
  - cbn. congruence.
  - rewrite !Pos.iter_succ. intros H. injection H as H. by apply IH.
Qed.

Lemma normal53_inj p q :
  Z.pos p < 2 ^ 53 -> Z.pos q < 2 ^ 53 -> normal53 p = normal53 q -> p = q.
Proof.
  intros Hp Hq. apply digits2_pos_small in Hp, Hq. unfold normal53.
  destruct (Z.pos (digits2_pos p) - 53) as [|k|k] eqn:Hk;
    destruct (Z.pos (digits2_pos q) - 53) as [|k'|k'] eqn:Hk'; try lia;
    intros H; simplify_eq; try done.
  by eapply iter_xO_inj.
Qed.

Lemma normalize_small_valid n :
  Z.abs n < 2 ^ 53 ->
  valid_binary (binary_normalize FloatOps.prec FloatOps.emax n 0 false) = true.
Proof.
  intros Hn. destruct n as [|p|p]; [done| |]; cbn [binary_normalize];
    rewrite binary_round_small by lia;
    destruct (normal53_digits p) as [Hd He]; try lia;
    cbn; unfold bounded, canonical_mantissa; rewrite Hd;
    apply andb_true_intro; split.
  all: try (apply Z.eqb_eq; unfold fexp, emin, FloatOps.prec, FloatOps.emax; lia).
  all: apply Z.leb_le; unfold FloatOps.prec, FloatOps.emax; lia.
Qed.

(** Integers below 2^53 in magnitude have each their own binary64. *)
Lemma of_Z_inj a b :
  Z.abs a < 2 ^ 53 -> Z.abs b < 2 ^ 53 -> F.of_Z a = F.of_Z b -> a = b.
Proof.
  intros Ha Hb H. apply (f_equal Prim2SF) in H. unfold F.of_Z in H.
  rewrite !FloatAxioms.Prim2SF_SF2Prim in H by (by apply normalize_small_valid).
  destruct a as [|p|p], b as [|q|q]; cbn [binary_normalize] in H;
    rewrite ?binary_round_small in H by lia; try done.
  - injection H as H1 H2. f_equal. apply normal53_inj; [lia|lia|].
    by apply injective_projections.
  - injection H as H1 H2. f_equal. apply normal53_inj; [lia|lia|].
    by apply injective_projections.
Qed.

End ExactIntegers.

(** ** The Python runtime: exceptions, shared arrays, console *)

Inductive exn :=
| KeyError | ValueError | IndexError | TypeError | OverflowError
| AttributeError
| RRuntimeError   (* an R [stop()] surfacing through rpy2 *)
| DanglingArray.  (* an address without an array: never in a run of Python *)

Inductive result (A : Type) :=
| Ok (a : A)
| Raise (e : exn).
Arguments Ok {A} a.
Arguments Raise {A} e.

Definition rbind {A B} (r : result A) (k : A -> result B) : result B :=
  match r with
  | Ok a => k a
  | Raise e => Raise e
  end.

Notation "'try*' x ':=' c1 'in' c2" := (rbind c1 (fun x => c2))
  (at level 10, x name, c1 at level 100, c2 at level 200).

(** Addresses of numpy arrays. *)
Definition loc := positive.

Record world := World {
  arrays : gmap loc (list float);   (* the numpy arrays that are shared *)
  stdout : list string;             (* lines printed so far *)
  rng_drawn : nat;                  (* normal deviates drawn so far *)
  lc_passes : list string           (* history: axis of each local pass *)
}.

Definition set_arrays (h : gmap loc (list float)) (w : world) : world :=
  World h (stdout w) (rng_drawn w) (lc_passes w).
Definition set_stdout (o : list string) (w : world) : world :=
  World (arrays w) o (rng_drawn w) (lc_passes w).
Definition set_rng_drawn (k : nat) (w : world) : world :=
  World (arrays w) (stdout w) k (lc_passes w).
Definition set_lc_passes (p : list string) (w : world) : world :=
  World (arrays w) (stdout w) (rng_drawn w) p.

(** A computation may change the world and then return or raise; what it
    changed before raising stays changed. *)
Definition M (A : Type) : Type := world -> result A * world.

Definition ret {A} (a : A) : M A := fun w => (Ok a, w).
Definition raise {A} (e : exn) : M A := fun w => (Raise e, w).
Definition bind {A B} (c : M A) (k : A -> M B) : M B :=
  fun w =>
    match c w with
    | (Ok a, w') => k a w'
    | (Raise e, w') => (Raise e, w')
    end.
Definition lift {A} (r : result A) : M A := fun w => (r, w).

Notation "'let*' x ':=' c1 'in' c2" := (bind c1 (fun x => c2))
  (at level 10, x name, c1 at level 100, c2 at level 200).
Notation "'let*' ' p ':=' c1 'in' c2" := (bind c1 (fun p => c2))
  (at level 10, p pattern, c1 at level 100, c2 at level 200).

Definition print (line : string) : M unit :=
  fun w => (Ok tt, set_stdout (stdout w ++ [line]) w).

(** A new array object, at an address that is not in use. *)
Definition np_new (xs : list float) : M loc :=
  fun w =>
    let l := fresh (dom (arrays w)) in
    (Ok l, set_arrays (<[l := xs]> (arrays w)) w).

Definition np_read (l : loc) : M (list float) :=
  fun w =>
    match arrays w !! l with
    | Some xs => (Ok xs, w)
    | None => (Raise DanglingArray, w)
    end.

Definition np_write (l : loc) (xs : list float) : M unit :=
  fun w => (Ok tt, set_arrays (<[l := xs]> (arrays w)) w).

(** [min(iterable)] of Python: the first element, replaced by each later one
    that compares less; [ValueError] on no element. *)
Definition py_min (xs : list float) : result float :=
  match xs with
  | [] => Raise ValueError
  | x :: rest =>
      Ok (fold_left (fun m y => if PrimFloat.ltb y m then y else m) rest x)
  end.

(** [sd[sd == 0] = min(sd[sd > 0])].  The right-hand side is evaluated
    first, whether or not an entry is zero. *)
Definition zero_floor (sd : list float) : result (list float) :=
  try* m := py_min (List.filter F.is_pos sd) in
  Ok (map (fun x => if F.is_zero x then m else x) sd).

(** The same statement on the array object at [l]. *)
Definition floor_in_place (l : loc) : M unit :=
  let* sd := np_read l in
  let* sd' := lift (zero_floor sd) in
  np_write l sd'.

(** ** Feature tables *)

Record Feature := mkFeature {
  index : Z;
  mz : float;
  z : Z;
  MS1 : Z;
  minMS1 : Z;
  maxMS1 : Z;
  RT : float;
  minRT : float;
  maxRT : float;
  intensity : float;
  SNratio : float;
  PercentageTF : float
}.

(** The sort key order of [sort_values("intensity", ascending = False)]:
    [a] goes before [b] when it is more intense; a NaN intensity goes
    last. *)
Definition more_intense (a b : Feature) : bool :=
  if F.is_nan (intensity a) then false
  else if F.is_nan (intensity b) then true
  else PrimFloat.ltb (intensity b) (intensity a).

Fixpoint insert_by_intensity (x : Feature) (l : list Feature) : list Feature :=
  match l with
  | [] => [x]
  | y :: l' =>
      if more_intense y x then y :: insert_by_intensity x l' else x :: l
  end.

(** [df.sort_values("intensity", ascending = False, ignore_index = True)]:
    the rows in descending intensity, relabelled 0, 1, ...  Rows of equal
    intensity keep their order here; pandas leaves their order to its sort
    routine, and nothing below depends on it. *)
Definition sort_values_intensity (df : list Feature) : list Feature :=
  foldr insert_by_intensity [] df.

(** A table with its row labels, as it is while rows are dropped from it. *)
Definition labelled (df : list Feature) : list (nat * Feature) :=
  imap (fun i r => (i, r)) df.

(** [df.drop(label)] *)
Definition drop_label (l : nat) (pool : list (nat * Feature))
  : list (nat * Feature) :=
  List.filter (fun p => negb (Nat.eqb (fst p) l)) pool.

(** ** The zero floor of an SD array *)

Section ZeroFloor.

Let step (m y : float) : float := if PrimFloat.ltb y m then y else m.

Lemma fold_min_spec (rest : list float) (acc : float) :
  F.is_pos acc = true ->
  Forall (fun y => F.is_pos y = true) rest ->
  let r := fold_left step rest acc in
  r ∈ acc :: rest /\ F.is_pos r = true /\
  Forall (fun y => PrimFloat.leb r y = true) (acc :: rest).
Proof.
  revert acc. induction rest as [|y rest IH]; intros acc Hacc Hrest; cbn.
  - split; [left|]. split; [done|].
    constructor; [by apply fleb_refl_pos|constructor].
  - apply Forall_cons in Hrest as [Hy Hrest].
    assert (Hs : F.is_pos (step acc y) = true).
    { unfold step. by destruct (PrimFloat.ltb y acc). }
    destruct (IH (step acc y) Hs Hrest) as (Hin & Hpos & Hle).
    apply Forall_cons in Hle as [Hle1 Hle].
    assert (Hsa : PrimFloat.leb (step acc y) acc = true
                  /\ PrimFloat.leb (step acc y) y = true).
    { unfold step. destruct (PrimFloat.ltb y acc) eqn:Hlt.
      - split; [by apply fltb_leb|by apply fleb_refl_pos].
      - split; [by apply fleb_refl_pos|by apply fleb_of_not_ltb]. }
    destruct Hsa as [Hsa Hsy].
    split; [|split; [done|]].
    + apply elem_of_cons in Hin as [Hin|Hin].
      * rewrite Hin. unfold step.
        destruct (PrimFloat.ltb y acc); [right; left|left].
      * by do 2 right.
    + constructor; [by eapply (fleb_trans_pos _ (step acc y))|].
      constructor; [by eapply (fleb_trans_pos _ (step acc y))|done].
Qed.

Lemma py_min_spec (xs : list float) :
  xs <> [] -> Forall (fun y => F.is_pos y = true) xs ->
  exists m, py_min xs = Ok m /\ m ∈ xs /\ F.is_pos m = true /\
            Forall (fun y => PrimFloat.leb m y = true) xs.
Proof.
  destruct xs as [|x rest]; [done|]. intros _ Hall.
  apply Forall_cons in Hall as [Hx Hrest].
  destruct (fold_min_spec rest x Hx Hrest) as (Hin & Hpos & Hle).
  eexists. split; [reflexivity|]. done.
Qed.

Lemma filter_is_pos_nonempty (sd : list float) (x : float) :
  x ∈ sd -> F.is_pos x = true -> List.filter F.is_pos sd <> [].
Proof.
  intros Hin Hx Hnil.
  assert (Hf : In x (List.filter F.is_pos sd)).
  { apply filter_In. split; [by apply list_elem_of_In|done]. }
  rewrite Hnil in Hf. destruct Hf.
Qed.

(** The minimum that the flooring statement writes. *)
Lemma zero_floor_min (sd : list float) (x : float) :
  x ∈ sd -> F.is_pos x = true ->
  exists m, py_min (List.filter F.is_pos sd) = Ok m /\
            m ∈ sd /\ F.is_pos m = true /\
            (forall y, y ∈ sd -> F.is_pos y = true ->
                       PrimFloat.leb m y = true).
Proof.
  intros Hin Hx.
  destruct (py_min_spec (List.filter F.is_pos sd)) as (m & Hm & Hmin & Hp & Hle).
  - by eapply filter_is_pos_nonempty.
  - apply Forall_forall. intros y Hy.
    apply list_elem_of_In, filter_In in Hy. tauto.
  - exists m. split; [done|]. split.
    + apply list_elem_of_In, filter_In in Hmin. apply list_elem_of_In. tauto.
    + split; [done|]. intros y Hy Hyp.
      rewrite Forall_forall in Hle. apply Hle.
      apply list_elem_of_In, filter_In. split; [by apply list_elem_of_In|done].
Qed.

End ZeroFloor.

(** C5.  In an SD array with a positive entry, the flooring statement of
    matchFeatures and findMatchedSubset succeeds and leaves an array of the
    same length in which no entry is zero, every entry that was not zero
    (so every positive one) is as it was, and every entry that was zero is
    the least positive entry [m] of the original array. *)
Theorem zero_floor_invariant (sd : list float) :
  (exists x, x ∈ sd /\ F.is_pos x = true) ->
  exists m sd',
    zero_floor sd = Ok sd' /\
    length sd' = length sd /\
    (m ∈ sd /\ F.is_pos m = true /\
     forall y, y ∈ sd -> F.is_pos y = true -> PrimFloat.leb m y = true) /\
    (forall y, y ∈ sd' -> F.is_zero y = false) /\
    (forall i y, sd !! i = Some y -> F.is_pos y = true -> sd' !! i = Some y) /\
    (forall i y, sd !! i = Some y -> F.is_zero y = false -> sd' !! i = Some y) /\
    (forall i y, sd !! i = Some y -> F.is_zero y = true -> sd' !! i = Some m).
Proof.
  intros (x & Hin & Hx).
  destruct (zero_floor_min sd x Hin Hx) as (m & Hm & Hmin & Hp & Hle).
  exists m, (map (fun y => if F.is_zero y then m else y) sd).
  unfold zero_floor. rewrite Hm. cbn.
  split; [done|]. split; [by rewrite length_map|]. split; [done|].
  assert (Hkeep : forall i y, sd !! i = Some y -> F.is_zero y = false ->
            map (fun y => if F.is_zero y then m else y) sd !! i = Some y).
  { intros i y Hi Hz. rewrite list_lookup_fmap, Hi. cbn. by rewrite Hz. }
  split; [|split; [|split; [done|]]].
  - intros y Hy. apply list_elem_of_fmap in Hy as (y0 & -> & Hy0).
    destruct (F.is_zero y0) eqn:Hz; [by apply is_pos_not_zero|done].
  - intros i y Hi Hy. apply Hkeep; [done|by apply is_pos_not_zero].
  - intros i y Hi Hz. rewrite list_lookup_fmap, Hi. cbn. by rewrite Hz.
Qed.

Definition sd_example : list float := [0%float; 2%float; 0.5%float; (-0)%float].

Lemma zero_floor_invariant_witness :
  (exists x, x ∈ sd_example /\ F.is_pos x = true) /\
  exists m sd',
    zero_floor sd_example = Ok sd' /\
    length sd' = length sd_example /\
    (m ∈ sd_example /\ F.is_pos m = true /\
     forall y, y ∈ sd_example -> F.is_pos y = true ->
               PrimFloat.leb m y = true) /\
    (forall y, y ∈ sd' -> F.is_zero y = false) /\
    (forall i y, sd_example !! i = Some y -> F.is_pos y = true ->
                 sd' !! i = Some y) /\
    (forall i y, sd_example !! i = Some y -> F.is_zero y = false ->
                 sd' !! i = Some y) /\
    (forall i y, sd_example !! i = Some y -> F.is_zero y = true ->
                 sd' !! i = Some m).
Proof.
  assert (H : exists x, x ∈ sd_example /\ F.is_pos x = true).
  { exists 2%float. split; [right; left|reflexivity]. }
  split; [exact H|exact (zero_floor_invariant sd_example H)].
Defined.

Example zero_floor_example :
  zero_floor sd_example = Ok [0.5%float; 2%float; 0.5%float; 0.5%float].
Proof. reflexivity. Qed.

(** ** Arguments and parameters of the matching functions *)

(** What a caller passes as [rtSd] or [mzSd]: a scalar, a numpy array (by
    address) or a Python list. *)
Inductive sd_arg :=
| SdScalar (x : float)
| SdArray (l : loc)
| SdList (xs : list float).

(** [if not isinstance(sd, (list, np.ndarray)): sd = np.repeat(sd, n)] *)
Definition sd_repeat (sd : sd_arg) (n : nat) : M sd_arg :=
  match sd with
  | SdScalar x => let* l := np_new (repeat x n) in ret (SdArray l)
  | _ => ret sd
  end.

(** [sd[sd == 0] = min(sd[sd > 0])]; on a list, [sd > 0] is a TypeError. *)
Definition sd_floor (sd : sd_arg) : M unit :=
  match sd with
  | SdArray l => floor_in_place l
  | _ => raise TypeError
  end.

(** [sd * sdWidth], a new array that no one else holds. *)
Definition sd_times (sd : sd_arg) (w : float) : M (list float) :=
  match sd with
  | SdArray l => let* xs := np_read l in ret (map (fun x => (x * w)%float) xs)
  | _ => raise TypeError
  end.

Definition param (params : gmap string string) (k : string) : result string :=
  match params !! k with
  | Some v => Ok v
  | None => Raise KeyError
  end.

(** [a[i]] on a numpy array. *)
Definition np_get (a : list float) (i : nat) : result float :=
  match a !! i with
  | Some x => Ok x
  | None => Raise IndexError
  end.

Definition million : float := 1000000%float.

(** [(abs(rtDev) <= rtTol[i]) & (abs(mzDev) <= mzTol[i])] at one row [c] of
    the comparison table, for the reference row [r]. *)
Definition in_tolerance (rtTol mzTol : float) (r c : Feature) : bool :=
  let rtDev := (RT c - RT r)%float in
  let mzDev := ((mz c - mz r) / mz r * million)%float in
  PrimFloat.leb (abs rtDev) rtTol && PrimFloat.leb (abs mzDev) mzTol.

Definition same_charge (r c : Feature) : bool := z c =? z r.

(** A row of what matchFeatures collects: the reference row and the
    comparison row that it pairs. *)
Record MatchedPair := mkPair { ref_row : Feature; comp_row : Feature }.

(** The values of a row as [ref.iloc[i].to_dict()] and
    [comp.loc[rowInd].to_dict()] give them.  A row taken out of a table of
    integer and float columns is a Series of the one dtype float64: the
    integer columns come out converted, to the nearest float. *)
Record FloatRow := mkFloatRow {
  index_f : float;
  mz_f : float;
  z_f : float;
  MS1_f : float;
  minMS1_f : float;
  maxMS1_f : float;
  RT_f : float;
  minRT_f : float;
  maxRT_f : float;
  intensity_f : float;
  SNratio_f : float;
  PercentageTF_f : float
}.

Definition to_dict (r : Feature) : FloatRow :=
  mkFloatRow (F.of_Z (index r)) (mz r) (F.of_Z (z r)) (F.of_Z (MS1 r))
    (F.of_Z (minMS1 r)) (F.of_Z (maxMS1 r)) (RT r) (minRT r) (maxRT r)
    (intensity r) (SNratio r) (PercentageTF r).

(** [pd.DataFrame.from_dict(d, "index")]: the table that matchFeatures
    returns, with the row [{**dr, **dc}] for each pair: the values of the
    reference row under the names [ref_...] and those of the comparison row
    under the names [comp_...]. *)
Definition matched_table (out : list MatchedPair) : list (FloatRow * FloatRow) :=
  map (fun row => (to_dict (ref_row row), to_dict (comp_row row))) out.

Record SubRow := mkSubRow {
  refMz : float; refRt : float; refIntensity : float;
  compMz : float; compRt : float; compIntensity : float
}.

(** [comp[(abs(rtDev) <= rtTol[i]) & (abs(mzDev) <= mzTol[i])].index] and
    the same with [& (comp["z"] == z)]: the rows still in the pool that are
    within tolerance of [r], in the order of the pool. *)
Definition candidates (rtTol mzTol : float) (r : Feature)
    (pool : list (nat * Feature)) : list (nat * Feature) :=
  List.filter (fun p => in_tolerance rtTol mzTol r (snd p)) pool.

Definition candidates_charge (rtTol mzTol : float) (r : Feature)
    (pool : list (nat * Feature)) : list (nat * Feature) :=
  List.filter (fun p => in_tolerance rtTol mzTol r (snd p)
                        && same_charge r (snd p)) pool.

(** The choice matchFeatures makes for one reference row [r] among the rows
    still in [pool]: the label and the row it accepts, if any. *)
Definition match_choice (rtTol mzTol : float) (r : Feature)
    (pool : list (nat * Feature)) : option (nat * Feature) :=
  match candidates rtTol mzTol r pool with
  | [] => None
  | first :: _ =>
      if z r =? 0 then Some first
      else if z (snd first) =? 0 then Some first
      else head (candidates_charge rtTol mzTol r pool)
  end.

(** The loop of matchFeatures from reference row [i] on; [refs] are the
    rows [i], [i+1], ... of the sorted reference table. *)
Fixpoint match_loop (rtTol mzTol : list float) (i : nat) (refs : list Feature)
    (pool : list (nat * Feature)) : result (list MatchedPair) :=
  match refs with
  | [] => Ok []
  | r :: refs' =>
      try* rt := np_get rtTol i in
      try* mt := np_get mzTol i in
      match match_choice rt mt r pool with
      | Some (l, c) =>
          try* rest := match_loop rtTol mzTol (S i) refs' (drop_label l pool) in
          Ok (mkPair r c :: rest)
      | None => match_loop rtTol mzTol (S i) refs' pool
      end
  end.

(** The choice findMatchedSubset makes for one reference row. *)
Definition subset_choice (rtTol mzTol : float) (r : Feature)
    (pool : list (nat * Feature)) : option (nat * Feature) :=
  let rowInd :=
    if z r =? 0 then candidates rtTol mzTol r pool
    else candidates_charge rtTol mzTol r pool in
  head rowInd.

Fixpoint subset_loop (rtTol mzTol : list float) (i : nat) (refs : list Feature)
    (pool : list (nat * Feature)) : result (list SubRow) :=
  match refs with
  | [] => Ok []
  | r :: refs' =>
      try* rt := np_get rtTol i in
      try* mt := np_get mzTol i in
      match subset_choice rt mt r pool with
      | Some (l, c) =>
          try* rest := subset_loop rtTol mzTol (S i) refs' pool in
          Ok (mkSubRow (mz r) (RT r) (intensity r)
                       (mz c) (RT c) (intensity c) :: rest)
      | None => subset_loop rtTol mzTol (S i) refs' pool
      end
  end.

Section Matching.

(** [float(s)] of Python on a parameter string. *)
Variable py_float : string -> result float.

(** The statements that matchFeatures and findMatchedSubset share between
    the sorting and the loop: the SDs made arrays of [n] entries when they
    are scalars, floored in place, and multiplied by [sd_width]. *)
Definition tolerances (n : nat) (rtSd mzSd : sd_arg)
    (params : gmap string string) : M (list float * list float) :=
  let* rtSd := sd_repeat rtSd n in
  let* mzSd := sd_repeat mzSd n in
  let* _ := sd_floor rtSd in
  let* _ := sd_floor mzSd in
  let* sdWidth := lift (try* s := param params "sd_width" in py_float s) in
  let* rtTol := sd_times rtSd sdWidth in
  let* mzTol := sd_times mzSd sdWidth in
  ret (rtTol, mzTol).

Definition findMatchedSubset (ref comp : list Feature) (rtSd mzSd : sd_arg)
    (params : gmap string string) : M (list SubRow) :=
  let ref := sort_values_intensity ref in
  let comp := sort_values_intensity comp in
  let n := length ref in
  let* '(rtTol, mzTol) := tolerances n rtSd mzSd params in
  lift (subset_loop rtTol mzTol 0 ref (labelled comp)).

(** matchFeatures gives the pairs of rows that it matched, in the order in
    which it matched them; the DataFrame that it builds of them and returns
    is [matched_table] of the pairs. *)
Definition matchFeatures (ref comp : list Feature) (rtSd mzSd : sd_arg)
    (params : gmap string string) (step : string) : M (list MatchedPair) :=
  let ref := sort_values_intensity ref in
  let comp := sort_values_intensity comp in
  let n := length ref in
  let* '(rtTol, mzTol) := tolerances n rtSd mzSd params in
  lift (match_loop rtTol mzTol 0 ref (labelled comp)).

(** *** Sorting permutes the rows *)

Lemma insert_by_intensity_perm x l : insert_by_intensity x l ≡ₚ x :: l.
Proof.
  induction l as [|y l IH]; cbn; [done|].
  destruct (more_intense y x); [|done].
  rewrite IH. apply Permutation_swap.
Qed.

Lemma sort_values_intensity_perm df : sort_values_intensity df ≡ₚ df.
Proof.
  induction df as [|x df IH]; cbn; [done|].
  rewrite insert_by_intensity_perm. by rewrite IH.
Qed.

Lemma labelled_lookup df l c : (l, c) ∈ labelled df <-> df !! l = Some c.
Proof.
  unfold labelled. rewrite elem_of_lookup_imap. split.
  - intros (i & y & Heq & Hi). by inversion Heq; subst.
  - intros H. by exists l, c.
Qed.

Lemma labelled_NoDup df : NoDup (labelled df).*1.
Proof.
  apply NoDup_alt. intros i j l Hi Hj.
  rewrite list_lookup_fmap in Hi, Hj. unfold labelled in *.
  rewrite list_lookup_imap in Hi, Hj.
  destruct (df !! i); [|done]. destruct (df !! j); [|done].
  cbn in *. congruence.
Qed.

(** *** One choice *)

Lemma head_filter_in {A} (f : A -> bool) (l : list A) (x : A) (t : list A) :
  List.filter f l = x :: t -> x ∈ l /\ f x = true.
Proof.
  intros H. assert (Hin : In x (List.filter f l)) by (rewrite H; by left).
  apply filter_In in Hin as [Hin Hf]. split; [by apply list_elem_of_In|done].
Qed.

Lemma match_choice_in rt mt r pool p :
  match_choice rt mt r pool = Some p -> p ∈ pool.
Proof.
  unfold match_choice.
  destruct (candidates rt mt r pool) as [|first t] eqn:Hf; [done|].
  apply head_filter_in in Hf as [Hin _].
  destruct (z r =? 0); [congruence|].
  destruct (z first.2 =? 0); [congruence|].
  destruct (candidates_charge rt mt r pool) as [|first' t'] eqn:Hf'; [done|].
  apply head_filter_in in Hf' as [Hin' _]. cbn. congruence.
Qed.




Lemma drop_label_elem l pool p :
  p ∈ drop_label l pool <-> p ∈ pool /\ p.1 <> l.
Proof.
  unfold drop_label. rewrite !list_elem_of_In, filter_In.
  rewrite negb_true_iff, Nat.eqb_neq. done.
Qed.

Lemma drop_label_NoDup l pool : NoDup pool.*1 -> NoDup (drop_label l pool).*1.
Proof.
  unfold drop_label. induction pool as [|p pool IH]; cbn; [done|].
  intros Hnd. apply NoDup_cons in Hnd as [Hp Hnd].
  destruct (negb _); cbn; [|by apply IH].
  apply NoDup_cons. split; [|by apply IH].
  intros Hin. apply Hp.
  apply list_elem_of_fmap in Hin as (q & -> & Hq).
  apply list_elem_of_fmap. exists q. split; [done|].
  apply list_elem_of_In, filter_In in Hq as [Hq _]. by apply list_elem_of_In.
Qed.

(** *** The loop *)

(** [chosen i refs pool p row]: the output row [row] pairs reference
    position [p.1], at or after [i], with the pool row labelled [p.2]. *)
Definition chosen (i : nat) (refs : list Feature) (pool : list (nat * Feature))
    (p : nat * nat) (row : MatchedPair) : Prop :=
  (i <= p.1)%nat /\ refs !! (p.1 - i)%nat = Some (ref_row row) /\
  (p.2, comp_row row) ∈ pool.

Lemma chosen_bounds i refs pool ps out :
  Forall2 (chosen i refs pool) ps out ->
  Forall (fun p => (i <= p.1)%nat /\ p.2 ∈ pool.*1) ps.
Proof.
  induction 1 as [|p row ps out (Hle & _ & Hin) _ IH]; constructor; [|done].
  split; [done|]. apply list_elem_of_fmap. by exists (p.2, comp_row row).
Qed.

Lemma match_loop_positions rtTol mzTol refs :
  forall i pool out,
    NoDup pool.*1 ->
    match_loop rtTol mzTol i refs pool = Ok out ->
    exists ps : list (nat * nat),
      Forall2 (chosen i refs pool) ps out /\ NoDup ps.*1 /\ NoDup ps.*2.
Proof.
  induction refs as [|r refs IH]; intros i pool out Hnd; cbn.
  { intros [= <-]. exists []. split; [constructor|]. split; constructor. }
  destruct (np_get rtTol i) as [rt|]; [cbn|done].
  destruct (np_get mzTol i) as [mt|]; [cbn|done].
  destruct (match_choice rt mt r pool) as [[l c]|] eqn:Hch.
  - destruct (match_loop rtTol mzTol (S i) refs (drop_label l pool))
      as [rest|] eqn:Hrest; [cbn|done].
    intros [= <-].
    destruct (IH _ _ _ (drop_label_NoDup l pool Hnd) Hrest)
      as (ps & Hps & Hn1 & Hn2).
    apply match_choice_in in Hch.
    pose proof (chosen_bounds _ _ _ _ _ Hps) as Hb.
    rewrite Forall_forall in Hb.
    exists ((i, l) :: ps). split; [|split].
    + constructor.
      * split; [done|]. cbn. rewrite Nat.sub_diag. done.
      * eapply Forall2_impl; [exact Hps|].
        intros p row (Hle & Href & Hin). split; [lia|]. split.
        -- replace (p.1 - i)%nat with (S (p.1 - S i)) by lia. done.
        -- apply drop_label_elem in Hin. tauto.
    + cbn. apply NoDup_cons. split; [|done].
      intros Hin. apply list_elem_of_fmap in Hin as (p & Hp & Hin).
      destruct (Hb p Hin) as [Hle _]. lia.
    + cbn. apply NoDup_cons. split; [|done].
      intros Hin. apply list_elem_of_fmap in Hin as (p & Hp & Hin).
      destruct (Hb p Hin) as [_ Hl].
      apply list_elem_of_fmap in Hl as (q & Hq & Hl).
      apply drop_label_elem in Hl as [_ Hne]. congruence.
  - intros Hrest.
    destruct (IH _ _ _ Hnd Hrest) as (ps & Hps & Hn1 & Hn2).
    exists ps. split; [|done].
    eapply Forall2_impl; [exact Hps|].
    intros p row (Hle & Href & Hin). split; [lia|]. split; [|done].
    replace (p.1 - i)%nat with (S (p.1 - S i)) by lia. done.
Qed.


(** *** Unfolding the monad *)

Lemma bind_Ok {A B} (c : M A) (k : A -> M B) w b w' :
  bind c k w = (Ok b, w') ->
  exists a w1, c w = (Ok a, w1) /\ k a w1 = (Ok b, w').
Proof.
  unfold bind. destruct (c w) as [[a|e] w1]; [|done]. intros H. by exists a, w1.
Qed.

Lemma lift_Ok {A} (r : result A) w a w' :
  lift r w = (Ok a, w') -> r = Ok a /\ w' = w.
Proof. unfold lift. by intros [= -> ->]. Qed.

Lemma ret_Ok {A} (x : A) w a w' : ret x w = (Ok a, w') -> a = x /\ w' = w.
Proof. unfold ret. by intros [= -> ->]. Qed.

Lemma matchFeatures_loop ref comp rtSd mzSd params step w out w' :
  matchFeatures ref comp rtSd mzSd params step w = (Ok out, w') ->
  exists rtTol mzTol,
    match_loop rtTol mzTol 0 (sort_values_intensity ref)
               (labelled (sort_values_intensity comp)) = Ok out.
Proof.
  unfold matchFeatures. intros H.
  apply bind_Ok in H as ([rtTol mzTol] & w1 & _ & H).
  apply lift_Ok in H as [H _]. by exists rtTol, mzTol.
Qed.

Lemma NoDup_at_positions {A B} (f : A -> B) (l : list A) (idx : list nat)
    (ys : list B) :
  NoDup (f <$> l) -> NoDup idx ->
  Forall2 (fun i y => exists x, l !! i = Some x /\ y = f x) idx ys ->
  NoDup ys.
Proof.
  intros Hl His HF. induction HF as [|i y idx ys (x & Hx & ->) HF IH].
  { constructor. }
  apply NoDup_cons in His as [Hi His].
  apply NoDup_cons. split; [|by apply IH].
  intros Hin. apply Hi.
  apply list_elem_of_lookup in Hin as [k Hk].
  destruct (Forall2_lookup_r _ _ _ _ _ HF Hk) as (i' & Hi' & x' & Hx' & Heq).
  assert (i = i'); [|subst; by eapply list_elem_of_lookup_2].
  eapply (NoDup_lookup _ _ _ _ Hl); rewrite list_lookup_fmap.
  - by rewrite Hx.
  - rewrite Hx'. cbn. by rewrite Heq.
Qed.

(** C1.  In the table that matchFeatures returns, the rows come from
    pairwise different positions of the sorted reference table and from
    pairwise different positions of the sorted comparison table: no
    reference row and no comparison row is in two output pairs.  The table
    holds the feature indices as float64 values.  When the [index] column
    of an input table, so converted, has no duplicate, no feature index of
    that table comes twice in the output; and it has none when the indices
    of the table are pairwise different and below 2^53 in magnitude.  (Two
    indices that differ only beyond the precision of a float64 are one
    index in the output.) *)
Theorem matchFeatures_one_to_one ref comp rtSd mzSd params step w out w' :
  matchFeatures ref comp rtSd mzSd params step w = (Ok out, w') ->
  (exists ps : list (nat * nat),
      NoDup ps.*1 /\ NoDup ps.*2 /\
      Forall2 (fun p row =>
                 sort_values_intensity ref !! p.1 = Some (ref_row row) /\
                 sort_values_intensity comp !! p.2 = Some (comp_row row))
              ps out) /\
  (NoDup ((fun r => index_f (to_dict r)) <$> ref) ->
   NoDup ((fun row => index_f row.1) <$> matched_table out)) /\
  (NoDup ((fun c => index_f (to_dict c)) <$> comp) ->
   NoDup ((fun row => index_f row.2) <$> matched_table out)) /\
  (Forall (fun r => Z.abs (index r) < 2 ^ 53) ref -> NoDup (index <$> ref) ->
   NoDup ((fun row => index_f row.1) <$> matched_table out)) /\
  (Forall (fun c => Z.abs (index c) < 2 ^ 53) comp -> NoDup (index <$> comp) ->
   NoDup ((fun row => index_f row.2) <$> matched_table out)).
Proof.
  intros H.
  assert (Hexact : forall l : list Feature,
            Forall (fun r => Z.abs (index r) < 2 ^ 53) l ->
            NoDup (index <$> l) ->
            NoDup ((fun r => index_f (to_dict r)) <$> l)).
  { intros l Hb Hnd.
    change (fun r => index_f (to_dict r)) with (F.of_Z ∘ index).
    rewrite list_fmap_compose. apply NoDup_fmap_2_strong; [|done].
    rewrite Forall_forall in Hb.
    intros a b Ha Hb'. apply list_elem_of_fmap in Ha as (ra & -> & Ha).
    apply list_elem_of_fmap in Hb' as (rb & -> & Hb').
    apply of_Z_inj; by apply Hb. }
  assert (Hfloat :
    (NoDup ((fun r => index_f (to_dict r)) <$> ref) ->
     NoDup ((fun row => index_f row.1) <$> matched_table out)) /\
    (NoDup ((fun c => index_f (to_dict c)) <$> comp) ->
     NoDup ((fun row => index_f row.2) <$> matched_table out)) ->
    (NoDup ((fun r => index_f (to_dict r)) <$> ref) ->
     NoDup ((fun row => index_f row.1) <$> matched_table out)) /\
    (NoDup ((fun c => index_f (to_dict c)) <$> comp) ->
     NoDup ((fun row => index_f row.2) <$> matched_table out)) /\
    (Forall (fun r => Z.abs (index r) < 2 ^ 53) ref -> NoDup (index <$> ref) ->
     NoDup ((fun row => index_f row.1) <$> matched_table out)) /\
    (Forall (fun c => Z.abs (index c) < 2 ^ 53) comp -> NoDup (index <$> comp) ->
     NoDup ((fun row => index_f row.2) <$> matched_table out))).
  { intros [H1 H2]. split; [done|]. split; [done|].
    split; intros Hb Hnd; [apply H1|apply H2]; by apply Hexact. }
  apply matchFeatures_loop in H as (rtTol & mzTol & H).
  apply match_loop_positions in H as (ps & Hps & Hn1 & Hn2);
    [|apply labelled_NoDup].
  assert (Hpos : Forall2 (fun p row =>
                 sort_values_intensity ref !! p.1 = Some (ref_row row) /\
                 sort_values_intensity comp !! p.2 = Some (comp_row row))
              ps out).
  { eapply Forall2_impl; [exact Hps|].
    intros p row (_ & Href & Hin). rewrite Nat.sub_0_r in Href.
    split; [done|]. by apply labelled_lookup. }
  split; [by exists ps|]. apply Hfloat. unfold matched_table.
  split; intros Hnd; rewrite <- list_fmap_compose.
  - eapply (NoDup_at_positions (fun r => index_f (to_dict r))
              (sort_values_intensity ref) ps.*1).
    + by rewrite sort_values_intensity_perm.
    + done.
    + apply Forall2_fmap. eapply Forall2_impl; [exact Hpos|].
      intros p row [Href _]. by exists (ref_row row).
  - eapply (NoDup_at_positions (fun c => index_f (to_dict c))
              (sort_values_intensity comp) ps.*2).
    + by rewrite sort_values_intensity_perm.
    + done.
    + apply Forall2_fmap. eapply Forall2_impl; [exact Hpos|].
      intros p row [_ Hcomp]. by exists (comp_row row).
Qed.


(** *** What the calls do to the caller's arrays *)

Lemma zero_floor_no_zero sd sd' :
  zero_floor sd = Ok sd' -> Forall (fun y => F.is_zero y = false) sd'.
Proof.
  unfold zero_floor.
  destruct (py_min (List.filter F.is_pos sd)) as [m|] eqn:Hm; [cbn|done].
  intros [= <-].
  assert (Hp : F.is_pos m = true).
  { destruct (List.filter F.is_pos sd) as [|x rest] eqn:Hf; [done|].
    destruct (py_min_spec (x :: rest)) as (m' & Hm' & _ & Hp & _); [done| |].
    - apply Forall_forall. intros y Hy. rewrite <- Hf in Hy.
      apply list_elem_of_In, filter_In in Hy. tauto.
    - congruence. }
  apply Forall_forall. intros y Hy.
  apply list_elem_of_fmap in Hy as (y0 & -> & _).
  destruct (F.is_zero y0) eqn:Hz; [by apply is_pos_not_zero|done].
Qed.

Lemma zero_floor_fixed sd sd' :
  Forall (fun y => F.is_zero y = false) sd ->
  zero_floor sd = Ok sd' -> sd' = sd.
Proof.
  unfold zero_floor. intros Hnz.
  destruct (py_min (List.filter F.is_pos sd)) as [m|]; [cbn|done].
  intros [= <-]. induction Hnz as [|y sd Hy _ IH]; cbn; [done|].
  by rewrite Hy, IH.
Qed.

Lemma zero_floor_idem sd sd' sd'' :
  zero_floor sd = Ok sd' -> zero_floor sd' = Ok sd'' -> sd'' = sd'.
Proof.
  intros H1 H2. eapply zero_floor_fixed; [|done]. by eapply zero_floor_no_zero.
Qed.


(** The arrays of [w] are still there, unchanged, in [w1]. *)
Definition agree_on (w w1 : world) : Prop :=
  forall l sd, arrays w !! l = Some sd -> arrays w1 !! l = Some sd.

Lemma arrays_set_arrays h w : arrays (set_arrays h w) = h.
Proof. reflexivity. Qed.

Lemma sd_repeat_Ok sd n w sd1 w1 :
  sd_repeat sd n w = (Ok sd1, w1) ->
  agree_on w w1 /\
  (sd1 = sd \/
   exists x l1, sd = SdScalar x /\ sd1 = SdArray l1 /\ arrays w !! l1 = None).
Proof.
  destruct sd as [x|l|xs]; cbn.
  - unfold bind, np_new, ret. cbn. intros [= <- <-]. split.
    + intros l sd Hl. rewrite arrays_set_arrays, lookup_insert_ne; [done|].
      intros <-. apply elem_of_dom_2 in Hl. by apply is_fresh in Hl.
    + right. eexists _, _. split; [done|]. split; [done|].
      apply not_elem_of_dom, is_fresh.
  - intros [= <- <-]. split; [by intros ??|by left].
  - intros [= <- <-]. split; [by intros ??|by left].
Qed.

Lemma sd_floor_Ok sd w u w1 :
  sd_floor sd w = (Ok u, w1) ->
  exists l a a', sd = SdArray l /\ arrays w !! l = Some a /\
                 zero_floor a = Ok a' /\ arrays w1 = <[l := a']> (arrays w).
Proof.
  destruct sd as [x|l|xs]; cbn; [done| |done].
  unfold floor_in_place, bind, np_read, lift, np_write.
  destruct (arrays w !! l) as [a|] eqn:Ha; [|done].
  destruct (zero_floor a) as [a'|] eqn:Hf; [|done].
  intros [= <- <-]. by exists l, a, a'.
Qed.

Lemma sd_times_world sd x w r w1 : sd_times sd x w = (r, w1) -> w1 = w.
Proof.
  destruct sd as [y|l|xs]; cbn; [by intros [= _ <-]| |by intros [= _ <-]].
  unfold bind, np_read, ret. destruct (arrays w !! l); by intros [= _ <-].
Qed.

Lemma tolerances_arrays n rtSd mzSd params w t w' l sd :
  tolerances n rtSd mzSd params w = (Ok t, w') ->
  arrays w !! l = Some sd ->
  (rtSd = SdArray l \/ mzSd = SdArray l ->
   exists sd', zero_floor sd = Ok sd' /\ arrays w' !! l = Some sd') /\
  (rtSd <> SdArray l -> mzSd <> SdArray l -> arrays w' !! l = Some sd).
Proof.
  unfold tolerances. intros H Hl.
  apply bind_Ok in H as (rt1 & w1 & Hr1 & H).
  apply bind_Ok in H as (mz1 & w2 & Hr2 & H).
  apply bind_Ok in H as (u1 & w3 & Hf1 & H).
  apply bind_Ok in H as (u2 & w4 & Hf2 & H).
  apply bind_Ok in H as (sdWidth & w5 & Hw & H).
  apply bind_Ok in H as (rtTol & w6 & Ht1 & H).
  apply bind_Ok in H as (mzTol & w7 & Ht2 & H).
  apply ret_Ok in H as [_ ->].
  apply sd_times_world in Ht1, Ht2. apply lift_Ok in Hw as [_ ->]. subst.
  apply sd_repeat_Ok in Hr1 as [Hag1 Hrt].
  apply sd_repeat_Ok in Hr2 as [Hag2 Hmz].
  apply sd_floor_Ok in Hf1 as (l1 & a1 & a1' & -> & Ha1 & Hz1 & Hw3).
  apply sd_floor_Ok in Hf2 as (l2 & a2 & a2' & -> & Ha2 & Hz2 & Hw4).
  rewrite Hw4, Hw3. rewrite Hw3 in Ha2.
  pose proof (Hag2 _ _ (Hag1 _ _ Hl)) as Hl2.
  assert (Hrt' : rtSd = SdArray l1 \/ (l1 <> l /\ rtSd <> SdArray l)).
  { destruct Hrt as [<-|(x & l0 & -> & [= <-] & Hnone)]; [by left|right].
    split; [|done]. intros ->. congruence. }
  assert (Hmz' : mzSd = SdArray l2 \/ (l2 <> l /\ mzSd <> SdArray l)).
  { destruct Hmz as [<-|(x & l0 & -> & [= <-] & Hnone)]; [by left|right].
    split; [|done]. intros ->. specialize (Hag1 _ _ Hl). congruence. }
  destruct (decide (l1 = l)) as [->|Hne1];
    destruct (decide (l2 = l)) as [->|Hne2].
  - rewrite lookup_insert_eq in Ha2. injection Ha2 as <-.
    assert (a1 = sd) by congruence. subst a1.
    rewrite (zero_floor_idem _ _ _ Hz1 Hz2). split.
    + intros _. exists a1'. by rewrite lookup_insert_eq.
    + intros Hn. destruct Hrt' as [->|[? _]]; done.
  - assert (a1 = sd) by congruence. subst a1. split.
    + intros _. exists a1'.
      by rewrite lookup_insert_ne, lookup_insert_eq.
    + intros Hn. destruct Hrt' as [->|[? _]]; done.
  - rewrite lookup_insert_ne in Ha2 by done.
    assert (a2 = sd) by congruence. subst a2. split.
    + intros _. exists a2'. by rewrite lookup_insert_eq.
    + intros _ Hn. destruct Hmz' as [->|[? _]]; done.
  - split.
    + intros [->| ->].
      * destruct Hrt' as [[= ?]|[_ ?]]; done.
      * destruct Hmz' as [[= ?]|[_ ?]]; done.
    + intros _ _. by rewrite !lookup_insert_ne.
Qed.

Lemma zero_floor_shape sd sd' :
  zero_floor sd = Ok sd' ->
  exists m, py_min (List.filter F.is_pos sd) = Ok m /\
            sd' = map (fun x => if F.is_zero x then m else x) sd.
Proof.
  unfold zero_floor.
  destruct (py_min (List.filter F.is_pos sd)) as [m|]; [cbn|done].
  intros [= <-]. by exists m.
Qed.




(** An array that is not passed is left as it was; so are all arrays of
    the caller when scalars are passed, since [np.repeat] makes new ones. *)
Lemma matchFeatures_frame ref comp rtSd mzSd params step w out w' l sd :
  matchFeatures ref comp rtSd mzSd params step w = (Ok out, w') ->
  arrays w !! l = Some sd ->
  rtSd <> SdArray l -> mzSd <> SdArray l ->
  arrays w' !! l = Some sd.
Proof.
  intros H Hl H1 H2. unfold matchFeatures in H.
  apply bind_Ok in H as ([rtTol mzTol] & w1 & Ht & H).
  apply lift_Ok in H as [_ ->].
  destruct (tolerances_arrays _ _ _ _ _ _ _ _ _ Ht Hl) as [_ Hfr]. auto.
Qed.

End Matching.

(** *** A run of the matching functions *)

Module MatchExample.

(** [float] on the strings the example passes. *)
Definition py_float (s : string) : result float :=
  if String.eqb s "10" then Ok 10%float else Raise ValueError.

Definition feat (i : Z) (m : float) (c : Z) (rt inten : float) : Feature :=
  mkFeature i m c 0 0 0 rt rt rt inten 1%float 1%float.

(** The three reference features of the test scenario, and the same three
    shifted by a few ppm in m/z and one second in RT. *)
Definition ref : list Feature :=
  [ feat 1 300%float 2 180%float 100%float;
    feat 2 100%float 1 60%float 1000%float;
    feat 3 200%float 0 120%float 500%float ].

Definition comp : list Feature :=
  [ feat 11 100.000244140625%float 1 61%float 900%float;
    feat 12 200.00048828125%float 0 121%float 450%float;
    feat 13 300.000732421875%float 2 181%float 90%float ].

Definition params : gmap string string := {[ "sd_width" := "10" ]}.

(** The caller holds two SD arrays; the first has zero entries. *)
Definition rtSd_array : list float := [0%float; 0.5%float; (-0)%float].
Definition mzSd_array : list float := [1%float; 1%float; 1%float].

Definition w0 : world :=
  World (<[2%positive := mzSd_array]> {[ 1%positive := rtSd_array ]}) [] 0 [].

Definition run := matchFeatures py_float ref comp
                    (SdArray 1%positive) (SdArray 2%positive) params "align" w0.

Definition out : list MatchedPair :=
  [ mkPair (feat 2 100%float 1 60%float 1000%float)
           (feat 11 100.000244140625%float 1 61%float 900%float);
    mkPair (feat 3 200%float 0 120%float 500%float)
           (feat 12 200.00048828125%float 0 121%float 450%float);
    mkPair (feat 1 300%float 2 180%float 100%float)
           (feat 13 300.000732421875%float 2 181%float 90%float) ].

Lemma match_run_result : run = (Ok out, snd run).
Proof. vm_compute. reflexivity. Qed.

(** Two floats with different representations are different. *)
Lemma float_neq (x y : float) : Prim2SF x <> Prim2SF y -> x <> y.
Proof. intros H ->. by apply H. Qed.

Lemma ref_indices_differ : NoDup ((fun r => index_f (to_dict r)) <$> ref).
Proof.
  unfold ref. cbn [fmap list_fmap].
  repeat (apply NoDup_cons; split;
          [rewrite ?elem_of_cons, elem_of_nil;
           intros H; repeat destruct H as [H|H]; try done;
           revert H; apply float_neq; vm_compute; discriminate|]).
  constructor.
Qed.

Lemma comp_indices_differ : NoDup ((fun c => index_f (to_dict c)) <$> comp).
Proof.
  unfold comp. cbn [fmap list_fmap].
  repeat (apply NoDup_cons; split;
          [rewrite ?elem_of_cons, elem_of_nil;
           intros H; repeat destruct H as [H|H]; try done;
           revert H; apply float_neq; vm_compute; discriminate|]).
  constructor.
Qed.

Lemma matchFeatures_one_to_one_witness :
  run = (Ok out, snd run) /\
  (exists ps : list (nat * nat),
      NoDup ps.*1 /\ NoDup ps.*2 /\
      Forall2 (fun p row =>
                 sort_values_intensity ref !! p.1 = Some (ref_row row) /\
                 sort_values_intensity comp !! p.2 = Some (comp_row row))
              ps out) /\
  NoDup ((fun row => index_f row.1) <$> matched_table out) /\
  NoDup ((fun row => index_f row.2) <$> matched_table out) /\
  (Forall (fun r => Z.abs (index r) < 2 ^ 53) ref /\ NoDup (index <$> ref)) /\
  (Forall (fun c => Z.abs (index c) < 2 ^ 53) comp /\ NoDup (index <$> comp)).
Proof.
  split; [exact match_run_result|].
  destruct (matchFeatures_one_to_one py_float ref comp (SdArray 1%positive)
              (SdArray 2%positive) params "align" w0 out (snd run)
              match_run_result) as (Hpos & Href & Hcomp & Href' & Hcomp').
  assert (Hr : Forall (fun r => Z.abs (index r) < 2 ^ 53) ref /\
               NoDup (index <$> ref)).
  { split; [repeat constructor|]. unfold ref. cbn.
    repeat (apply NoDup_cons; split;
            [rewrite ?elem_of_cons, elem_of_nil;
             intros H; repeat destruct H as [H|H]; done|]).
    constructor. }
  assert (Hc : Forall (fun c => Z.abs (index c) < 2 ^ 53) comp /\
               NoDup (index <$> comp)).
  { split; [repeat constructor|]. unfold comp. cbn.
    repeat (apply NoDup_cons; split;
            [rewrite ?elem_of_cons, elem_of_nil;
             intros H; repeat destruct H as [H|H]; done|]).
    constructor. }
  split; [exact Hpos|].
  split; [exact (Href' (proj1 Hr) (proj2 Hr))|].
  split; [exact (Hcomp' (proj1 Hc) (proj2 Hc))|done].
Defined.

(** Beyond 2^53 two indices can have the same float64. *)
Example large_indices_collide : F.of_Z (2 ^ 53) = F.of_Z (2 ^ 53 + 1).
Proof. vm_compute. reflexivity. Qed.

(** The feature indices of the output, as the table holds them. *)
Example output_indices :
  (fun row => (index_f row.1, index_f row.2)) <$> matched_table out
  = [(2%float, 11%float); (3%float, 12%float); (1%float, 13%float)].
Proof. vm_compute. reflexivity. Qed.




(** After the call the caller's RT-SD array reads 0.5, 0.5, 0.5. *)
Example caller_array_after :
  arrays (snd run) !! 1%positive = Some [0.5%float; 0.5%float; 0.5%float].
Proof. vm_compute. reflexivity. Qed.

End MatchExample.

(** ** Global calibration *)

(** [round(x)] of Python on a float: to the nearest integer, ties to even. *)
Definition py_round (x : float) : result Z :=
match Prim2SF x with
| S754_zero _ => Ok 0
| S754_finite s m e =>
    let r := F.round_half_even_mag m e in Ok (if s then - r else r)
| S754_infinity _ => Raise OverflowError
| S754_nan => Raise ValueError
end.

(** The literal [0.05]. *)
Definition five_percent : float := 0x1.999999999999ap-5%float.

(** A Python [int] as an operand of float arithmetic ([mz * mzTol]): the
    nearest binary64, and OverflowError when that is beyond the largest
    one. *)
Definition py_int_as_float (n : Z) : result float :=
match binary_normalize FloatOps.prec FloatOps.emax n 0 false with
| S754_infinity _ => Raise OverflowError
| x => Ok (SF2Prim x)
end.

(** [(comp["mz"] >= lL) & (comp["mz"] < uL)], and [& (comp["z"] == z)] when
    the reference charge [z] is not 0, at one row [c]; [tol] is the
    tolerance [mzTol] as the float that the arithmetic of lines 74 and 75
    makes of it. *)
Definition in_window (tol : float) (r c : Feature) : bool :=
let lL := (mz r - mz r * tol / million)%float in
let uL := (mz r + mz r * tol / million)%float in
if z r =? 0
then PrimFloat.leb lL (mz c) && PrimFloat.ltb (mz c) uL
else PrimFloat.leb lL (mz c) && PrimFloat.ltb (mz c) uL && same_charge r c.

(** The [while j <= nPeaks] loop.  [refs] are the rows [i], [i+1], ... of the
    reference table; reading row [i] of a table that has no such row is a
    KeyError.  The limits of the window are computed anew for every row, and
    with them the conversion of [mzTol]. *)
Fixpoint global_scan (mzTol nPeaks j : Z) (refs : list Feature)
  (pool : list (nat * Feature)) (rtShifts mzShifts : list float)
: result (list float * list float) :=
if j <=? nPeaks then
  match refs with
  | [] => Raise KeyError
  | r :: refs' =>
      try* tol := py_int_as_float mzTol in
      match List.filter (fun p => in_window tol r (snd p)) pool with
      | (l, c) :: _ =>
          global_scan mzTol nPeaks (j + 1) refs' (drop_label l pool)
            (rtShifts ++ [(RT c - RT r)%float])
            (mzShifts ++ [((mz c - mz r) / mz r * million)%float])
      | [] => global_scan mzTol nPeaks j refs' pool rtShifts mzShifts
      end
  end
else Ok (rtShifts, mzShifts).

Section GlobalCalibration.

(** [np.percentile(a, q)]. *)
Variable np_percentile : list float -> float -> result float.

(** [a[(a >= np.percentile(a, 10)) & (a <= np.percentile(a, 90))]] *)
Definition trim_10_90 (a : list float) : result (list float) :=
try* p10 := np_percentile a 10%float in
try* p90 := np_percentile a 90%float in
Ok (List.filter (fun x => PrimFloat.leb p10 x && PrimFloat.leb x p90) a).

Definition globalCalibration (ref comp : list Feature) (mzTol : Z)
: result (list float * list float) :=
try* nPeaks := py_round (five_percent * F.of_Z (Z.of_nat (length ref)))%float in
try* shifts := global_scan mzTol nPeaks 1 ref (labelled comp) [] [] in
try* rtShifts := trim_10_90 (fst shifts) in
try* mzShifts := trim_10_90 (snd shifts) in
Ok (rtShifts, mzShifts).

(** With no comparison row left, a scan that still has a quota to fill runs
    off the end of the reference table. *)
Lemma global_scan_empty_pool mzTol tol nPeaks j refs rtShifts mzShifts :
  py_int_as_float mzTol = Ok tol ->
  j <= nPeaks ->
  global_scan mzTol nPeaks j refs [] rtShifts mzShifts = Raise KeyError.
Proof.
  intros Htol Hj. induction refs as [|r refs IH]; cbn.
  - by rewrite (proj2 (Z.leb_le _ _) Hj).
  - by rewrite (proj2 (Z.leb_le _ _) Hj), Htol.
Qed.

End GlobalCalibration.

Module GlobalExample.

(** Twenty reference features, m/z 100, 101, ..., 119, and twenty comparison
    features, m/z 200, 201, ..., 219: none is within 20 ppm of another. *)
Definition feat (base : Z) (k : nat) : Feature :=
let v := F.of_Z (base + Z.of_nat k) in
mkFeature (Z.of_nat k) v 1 0 0 0 v v v (F.of_Z (1000 - Z.of_nat k)) 1%float 1%float.

Definition ref : list Feature := map (feat 100) (seq 0 20).
Definition comp : list Feature := map (feat 200) (seq 0 20).

Example quota : py_round (five_percent * F.of_Z (Z.of_nat (length ref)))%float = Ok 1.
Proof. vm_compute. reflexivity. Qed.

End GlobalExample.

(** C3 (the code departs from it).  On twenty reference features of which
    none has a comparison feature in its m/z window, the quota is one match;
    the scan reads past the last reference row and globalCalibration raises
    KeyError instead of returning, whatever np.percentile computes. *)
Theorem globalCalibration_exhausted_raises
  (np_percentile : list float -> float -> result float) :
  globalCalibration np_percentile GlobalExample.ref GlobalExample.comp 20
  = Raise KeyError.
Proof.
  unfold globalCalibration.
  replace (py_round _) with (@Ok Z 1) by (vm_compute; reflexivity).
  unfold rbind at 1.
  replace (global_scan _ _ _ _ _ _ _)
    with (@Raise (list float * list float) KeyError)
    by (vm_compute; reflexivity).
  reflexivity.
Qed.

(** ** The order of binary64 on all numbers *)

(** A key that orders the spec floats that are not NaN as [SFcompare]
    does: the class, then exponent and mantissa, mirrored for the
    negative numbers. *)
Definition sf_key (f : spec_float) : Z * Z * Z :=
  match f with
  | S754_zero _ => (0, 0, 0)
  | S754_infinity s => (if s then -2 else 2, 0, 0)
  | S754_finite s m e => if s then (-1, - e, - Z.pos m) else (1, e, Z.pos m)
  | S754_nan => (0, 0, 0)
  end.

Definition key_lt (a b : Z * Z * Z) : Prop :=
  a.1.1 < b.1.1 \/
  (a.1.1 = b.1.1 /\ (a.1.2 < b.1.2 \/ (a.1.2 = b.1.2 /\ a.2 < b.2))).

Definition key_le (a b : Z * Z * Z) : Prop :=
  a.1.1 < b.1.1 \/
  (a.1.1 = b.1.1 /\ (a.1.2 < b.1.2 \/ (a.1.2 = b.1.2 /\ a.2 <= b.2))).

Lemma SFcompare_key x y :
  match SFcompare x y with
  | Some Lt => key_lt (sf_key x) (sf_key y)
  | Some Eq => key_le (sf_key x) (sf_key y) /\ key_le (sf_key y) (sf_key x)
  | Some Gt => key_lt (sf_key y) (sf_key x)
  | None => x = S754_nan \/ y = S754_nan
  end.
Proof.
  unfold key_lt, key_le.
  destruct x as [s1|s1| |s1 m1 e1], y as [s2|s2| |s2 m2 e2]; cbn;
    try destruct s1; try destruct s2; cbn; try lia; try tauto.
  - change (Pos.compare_cont Eq m1 m2) with (Pos.compare m1 m2).
    destruct (Z.compare_spec e1 e2); cbn; try lia.
    destruct (Pos.compare_spec m1 m2); cbn; lia.
  - change (Pos.compare_cont Eq m1 m2) with (Pos.compare m1 m2).
    destruct (Z.compare_spec e1 e2); cbn; try lia.
    destruct (Pos.compare_spec m1 m2); cbn; lia.
Qed.

Lemma SFcompare_nan x y :
  x <> S754_nan -> y <> S754_nan -> SFcompare x y <> None.
Proof. destruct x, y; cbn; congruence. Qed.

Lemma is_nan_sf x : F.is_nan x = false <-> Prim2SF x <> S754_nan.
Proof.
  unfold F.is_nan. rewrite negb_false_iff, FloatAxioms.eqb_spec.
  unfold SFeqb. destruct (Prim2SF x) as [s|s| |s m e]; cbn.
  - done.
  - by destruct s.
  - split; [done|]. by intros [].
  - split; [done|]. intros _.
    change (Pos.compare_cont Eq m m) with (Pos.compare m m).
    rewrite Z.compare_refl, Pos.compare_refl. by destruct s.
Qed.

Lemma fltb_key x y :
  PrimFloat.ltb x y = true ->
  F.is_nan x = false /\ F.is_nan y = false /\
  key_lt (sf_key (Prim2SF x)) (sf_key (Prim2SF y)).
Proof.
  rewrite FloatAxioms.ltb_spec, !is_nan_sf. unfold SFltb.
  pose proof (SFcompare_key (Prim2SF x) (Prim2SF y)) as H.
  destruct (SFcompare (Prim2SF x) (Prim2SF y)) as [[]|] eqn:Hc; try done.
  intros _. split; [|split; [|done]].
  - intros Hn. rewrite Hn in Hc. done.
  - intros Hn. rewrite Hn in Hc. by destruct (Prim2SF x).
Qed.

Lemma fltb_false_key x y :
  F.is_nan x = false -> F.is_nan y = false ->
  PrimFloat.ltb x y = false ->
  key_le (sf_key (Prim2SF y)) (sf_key (Prim2SF x)).
Proof.
  rewrite FloatAxioms.ltb_spec, !is_nan_sf. unfold SFltb. intros Hx Hy.
  pose proof (SFcompare_key (Prim2SF x) (Prim2SF y)) as H.
  pose proof (SFcompare_nan _ _ Hx Hy) as Hn.
  destruct (SFcompare (Prim2SF x) (Prim2SF y)) as [[]|]; try done.
  - tauto.
  - intros _. unfold key_lt, key_le in *. lia.
Qed.

Lemma fleb_key x y :
  F.is_nan x = false -> F.is_nan y = false ->
  (PrimFloat.leb x y = true <->
   key_le (sf_key (Prim2SF x)) (sf_key (Prim2SF y))).
Proof.
  rewrite FloatAxioms.leb_spec, !is_nan_sf. unfold SFleb. intros Hx Hy.
  pose proof (SFcompare_key (Prim2SF x) (Prim2SF y)) as H.
  pose proof (SFcompare_nan _ _ Hx Hy) as Hn.
  destruct (SFcompare (Prim2SF x) (Prim2SF y)) as [[]|]; try done;
    unfold key_lt, key_le in *.
  - tauto.
  - split; [intros _; lia|done].
  - split; [done|lia].
Qed.

Lemma fleb_not_nan x y :
  PrimFloat.leb x y = true -> F.is_nan x = false /\ F.is_nan y = false.
Proof.
  rewrite FloatAxioms.leb_spec, !is_nan_sf. unfold SFleb.
  destruct (SFcompare (Prim2SF x) (Prim2SF y)) as [c|] eqn:Hc; [|done].
  intros _. split; intros Hn; rewrite Hn in Hc; [done|].
  by destruct (Prim2SF x).
Qed.

(** [<] is asymmetric, and what is not below is above. *)
Lemma fltb_asym x y : PrimFloat.ltb x y = true -> PrimFloat.ltb y x = false.
Proof.
  intros H. destruct (PrimFloat.ltb y x) eqn:H'; [|done].
  apply fltb_key in H as (_ & _ & H). apply fltb_key in H' as (_ & _ & H').
  unfold key_lt in *. lia.
Qed.

Lemma fltb_neg_trans x y z :
  F.is_nan y = false ->
  PrimFloat.ltb x y = false -> PrimFloat.ltb y z = false ->
  PrimFloat.ltb x z = false.
Proof.
  intros Hy Hxy Hyz. destruct (PrimFloat.ltb x z) eqn:Hxz; [|done].
  apply fltb_key in Hxz as (Hx & Hz & Hxz).
  apply (fltb_false_key _ _ Hx Hy) in Hxy.
  apply (fltb_false_key _ _ Hy Hz) in Hyz.
  unfold key_lt, key_le in *. lia.
Qed.

Lemma fleb_trans x y z :
  PrimFloat.leb x y = true -> PrimFloat.leb y z = true ->
  PrimFloat.leb x z = true.
Proof.
  intros Hxy Hyz.
  destruct (fleb_not_nan _ _ Hxy) as [Hx Hy].
  destruct (fleb_not_nan _ _ Hyz) as [_ Hz].
  apply (fleb_key _ _ Hx Hy) in Hxy. apply (fleb_key _ _ Hy Hz) in Hyz.
  apply (fleb_key _ _ Hx Hz). unfold key_le in *. lia.
Qed.

Lemma fleb_total x y :
  F.is_nan x = false -> F.is_nan y = false ->
  PrimFloat.leb x y = false -> PrimFloat.leb y x = true.
Proof.
  intros Hx Hy Hxy. apply (fleb_key _ _ Hy Hx).
  destruct (PrimFloat.leb x y) eqn:H; [done|].
  assert (Hn : ~ key_le (sf_key (Prim2SF x)) (sf_key (Prim2SF y))).
  { intros Hk. apply (fleb_key _ _ Hx Hy) in Hk. congruence. }
  unfold key_le in *. lia.
Qed.

Lemma fleb_refl x : F.is_nan x = false -> PrimFloat.leb x x = true.
Proof. intros Hx. apply (fleb_key _ _ Hx Hx). unfold key_le. lia. Qed.

(** ** Tables in descending order of intensity *)

Lemma more_intense_asym a b :
  more_intense a b = true -> more_intense b a = false.
Proof.
  unfold more_intense.
  destruct (F.is_nan (intensity a)) eqn:Ha; [done|].
  destruct (F.is_nan (intensity b)) eqn:Hb; [done|]. apply fltb_asym.
Qed.

Lemma more_intense_irrefl a : more_intense a a = false.
Proof.
  destruct (more_intense a a) eqn:H; [|done].
  pose proof (more_intense_asym _ _ H). congruence.
Qed.

Lemma more_intense_neg_trans a b c :
  more_intense a b = false -> more_intense b c = false ->
  more_intense a c = false.
Proof.
  unfold more_intense.
  destruct (F.is_nan (intensity a)) eqn:Ha; [done|].
  destruct (F.is_nan (intensity b)) eqn:Hb; [done|].
  destruct (F.is_nan (intensity c)) eqn:Hc; [done|].
  intros Hab Hbc. exact (fltb_neg_trans _ _ _ Hb Hbc Hab).
Qed.

(** No row is more intense than a row before it. *)
Fixpoint descending (l : list Feature) : Prop :=
  match l with
  | [] => True
  | x :: l' => Forall (fun y => more_intense y x = false) l' /\ descending l'
  end.

Lemma descending_insert x l :
  descending l -> descending (insert_by_intensity x l).
Proof.
  induction l as [|y l IH]; cbn.
  { intros _. split; [constructor|done]. }
  intros [Hy Hl]. destruct (more_intense y x) eqn:Hyx; cbn.
  - split; [|by apply IH].
    rewrite insert_by_intensity_perm. constructor; [|done].
    by apply more_intense_asym.
  - split; [|done]. constructor; [done|].
    eapply Forall_impl; [exact Hy|]. cbn. intros z Hz.
    by eapply more_intense_neg_trans.
Qed.

Lemma sort_values_intensity_descending df :
  descending (sort_values_intensity df).
Proof.
  induction df as [|x df IH]; cbn; [done|]. by apply descending_insert.
Qed.

(** ** Local calibration *)

(** What [rtShifts] or [mzShifts] holds: a pandas Series, or the one float
    that the degenerate guard computes. *)
Inductive shifts :=
| Scalar (x : float)
| Series (xs : list float).

(** An argument of the [%] operator on strings. *)
Inductive pyarg :=
| AInt (n : Z)
| AFloat (x : float)
| AStr (s : string).

(** The literals [1e-6] and [1e-3]. *)
Definition one_millionth : float := 0x1.0c6f7a0b5ed8dp-20%float.
Definition one_thousandth : float := 0x1.0624dd2f1a9fcp-10%float.

(** [(a == b).all()] on two Series over the same rows. *)
Definition all_equal (a b : list float) : bool :=
forallb (fun p => PrimFloat.eqb (fst p) (snd p)) (zip a b).

(** An elementwise operation on two vectors.  The vectors that meet here
    have one entry per row of the same table; the shape error of numpy
    stands for any other case. *)
Definition np_zip (f : float -> float -> float) (a b : list float)
: result (list float) :=
if Nat.eqb (length a) (length b) then Ok (zip_with f a b) else Raise ValueError.

(** [FloatVector(x)] of rpy2: of a sequence; a bare float is refused.  (Were
    it taken as a vector of one entry, [loess.as] would stop on the
    lengths of its arguments: the call fails either way.) *)
Definition FloatVector (s : shifts) : result (list float) :=
match s with
| Series xs => Ok xs
| Scalar _ => Raise TypeError
end.

(** [s ** 2] *)
Definition squared (s : shifts) : shifts :=
match s with
| Scalar x => Scalar (x * x)%float
| Series xs => Series (map (fun x => (x * x)%float) xs)
end.

(** [s[ind]]: rows of a Series; a float has no subscript. *)
Definition take_at (s : shifts) (ind : list nat) : result shifts :=
match s with
| Series xs => Ok (Series (omap (fun i => xs !! i) ind))
| Scalar _ => Raise TypeError
end.

(** [np.amin(a)] and [np.amax(a)]: a NaN entry is propagated; no entry is a
    ValueError. *)
Definition np_amin (a : list float) : result float :=
match a with
| [] => Raise ValueError
| x :: rest =>
    Ok (fold_left (fun m y => if F.is_nan m then m else if F.is_nan y then y
                              else if PrimFloat.ltb y m then y else m) rest x)
end.

Definition np_amax (a : list float) : result float :=
match a with
| [] => Raise ValueError
| x :: rest =>
    Ok (fold_left (fun m y => if F.is_nan m then m else if F.is_nan y then y
                              else if PrimFloat.ltb m y then y else m) rest x)
end.

Definition set_RT (v : float) (c : Feature) : Feature :=
mkFeature (index c) (mz c) (z c) (MS1 c) (minMS1 c) (maxMS1 c) v (minRT c)
  (maxRT c) (intensity c) (SNratio c) (PercentageTF c).

Definition set_mz (v : float) (c : Feature) : Feature :=
mkFeature (index c) v (z c) (MS1 c) (minMS1 c) (maxMS1 c) (RT c) (minRT c)
  (maxRT c) (intensity c) (SNratio c) (PercentageTF c).

(** History: a pass of local calibration on axis [type] begins. *)
Definition note_pass (type : string) : M unit :=
fun w => (Ok tt, set_lc_passes (lc_passes w ++ [type]) w).

Section Calibration.

(** *** What the module takes from Python, numpy and R *)

Variable py_float : string -> result float.
Variable py_int : string -> result Z.
(** [fmt % args] *)
Variable py_format : string -> list pyarg -> result string.
Variable np_percentile : list float -> float -> result float.
Variable np_median : list float -> float.
(** [np.std(a, ddof = 1)] *)
Variable np_std1 : list float -> float.
(** The standard normal deviates that the generator hands out, in order. *)
Variable std_normal : nat -> float.
(** A model fitted by the R function [loess.as] (degree 1, AICc span,
    gaussian family: the defaults, which the calls that name them repeat),
    its fitted values and its prediction at a new point. *)
Variable r_model : Type.
Variable loess_as : list float -> list float -> result r_model.
Variable r_fitted : r_model -> list float.
Variable r_predict : r_model -> float -> float.

(** [np.random.normal(loc)]: one float, [loc] plus a standard deviate. *)
Definition np_random_normal (loc : float) : M float :=
fun w => (Ok (loc + 1 * std_normal (rng_drawn w))%float,
          set_rng_drawn (S (rng_drawn w)) w).

(** [if (refRt == compRt).all(): 1e-6 * np.random.normal(len(refRt))
     else: compRt - refRt] *)
Definition rt_shifts (refRt compRt : list float) : M shifts :=
if all_equal refRt compRt then
  let* g := np_random_normal (F.of_Z (Z.of_nat (length refRt))) in
  ret (Scalar (one_millionth * g)%float)
else ret (Series (zip_with (fun c r => (c - r)%float) compRt refRt)).

(** The same for m/z, in ppm: [(compMz - refMz) / refMz * 1e6]. *)
Definition mz_shifts (refMz compMz : list float) : M shifts :=
if all_equal refMz compMz then
  let* g := np_random_normal (F.of_Z (Z.of_nat (length refMz))) in
  ret (Scalar (one_millionth * g)%float)
else ret (Series (zip_with (fun c r => ((c - r) / r * million)%float)
                           compMz refMz)).

(** [np.where((s >= np.percentile(s, 10)) & (s <= np.percentile(s, 90)))[0]].
    Of one float, the percentiles are the float itself. *)
Definition central_rows (s : shifts) : result (list nat) :=
match s with
| Series xs =>
    try* p10 := np_percentile xs 10%float in
    try* p90 := np_percentile xs 90%float in
    Ok (omap (fun p => if PrimFloat.leb p10 (snd p) && PrimFloat.leb (snd p) p90
                       then Some (fst p) else None)
             (imap (fun i x => (i, x)) xs))
| Scalar x => Ok (if PrimFloat.eqb x x then [0%nat] else [])
end.

(** [rLoess(FloatVector(x), FloatVector(y))] *)
Definition rLoess (x y : shifts) : result r_model :=
try* xv := FloatVector x in
try* yv := FloatVector y in
loess_as xv yv.

(** [np.sqrt(np.maximum(0, rPredict(model, FloatVector(at))))], a new
    array. *)
Definition sd_from_model (m : r_model) (at_ : list float) : M sd_arg :=
let* l := np_new (map (fun x => sqrt (F.maximum 0 (r_predict m x))) at_) in
ret (SdArray l).

(** The RT-SD refit, the same statements in both branches: shifts of the
    matched pairs, their central 80 %, a model of the squared shifts. *)
Definition refit_rtSd (ref : list Feature) (refRt compRt : list float)
: M sd_arg :=
let* rtShifts := rt_shifts refRt compRt in
let* ind := lift (central_rows rtShifts) in
let* modRtSd :=
  lift (try* x := take_at (Series compRt) ind in
        try* y := take_at rtShifts ind in
        rLoess x (squared y)) in
sd_from_model modRtSd (map RT ref).

(** The m/z-SD refit: no trimming. *)
Definition refit_mzSd (ref : list Feature) (refMz compMz : list float)
: M sd_arg :=
let* mzShifts := mz_shifts refMz compMz in
let* modMzSd := lift (rLoess (Series compMz) (squared mzShifts)) in
sd_from_model modMzSd (map mz ref).

Definition localCalibration (ref comp : list Feature) (rtSd mzSd : sd_arg)
  (params : gmap string string) (type : string)
: M (list Feature * list Feature * sd_arg * sd_arg) :=
let* _ := note_pass type in
let* subDf := findMatchedSubset py_float ref comp rtSd mzSd params in
(* subDf["refRt"]: a table built from no row has no column *)
let* _ := lift (match subDf with [] => Raise KeyError | _ => Ok tt end) in
let refRt := map refRt subDf in
let compRt := map compRt subDf in
let refMz := map refMz subDf in
let compMz := map compMz subDf in
if String.eqb type "RT" then
  let* rtShifts := rt_shifts refRt compRt in
  let* fit := lift (rLoess (Series compRt) rtShifts) in
  let* compRt := lift (np_zip PrimFloat.sub compRt (r_fitted fit)) in
  let* rtSd := refit_rtSd ref refRt compRt in
  let* mzSd := refit_mzSd ref refMz compMz in
  let comp := map (fun c => set_RT (RT c - r_predict fit (RT c))%float c) comp in
  ret (ref, comp, rtSd, mzSd)
else if String.eqb type "mz" then
  let* mzShifts := mz_shifts refMz compMz in
  let* fit := lift (rLoess (Series compMz) mzShifts) in
  let* compMz :=
    lift (np_zip (fun c f => (c * (1 + f / million))%float)
                 compMz (r_fitted fit)) in
  let* mzSd := refit_mzSd ref refMz compMz in
  let* rtSd := refit_rtSd ref refRt compRt in
  let comp :=
    map (fun c => set_mz (mz c / (1 + r_predict fit (mz c) / million))%float c)
        comp in
  ret (ref, comp, rtSd, mzSd)
else ret (ref, comp, rtSd, mzSd).

(** *** calibrateFeatures *)

(** [print(fmt % args)] *)
Definition printf (fmt : string) (args : list pyarg) : M unit :=
let* line := lift (py_format fmt args) in
print line.

(** [np.amin(sd)] and [np.amax(sd)] on what an SD variable holds. *)
Definition sd_amin (sd : sd_arg) : M float :=
match sd with
| SdScalar x => ret x
| SdArray l => let* xs := np_read l in lift (np_amin xs)
| SdList xs => lift (np_amin xs)
end.

Definition sd_amax (sd : sd_arg) : M float :=
match sd with
| SdScalar x => ret x
| SdArray l => let* xs := np_read l in lift (np_amax xs)
| SdList xs => lift (np_amax xs)
end.

(** The three lines printed after a pass: which round is done, and the least
    and greatest entry of the SD array of the axis. *)
Definition report_round (done_line min_fmt max_fmt : string) (sd : sd_arg)
: M unit :=
let* _ := print done_line in
let* lo := sd_amin sd in
let* _ := printf min_fmt [AFloat lo] in
let* hi := sd_amax sd in
printf max_fmt [AFloat hi].

(** [params] is the dictionary of the module, which the body reads; the
    argument [parameters] is not used. *)
Definition calibrateFeatures (params : gmap string string)
  (ref comp : list Feature) (parameters : gmap string string)
: M (list Feature * sd_arg * sd_arg) :=
let* initMzTol := lift (try* s := param params "tol_initial" in py_int s) in
let* sdWidth := lift (try* s := param params "sd_width" in py_int s) in
let ref := sort_values_intensity ref in
let comp := sort_values_intensity comp in
let* _ := print "  Global calibration of features is being performed" in
let* shifts := lift (globalCalibration np_percentile ref comp initMzTol) in
let rtShifts := fst shifts in
let mzShifts := snd shifts in
let* _ := printf "    Based on the matched features within %d ppm"
                 [AInt initMzTol] in
let* _ := printf "    The global RT-shift is %.4f second"
                 [AFloat (np_median rtShifts)] in
let* _ := printf "    The global m/z-shift is %.4f ppm"
                 [AFloat (np_median mzShifts)] in
let* _ := print "    RT and m/z of the compared features are calibrated according to the above information" in
let comp := map (fun c => set_RT (RT c - np_median rtShifts)%float c) comp in
let comp :=
  map (fun c => set_mz (mz c / (1 + np_median mzShifts / million))%float c)
      comp in
let* _ := print "  Local calibration of features is being performed (through LOESS modeling)" in
let* _ := print "    RT- and m/z-tolerances will be dynamically estimated over RT- and m/z-range as follows," in
let* _ := printf "    RT- and m/z-tolerance = %d x dynamically estimated SD of RT- and m/z-shifts"
                 [AInt sdWidth] in
let* _ := print "    LOESS modeling may take some time. Please be patient ..." in
let rtSd := SdScalar (F.maximum one_thousandth (np_std1 rtShifts)) in
let mzSd := SdScalar (F.maximum one_thousandth (np_std1 mzShifts)) in
let* '(ref, comp, rtSd, mzSd) :=
  localCalibration ref comp rtSd mzSd params "RT" in
let* _ := report_round "    The 1st round of RT-calibration is done"
            "      min SD of RT-shifts = %.4f second"
            "      max SD of RT-shifts = %.4f second" rtSd in
let* '(ref, comp, rtSd, mzSd) :=
  localCalibration ref comp rtSd mzSd params "RT" in
let* _ := report_round "    The 2nd round of RT-calibration is done"
            "      min SD of RT-shifts = %.4f second"
            "      max SD of RT-shifts = %.4f second" rtSd in
let* '(ref, comp, rtSd, mzSd) :=
  localCalibration ref comp rtSd mzSd params "mz" in
let* _ := report_round "    The 1st round of m/z-calibration is done"
            "      min SD of m/z-shifts = %.4f ppm"
            "      max SD of m/z-shifts = %.4f ppm" mzSd in
let* '(ref, comp, rtSd, mzSd) :=
  localCalibration ref comp rtSd mzSd params "mz" in
let* _ := report_round "    The 2nd round of m/z-calibration is done"
            "      min SD of m/z-shifts = %.4f ppm"
            "      max SD of m/z-shifts = %.4f ppm" mzSd in
let* _ := print "" in
ret (comp, rtSd, mzSd).

(** *** The history of passes *)

(** [appends l c]: a run of [c] adds to the history a prefix of [l], and
    all of [l] when it returns. *)
Definition appends {A} (l : list string) (c : M A) : Prop :=
forall w r w', c w = (r, w') ->
  exists l', lc_passes w' = lc_passes w ++ l' /\ l' `prefix_of` l /\
             (forall a, r = Ok a -> l' = l).

Lemma appends_bind {A B} l1 l2 (c : M A) (k : A -> M B) :
  appends l1 c -> (forall a, appends l2 (k a)) -> appends (l1 ++ l2) (bind c k).
Proof.
  intros Hc Hk w r w'. unfold bind.
  destruct (c w) as [[a|e] w1] eqn:Hcw.
  - intros Hkw. destruct (Hc _ _ _ Hcw) as (l1' & Hl1 & _ & Hok1).
    rewrite (Hok1 a eq_refl) in Hl1.
    destruct (Hk a _ _ _ Hkw) as (l2' & Hl2 & Hp2 & Hok2).
    exists (l1 ++ l2'). split; [by rewrite Hl2, Hl1, app_assoc|].
    split; [by apply prefix_app|]. intros b Hb. by rewrite (Hok2 b Hb).
  - intros [= <- <-]. destruct (Hc _ _ _ Hcw) as (l1' & Hl1 & Hp1 & _).
    exists l1'. split; [done|]. split; [by apply prefix_app_r|done].
Qed.

Lemma appends_bind_kept {A B} l (c : M A) (k : A -> M B) :
  appends [] c -> (forall a, appends l (k a)) -> appends l (bind c k).
Proof. apply (appends_bind [] l). Qed.

Lemma appends_bind_pass {A B} ty l (c : M A) (k : A -> M B) :
  appends [ty] c -> (forall a, appends l (k a)) -> appends (ty :: l) (bind c k).
Proof. apply (appends_bind [ty] l). Qed.

Lemma appends_same {A} (c : M A) :
  (forall w, lc_passes (c w).2 = lc_passes w) -> appends [] c.
Proof.
  intros H w r w' Hc. exists []. specialize (H w). rewrite Hc in H. cbn in H.
  by rewrite app_nil_r.
Qed.

Lemma appends_ret {A} (a : A) : appends [] (ret a).
Proof. by apply appends_same. Qed.

Lemma appends_raise {A} e : appends [] (@raise A e).
Proof. by apply appends_same. Qed.

Lemma appends_lift {A} (r : result A) : appends [] (lift r).
Proof. by apply appends_same. Qed.

Lemma appends_print s : appends [] (print s).
Proof. by apply appends_same. Qed.

Lemma appends_np_new xs : appends [] (np_new xs).
Proof. by apply appends_same. Qed.

Lemma appends_np_read l : appends [] (np_read l).
Proof. apply appends_same. intros w. unfold np_read. by destruct (arrays w !! l). Qed.

Lemma appends_np_write l xs : appends [] (np_write l xs).
Proof. by apply appends_same. Qed.

Lemma appends_np_random_normal x : appends [] (np_random_normal x).
Proof. by apply appends_same. Qed.

Lemma appends_note_pass ty : appends [ty] (note_pass ty).
Proof.
  intros w r w' [= <- <-]. exists [ty]. done.
Qed.

Create HintDb passes discriminated.

#[local] Hint Resolve appends_ret appends_raise appends_lift appends_print
  appends_np_new appends_np_read appends_np_write appends_np_random_normal
  : passes.

(** Steps through a computation that leaves the history alone. *)
Ltac kept :=
  repeat first
    [ apply appends_bind_kept; [|intros]
    | solve [auto with passes]
    | match goal with
      | |- appends _ (match ?x with _ => _ end) => destruct x
      | |- appends _ (if ?b then _ else _) => destruct b
      end ].

Lemma appends_floor_in_place l : appends [] (floor_in_place l).
Proof. unfold floor_in_place. kept. Qed.

Lemma appends_sd_repeat sd n : appends [] (sd_repeat sd n).
Proof. unfold sd_repeat. kept. Qed.

Lemma appends_sd_floor sd : appends [] (sd_floor sd).
Proof. unfold sd_floor. destruct sd; auto using appends_floor_in_place with passes. Qed.

Lemma appends_sd_times sd x : appends [] (sd_times sd x).
Proof. unfold sd_times. kept. Qed.

#[local] Hint Resolve appends_sd_repeat appends_sd_floor appends_sd_times
  : passes.

Lemma appends_tolerances n rtSd mzSd params :
  appends [] (tolerances py_float n rtSd mzSd params).
Proof. unfold tolerances. kept. Qed.

#[local] Hint Resolve appends_tolerances : passes.

Lemma appends_findMatchedSubset ref comp rtSd mzSd params :
  appends [] (findMatchedSubset py_float ref comp rtSd mzSd params).
Proof. unfold findMatchedSubset. kept. Qed.

Lemma appends_rt_shifts a b : appends [] (rt_shifts a b).
Proof. unfold rt_shifts. kept. Qed.

Lemma appends_mz_shifts a b : appends [] (mz_shifts a b).
Proof. unfold mz_shifts. kept. Qed.

Lemma appends_sd_from_model m xs : appends [] (sd_from_model m xs).
Proof. unfold sd_from_model. kept. Qed.

#[local] Hint Resolve appends_findMatchedSubset appends_rt_shifts
  appends_mz_shifts appends_sd_from_model : passes.

Lemma appends_refit_rtSd ref a b : appends [] (refit_rtSd ref a b).
Proof. unfold refit_rtSd. kept. Qed.

Lemma appends_refit_mzSd ref a b : appends [] (refit_mzSd ref a b).
Proof. unfold refit_mzSd. kept. Qed.

Lemma appends_printf fmt args : appends [] (printf fmt args).
Proof. unfold printf. kept. Qed.

Lemma appends_sd_amin sd : appends [] (sd_amin sd).
Proof. unfold sd_amin. kept. Qed.

Lemma appends_sd_amax sd : appends [] (sd_amax sd).
Proof. unfold sd_amax. kept. Qed.

#[local] Hint Resolve appends_refit_rtSd appends_refit_mzSd appends_printf
  appends_sd_amin appends_sd_amax : passes.

Lemma appends_report_round a b c sd : appends [] (report_round a b c sd).
Proof. unfold report_round. kept. Qed.

#[local] Hint Resolve appends_report_round : passes.

(** One call of localCalibration is one pass, on the axis it is given. *)
Lemma appends_localCalibration ref comp rtSd mzSd params ty :
  appends [ty] (localCalibration ref comp rtSd mzSd params ty).
Proof.
  unfold localCalibration. apply appends_bind_pass; [apply appends_note_pass|].
  intros _. kept.
Qed.

Lemma appends_calibrateFeatures params ref comp parameters :
  appends ["RT"; "RT"; "mz"; "mz"]
          (calibrateFeatures params ref comp parameters).
Proof.
  unfold calibrateFeatures.
  repeat first
    [ apply appends_bind_pass; [apply appends_localCalibration|intros [[[? ?] ?] ?]]
    | apply appends_bind_kept; [solve [auto with passes]|intros]
    | solve [auto with passes] ].
Qed.

(** *** The arrays a pass returns *)

Definition sd_values (m : r_model) (at_ : list float) : list float :=
map (fun x => sqrt (F.maximum 0 (r_predict m x))) at_.

Lemma np_random_normal_arrays x w r w1 :
  np_random_normal x w = (r, w1) -> arrays w1 = arrays w.
Proof. by intros [= _ <-]. Qed.

Lemma rt_shifts_arrays a b w r w1 :
  rt_shifts a b w = (r, w1) -> arrays w1 = arrays w.
Proof.
  unfold rt_shifts. destruct (all_equal a b); [|by intros [= _ <-]].
  unfold bind, np_random_normal, ret. by intros [= _ <-].
Qed.

Lemma mz_shifts_arrays a b w r w1 :
  mz_shifts a b w = (r, w1) -> arrays w1 = arrays w.
Proof.
  unfold mz_shifts. destruct (all_equal a b); [|by intros [= _ <-]].
  unfold bind, np_random_normal, ret. by intros [= _ <-].
Qed.

Lemma sd_from_model_Ok m xs w sd w1 :
  sd_from_model m xs w = (Ok sd, w1) ->
  exists l, sd = SdArray l /\ arrays w !! l = None /\
            arrays w1 = <[l := sd_values m xs]> (arrays w).
Proof.
  unfold sd_from_model, bind, np_new, ret. intros [= <- <-].
  eexists. split; [done|]. split; [|done].
  apply not_elem_of_dom, is_fresh.
Qed.

Lemma refit_rtSd_Ok ref a b w sd w1 :
  refit_rtSd ref a b w = (Ok sd, w1) ->
  exists l m, sd = SdArray l /\ arrays w !! l = None /\
              arrays w1 = <[l := sd_values m (map RT ref)]> (arrays w).
Proof.
  unfold refit_rtSd. intros H.
  apply bind_Ok in H as (s & w2 & Hs & H). apply rt_shifts_arrays in Hs.
  apply bind_Ok in H as (ind & w3 & Hi & H). apply lift_Ok in Hi as [_ ->].
  apply bind_Ok in H as (m & w4 & Hm & H). apply lift_Ok in Hm as [_ ->].
  apply sd_from_model_Ok in H as (l & -> & Hl & Hw).
  rewrite Hs in Hl, Hw. by exists l, m.
Qed.

Lemma refit_mzSd_Ok ref a b w sd w1 :
  refit_mzSd ref a b w = (Ok sd, w1) ->
  exists l m, sd = SdArray l /\ arrays w !! l = None /\
              arrays w1 = <[l := sd_values m (map mz ref)]> (arrays w).
Proof.
  unfold refit_mzSd. intros H.
  apply bind_Ok in H as (s & w2 & Hs & H). apply mz_shifts_arrays in Hs.
  apply bind_Ok in H as (m & w3 & Hm & H). apply lift_Ok in Hm as [_ ->].
  apply sd_from_model_Ok in H as (l & -> & Hl & Hw).
  rewrite Hs in Hl, Hw. by exists l, m.
Qed.

(** Arrays are never deleted. *)
Lemma tolerances_dom n rtSd mzSd params w t w1 l :
  tolerances py_float n rtSd mzSd params w = (Ok t, w1) ->
  arrays w1 !! l = None -> arrays w !! l = None.
Proof.
  intros H Hnone. destruct (arrays w !! l) as [sd|] eqn:Hl; [|done].
  destruct (tolerances_arrays _ _ _ _ _ _ _ _ _ _ H Hl) as [Hfl Hfr].
  assert (Hdec : forall sd0 : sd_arg, sd0 = SdArray l \/ sd0 <> SdArray l).
  { intros [x|l0|xs]; [by right| |by right].
    destruct (decide (l0 = l)) as [->|?]; [by left|right; congruence]. }
  destruct (Hdec rtSd) as [H1|H1].
  { destruct (Hfl (or_introl H1)) as (sd' & _ & Hl'). congruence. }
  destruct (Hdec mzSd) as [H2|H2].
  { destruct (Hfl (or_intror H2)) as (sd' & _ & Hl'). congruence. }
  specialize (Hfr H1 H2). congruence.
Qed.

Lemma findMatchedSubset_dom ref comp rtSd mzSd params w sub w1 l :
  findMatchedSubset py_float ref comp rtSd mzSd params w = (Ok sub, w1) ->
  arrays w1 !! l = None -> arrays w !! l = None.
Proof.
  unfold findMatchedSubset. intros H.
  apply bind_Ok in H as ([rtTol mzTol] & w2 & Ht & H).
  apply lift_Ok in H as [_ ->]. by eapply tolerances_dom.
Qed.

(** A pass that returns hands back two array objects that did not exist
    before it: the RT-SD and the m/z-SD predicted, at the RT and at the m/z
    of every reference feature, by variance models fitted in this pass. *)
Definition refreshed (ref : list Feature) (w : world) (rtSd' mzSd' : sd_arg)
  (w' : world) : Prop :=
exists l1 l2 mR mM,
  rtSd' = SdArray l1 /\ mzSd' = SdArray l2 /\ l1 <> l2 /\
  arrays w !! l1 = None /\ arrays w !! l2 = None /\
  arrays w' !! l1 = Some (sd_values mR (map RT ref)) /\
  arrays w' !! l2 = Some (sd_values mM (map mz ref)).

Lemma localCalibration_refreshed ref comp rtSd mzSd params ty w
    ref' comp' rtSd' mzSd' w' :
  ty = "RT" \/ ty = "mz" ->
  localCalibration ref comp rtSd mzSd params ty w
  = (Ok (ref', comp', rtSd', mzSd'), w') ->
  refreshed ref w rtSd' mzSd' w'.
Proof.
  intros Hty H. unfold localCalibration in H.
  apply bind_Ok in H as (u & w1 & Hn & H).
  assert (Hw1 : arrays w1 = arrays w) by (by injection Hn as _ <-).
  apply bind_Ok in H as (subDf & w2 & Hsub & H).
  pose proof (fun l => findMatchedSubset_dom _ _ _ _ _ _ _ _ l Hsub) as Hdom.
  rewrite Hw1 in Hdom.
  apply bind_Ok in H as (u' & w3 & Hne & H). apply lift_Ok in Hne as [_ ->].
  destruct Hty as [-> | ->]; cbn [String.eqb Ascii.eqb Bool.eqb] in H.
  - apply bind_Ok in H as (s & w4 & Hs & H). apply rt_shifts_arrays in Hs.
    apply bind_Ok in H as (fit & w5 & Hf & H). apply lift_Ok in Hf as [_ ->].
    apply bind_Ok in H as (cr & w6 & Hc & H). apply lift_Ok in Hc as [_ ->].
    apply bind_Ok in H as (sd1 & w7 & H1 & H).
    apply bind_Ok in H as (sd2 & w8 & H2 & H).
    apply ret_Ok in H as [[= -> -> -> ->] ->].
    apply refit_rtSd_Ok in H1 as (l1 & mR & -> & Hl1 & Hw7).
    apply refit_mzSd_Ok in H2 as (l2 & mM & -> & Hl2 & Hw8).
    rewrite Hs in Hl1, Hw7. rewrite Hw7 in Hl2, Hw8.
    assert (l1 <> l2) by (intros ->; by rewrite lookup_insert_eq in Hl2).
    rewrite lookup_insert_ne in Hl2 by done.
    exists l1, l2, mR, mM. rewrite Hw8.
    rewrite (lookup_insert_ne _ l2 l1), !lookup_insert_eq by done. auto 10.
  - apply bind_Ok in H as (s & w4 & Hs & H). apply mz_shifts_arrays in Hs.
    apply bind_Ok in H as (fit & w5 & Hf & H). apply lift_Ok in Hf as [_ ->].
    apply bind_Ok in H as (cm & w6 & Hc & H). apply lift_Ok in Hc as [_ ->].
    apply bind_Ok in H as (sd2 & w7 & H2 & H).
    apply bind_Ok in H as (sd1 & w8 & H1 & H).
    apply ret_Ok in H as [[= -> -> -> ->] ->].
    apply refit_mzSd_Ok in H2 as (l2 & mM & -> & Hl2 & Hw7).
    apply refit_rtSd_Ok in H1 as (l1 & mR & -> & Hl1 & Hw8).
    rewrite Hs in Hl2, Hw7. rewrite Hw7 in Hl1, Hw8.
    assert (l1 <> l2) by (intros ->; by rewrite lookup_insert_eq in Hl1).
    rewrite lookup_insert_ne in Hl1 by done.
    exists l1, l2, mR, mM. rewrite Hw8.
    rewrite (lookup_insert_ne _ l1 l2), !lookup_insert_eq by done. auto 10.
Qed.

(** *** What a pass fits *)

(** The shifts of the matched pairs between the two runs: RT in seconds,
    m/z in ppm. *)
Definition rt_residuals (refRt compRt : list float) : list float :=
zip_with (fun c r => (c - r)%float) compRt refRt.

Definition mz_residuals (refMz compMz : list float) : list float :=
zip_with (fun c r => ((c - r) / r * million)%float) compMz refMz.

(** [m] is the model of the variance of the RT shifts: [loess.as] on the
    squared shifts of the matched pairs within the 10th and the 90th
    percentile, over their RT in the comparison run. *)
Definition rt_variance_model (refRt compRt : list float) (m : r_model)
: Prop :=
all_equal refRt compRt = false /\
exists ind,
  central_rows (Series (rt_residuals refRt compRt)) = Ok ind /\
  loess_as (omap (fun i => compRt !! i) ind)
           (map (fun x => (x * x)%float)
                (omap (fun i => rt_residuals refRt compRt !! i) ind))
  = Ok m.

(** The same for m/z, on all matched pairs. *)
Definition mz_variance_model (refMz compMz : list float) (m : r_model)
: Prop :=
all_equal refMz compMz = false /\
loess_as compMz (map (fun x => (x * x)%float) (mz_residuals refMz compMz))
= Ok m.

(** The RT and the m/z of the matched pairs in the comparison run once the
    pass has calibrated them on its axis: the fitted values of the
    regression of the shifts are taken off. *)
Definition calibrated_pairs (ty : string) (subDf : list SubRow)
  (compRt' compMz' : list float) : Prop :=
(ty = "RT" /\ compMz' = map compMz subDf /\
 all_equal (map refRt subDf) (map compRt subDf) = false /\
 exists fit,
   loess_as (map compRt subDf)
            (rt_residuals (map refRt subDf) (map compRt subDf)) = Ok fit /\
   compRt' = zip_with PrimFloat.sub (map compRt subDf) (r_fitted fit)) \/
(ty = "mz" /\ compRt' = map compRt subDf /\
 all_equal (map refMz subDf) (map compMz subDf) = false /\
 exists fit,
   loess_as (map compMz subDf)
            (mz_residuals (map refMz subDf) (map compMz subDf)) = Ok fit /\
   compMz' = zip_with (fun c f => (c * (1 + f / million))%float)
                      (map compMz subDf) (r_fitted fit)).

(** What a pass that returns has done about the SDs.  It has found the
    matched pairs [subDf], calibrated them on its axis, fitted a model of
    the variance of the RT shifts and one of the variance of the m/z
    shifts on them, and made two array objects that did not exist before:
    the RT-SD and the m/z-SD that these models predict at the RT and at
    the m/z of every reference feature.  It has changed no other array
    after the matching. *)
Definition refitted (ref comp : list Feature) (rtSd mzSd : sd_arg)
  (params : gmap string string) (ty : string) (w : world)
  (rtSd' mzSd' : sd_arg) (w' : world) : Prop :=
exists subDf w1 compRt' compMz' mR mM l1 l2,
  findMatchedSubset py_float ref comp rtSd mzSd params
    (set_lc_passes (lc_passes w ++ [ty]) w) = (Ok subDf, w1) /\
  calibrated_pairs ty subDf compRt' compMz' /\
  rt_variance_model (map refRt subDf) compRt' mR /\
  mz_variance_model (map refMz subDf) compMz' mM /\
  rtSd' = SdArray l1 /\ mzSd' = SdArray l2 /\ l1 <> l2 /\
  arrays w !! l1 = None /\ arrays w !! l2 = None /\
  arrays w1 !! l1 = None /\ arrays w1 !! l2 = None /\
  arrays w'
  = <[l1 := sd_values mR (map RT ref)]>
      (<[l2 := sd_values mM (map mz ref)]> (arrays w1)).

Lemma rt_shifts_Ok a b w s w' :
  rt_shifts a b w = (Ok s, w') ->
  (all_equal a b = true /\ exists x, s = Scalar x) \/
  (all_equal a b = false /\ s = Series (rt_residuals a b) /\ w' = w).
Proof.
  unfold rt_shifts. destruct (all_equal a b).
  - intros H. apply bind_Ok in H as (g & w1 & _ & H).
    apply ret_Ok in H as [-> _]. left. eauto.
  - intros H. apply ret_Ok in H as [-> ->]. by right.
Qed.

Lemma mz_shifts_Ok a b w s w' :
  mz_shifts a b w = (Ok s, w') ->
  (all_equal a b = true /\ exists x, s = Scalar x) \/
  (all_equal a b = false /\ s = Series (mz_residuals a b) /\ w' = w).
Proof.
  unfold mz_shifts. destruct (all_equal a b).
  - intros H. apply bind_Ok in H as (g & w1 & _ & H).
    apply ret_Ok in H as [-> _]. left. eauto.
  - intros H. apply ret_Ok in H as [-> ->]. by right.
Qed.

Lemma refit_rtSd_model ref a b w sd w1 :
  refit_rtSd ref a b w = (Ok sd, w1) ->
  exists l m, sd = SdArray l /\ arrays w !! l = None /\
              arrays w1 = <[l := sd_values m (map RT ref)]> (arrays w) /\
              rt_variance_model a b m.
Proof.
  unfold refit_rtSd. intros H.
  apply bind_Ok in H as (s & w2 & Hs & H).
  apply bind_Ok in H as (ind & w3 & Hi & H). apply lift_Ok in Hi as [Hi ->].
  apply bind_Ok in H as (m & w4 & Hm & H). apply lift_Ok in Hm as [Hm ->].
  apply rt_shifts_Ok in Hs as [[_ [x ->]]|(Heq & -> & ->)]; [done|].
  apply sd_from_model_Ok in H as (l & -> & Hl & Hw).
  exists l, m. repeat split; try done. by exists ind.
Qed.

Lemma refit_mzSd_model ref a b w sd w1 :
  refit_mzSd ref a b w = (Ok sd, w1) ->
  exists l m, sd = SdArray l /\ arrays w !! l = None /\
              arrays w1 = <[l := sd_values m (map mz ref)]> (arrays w) /\
              mz_variance_model a b m.
Proof.
  unfold refit_mzSd. intros H.
  apply bind_Ok in H as (s & w2 & Hs & H).
  apply bind_Ok in H as (m & w3 & Hm & H). apply lift_Ok in Hm as [Hm ->].
  apply mz_shifts_Ok in Hs as [[_ [x ->]]|(Heq & -> & ->)]; [done|].
  apply sd_from_model_Ok in H as (l & -> & Hl & Hw).
  by exists l, m.
Qed.

Lemma np_zip_Ok f a b c : np_zip f a b = Ok c -> c = zip_with f a b.
Proof. unfold np_zip. destruct (Nat.eqb _ _); by intros [= <-]. Qed.

Lemma localCalibration_refitted ref comp rtSd mzSd params ty w
    ref' comp' rtSd' mzSd' w' :
  ty = "RT" \/ ty = "mz" ->
  localCalibration ref comp rtSd mzSd params ty w
  = (Ok (ref', comp', rtSd', mzSd'), w') ->
  ref' = ref /\ refitted ref comp rtSd mzSd params ty w rtSd' mzSd' w'.
Proof.
  intros Hty H. unfold localCalibration in H.
  apply bind_Ok in H as (u & w1 & Hn & H).
  assert (w1 = set_lc_passes (lc_passes w ++ [ty]) w) as ->
    by (by injection Hn as _ <-).
  apply bind_Ok in H as (subDf & w2 & Hsub & H).
  pose proof (fun l => findMatchedSubset_dom _ _ _ _ _ _ _ _ l Hsub) as Hdom.
  cbn [arrays set_lc_passes] in Hdom.
  apply bind_Ok in H as (u' & w3 & Hne & H). apply lift_Ok in Hne as [_ ->].
  destruct Hty as [-> | ->]; cbn [String.eqb Ascii.eqb Bool.eqb] in H.
  - apply bind_Ok in H as (s & w4 & Hs & H).
    apply bind_Ok in H as (fit & w5 & Hf & H). apply lift_Ok in Hf as [Hf ->].
    apply rt_shifts_Ok in Hs as [[_ [x ->]]|(Heq & -> & ->)]; [done|].
    apply bind_Ok in H as (cr & w6 & Hc & H). apply lift_Ok in Hc as [Hc ->].
    apply np_zip_Ok in Hc as ->.
    apply bind_Ok in H as (sd1 & w7 & H1 & H).
    apply bind_Ok in H as (sd2 & w8 & H2 & H).
    apply ret_Ok in H as [[= -> -> -> ->] ->].
    apply refit_rtSd_model in H1 as (l1 & mR & -> & Hl1 & Hw7 & HmR).
    apply refit_mzSd_model in H2 as (l2 & mM & -> & Hl2 & Hw8 & HmM).
    rewrite Hw7 in Hl2, Hw8.
    assert (l1 <> l2) by (intros ->; by rewrite lookup_insert_eq in Hl2).
    rewrite lookup_insert_ne in Hl2 by done.
    split; [done|].
    exists subDf, w2, (zip_with PrimFloat.sub (map compRt subDf) (r_fitted fit)),
      (map compMz subDf), mR, mM, l1, l2.
    split; [done|]. split.
    { left. split; [done|]. split; [done|]. split; [done|]. by exists fit. }
    rewrite Hw8, insert_insert_ne by done. auto 12.
  - apply bind_Ok in H as (s & w4 & Hs & H).
    apply bind_Ok in H as (fit & w5 & Hf & H). apply lift_Ok in Hf as [Hf ->].
    apply mz_shifts_Ok in Hs as [[_ [x ->]]|(Heq & -> & ->)]; [done|].
    apply bind_Ok in H as (cm & w6 & Hc & H). apply lift_Ok in Hc as [Hc ->].
    apply np_zip_Ok in Hc as ->.
    apply bind_Ok in H as (sd2 & w7 & H2 & H).
    apply bind_Ok in H as (sd1 & w8 & H1 & H).
    apply ret_Ok in H as [[= -> -> -> ->] ->].
    apply refit_mzSd_model in H2 as (l2 & mM & -> & Hl2 & Hw7 & HmM).
    apply refit_rtSd_model in H1 as (l1 & mR & -> & Hl1 & Hw8 & HmR).
    rewrite Hw7 in Hl1, Hw8.
    assert (l1 <> l2) by (intros ->; by rewrite lookup_insert_eq in Hl1).
    rewrite lookup_insert_ne in Hl1 by done.
    split; [done|].
    exists subDf, w2, (map compRt subDf),
      (zip_with (fun c f => (c * (1 + f / million))%float)
                (map compMz subDf) (r_fitted fit)), mR, mM, l1, l2.
    split; [done|]. split.
    { right. split; [done|]. split; [done|]. split; [done|]. by exists fit. }
    rewrite Hw8. auto 12.
Qed.

(** *** The four passes *)

(** [printed w w']: from [w] to [w'] lines were printed and nothing else
    was done. *)
Definition printed (w w' : world) : Prop :=
exists lines, w' = set_stdout (stdout w ++ lines) w.

Lemma printed_refl w : printed w w.
Proof. exists []. rewrite app_nil_r. by destruct w. Qed.

Lemma printed_trans w1 w2 w3 : printed w1 w2 -> printed w2 w3 -> printed w1 w3.
Proof.
  intros [l1 ->] [l2 ->]. exists (l1 ++ l2). cbn. by rewrite app_assoc.
Qed.

Definition prints_only {A} (c : M A) : Prop :=
forall w r w', c w = (r, w') -> printed w w'.

Lemma prints_only_bind {A B} (c : M A) (k : A -> M B) :
  prints_only c -> (forall a, prints_only (k a)) -> prints_only (bind c k).
Proof.
  intros Hc Hk w r w'. unfold bind.
  destruct (c w) as [[a|e] w1] eqn:Hcw.
  - intros Hkw. eapply printed_trans; [by eapply Hc|by eapply Hk].
  - intros [= <- <-]. by eapply Hc.
Qed.

Lemma prints_only_lift {A} (r : result A) : prints_only (lift r).
Proof. intros w r' w' [= _ <-]. apply printed_refl. Qed.

Lemma prints_only_print line : prints_only (print line).
Proof. intros w r w' [= _ <-]. by exists [line]. Qed.

Lemma prints_only_printf fmt args : prints_only (printf fmt args).
Proof.
  unfold printf. apply prints_only_bind; [apply prints_only_lift|].
  intros line. apply prints_only_print.
Qed.

Lemma prints_only_np_read l : prints_only (np_read l).
Proof.
  intros w r w'. unfold np_read.
  destruct (arrays w !! l); intros [= _ <-]; apply printed_refl.
Qed.

Lemma prints_only_sd_amin sd : prints_only (sd_amin sd).
Proof.
  destruct sd; cbn.
  - intros w r w' [= _ <-]. apply printed_refl.
  - apply prints_only_bind; [apply prints_only_np_read|].
    intros xs. apply prints_only_lift.
  - apply prints_only_lift.
Qed.

Lemma prints_only_sd_amax sd : prints_only (sd_amax sd).
Proof.
  destruct sd; cbn.
  - intros w r w' [= _ <-]. apply printed_refl.
  - apply prints_only_bind; [apply prints_only_np_read|].
    intros xs. apply prints_only_lift.
  - apply prints_only_lift.
Qed.

Lemma prints_only_report_round a b c sd : prints_only (report_round a b c sd).
Proof.
  unfold report_round.
  apply prints_only_bind; [apply prints_only_print|intros].
  apply prints_only_bind; [apply prints_only_sd_amin|intros].
  apply prints_only_bind; [apply prints_only_printf|intros].
  apply prints_only_bind; [apply prints_only_sd_amax|intros].
  apply prints_only_printf.
Qed.

(** One step of a run that returns, through a statement that only
    prints. *)
Lemma bind_printed {A B} (c : M A) (k : A -> M B) w0 w b w' :
  prints_only c -> printed w0 w ->
  bind c k w = (Ok b, w') ->
  exists a w1, printed w0 w1 /\ k a w1 = (Ok b, w').
Proof.
  intros Hc Hp H. apply bind_Ok in H as (a & w1 & Hcw & H).
  exists a, w1. split; [|done]. eapply printed_trans; [exact Hp|by eapply Hc].
Qed.

(** The comparison table after the global calibration: the median shifts
    taken off every row. *)
Definition globally_calibrated (shifts : list float * list float)
  (comp : list Feature) : list Feature :=
map (fun c => set_mz (mz c / (1 + np_median shifts.2 / million))%float c)
    (map (fun c => set_RT (RT c - np_median shifts.1)%float c) comp).

(** A run of calibrateFeatures as four passes of localCalibration, one
    after the other: on the axes RT, RT, mz and mz, the first on the
    reference table [ref0] and the comparison table [comp0] in descending
    order of intensity, the latter globally calibrated, and on the two
    scalar SDs of the global shifts, each of the others on the tables and
    the SDs that the pass before it returned; between the passes lines are
    printed and nothing else is done, and what the last pass returns is
    what the run returns. *)
Definition four_passes (params : gmap string string) (ref comp : list Feature)
  (w : world) (comp' : list Feature) (rtSd' mzSd' : sd_arg) (w' : world)
: Prop :=
exists ref0 comp0 initMzTol shifts c1 rt1 mz1 c2 rt2 mz2 c3 rt3 mz3
       w0 w1 w1' w2 w2' w3 w3' w4,
  ref0 ≡ₚ ref /\ descending ref0 /\ comp0 ≡ₚ comp /\ descending comp0 /\
  (try* s := param params "tol_initial" in py_int s) = Ok initMzTol /\
  globalCalibration np_percentile ref0 comp0 initMzTol = Ok shifts /\
  printed w w0 /\
  localCalibration ref0 (globally_calibrated shifts comp0)
    (SdScalar (F.maximum one_thousandth (np_std1 shifts.1)))
    (SdScalar (F.maximum one_thousandth (np_std1 shifts.2)))
    params "RT" w0
  = (Ok (ref0, c1, rt1, mz1), w1) /\
  printed w1 w1' /\
  localCalibration ref0 c1 rt1 mz1 params "RT" w1'
  = (Ok (ref0, c2, rt2, mz2), w2) /\
  printed w2 w2' /\
  localCalibration ref0 c2 rt2 mz2 params "mz" w2'
  = (Ok (ref0, c3, rt3, mz3), w3) /\
  printed w3 w3' /\
  localCalibration ref0 c3 rt3 mz3 params "mz" w3'
  = (Ok (ref0, comp', rtSd', mzSd'), w4) /\
  printed w4 w'.

Lemma calibrateFeatures_four_passes params ref comp parameters w
    comp' rtSd' mzSd' w' :
  calibrateFeatures params ref comp parameters w
  = (Ok (comp', rtSd', mzSd'), w') ->
  four_passes params ref comp w comp' rtSd' mzSd' w'.
Proof.
  intros H. unfold calibrateFeatures in H. cbv zeta in H.
  apply bind_Ok in H as (initMzTol & wa & Hinit & H).
  apply lift_Ok in Hinit as [Hinit ->].
  pose proof (printed_refl w) as Hp.
  eapply bind_printed in H as (sdWidth & wb & Hp1 & H);
    [|apply prints_only_lift|exact Hp]. clear Hp.
  eapply bind_printed in H as (u1 & wc & Hp & H);
    [|apply prints_only_print|exact Hp1]. clear Hp1.
  apply bind_Ok in H as (shifts & wd & Hsh & H).
  apply lift_Ok in Hsh as [Hsh ->].
  do 3 (let Hq := fresh "Hq" in
        eapply bind_printed in H as (? & ? & Hq & H);
        [|apply prints_only_printf|exact Hp]; clear Hp; rename Hq into Hp).
  do 3 (let Hq := fresh "Hq" in
        eapply bind_printed in H as (? & ? & Hq & H);
        [|apply prints_only_print|exact Hp]; clear Hp; rename Hq into Hp).
  eapply bind_printed in H as (? & ? & Hq & H);
    [|apply prints_only_printf|exact Hp]; clear Hp.
  eapply bind_printed in H as (? & w0 & Hp0 & H);
    [|apply prints_only_print|exact Hq]; clear Hq.
  apply bind_Ok in H as ([[[ref1 c1] rt1] mz1] & w1 & Hpass1 & H).
  eapply bind_printed in H as (? & w1' & Hp1 & H);
    [|apply prints_only_report_round|apply printed_refl].
  apply bind_Ok in H as ([[[ref2 c2] rt2] mz2] & w2 & Hpass2 & H).
  eapply bind_printed in H as (? & w2' & Hp2 & H);
    [|apply prints_only_report_round|apply printed_refl].
  apply bind_Ok in H as ([[[ref3 c3] rt3] mz3] & w3 & Hpass3 & H).
  eapply bind_printed in H as (? & w3' & Hp3 & H);
    [|apply prints_only_report_round|apply printed_refl].
  apply bind_Ok in H as ([[[ref4 c4] rt4] mz4] & w4 & Hpass4 & H).
  eapply bind_printed in H as (? & w5 & Hp4 & H);
    [|apply prints_only_report_round|apply printed_refl].
  eapply bind_printed in H as (? & w6 & Hp5 & H);
    [|apply prints_only_print|exact Hp4].
  apply ret_Ok in H as [[= -> -> ->] ->].
  pose proof (localCalibration_refitted _ _ _ _ _ _ _ _ _ _ _ _
                (or_introl eq_refl) Hpass1) as [-> _].
  pose proof (localCalibration_refitted _ _ _ _ _ _ _ _ _ _ _ _
                (or_introl eq_refl) Hpass2) as [-> _].
  pose proof (localCalibration_refitted _ _ _ _ _ _ _ _ _ _ _ _
                (or_intror eq_refl) Hpass3) as [-> _].
  pose proof (localCalibration_refitted _ _ _ _ _ _ _ _ _ _ _ _
                (or_intror eq_refl) Hpass4) as [-> _].
  exists (sort_values_intensity ref), (sort_values_intensity comp),
         initMzTol, shifts, c1, rt1, mz1, c2, rt2, mz2, c3, rt3, mz3,
         w0, w1, w1', w2, w2', w3, w3', w4.
  pose proof (sort_values_intensity_perm ref).
  pose proof (sort_values_intensity_perm comp).
  pose proof (sort_values_intensity_descending ref).
  pose proof (sort_values_intensity_descending comp).
  auto 20.
Qed.

(** C6.  A run of calibrateFeatures that returns is four passes of
    localCalibration on the axes RT, RT, mz, mz in this order, each on what
    the pass before it returned, with nothing but printing between them;
    the history of the passes shows these four and no other, and for a run
    that raises the first few of them.  And a pass of localCalibration that
    returns, on either axis, returns the reference table as it was, a new
    RT-SD array and a new m/z-SD array: the SDs that a model of the
    variance of the RT shifts and a model of the variance of the m/z shifts,
    both fitted in this pass on the pairs it matched, predict for every
    reference feature. *)
Theorem calibrateFeatures_four_passes_both_sd_refreshed :
  (forall params ref comp parameters w r w',
      calibrateFeatures params ref comp parameters w = (r, w') ->
      exists done_,
        lc_passes w' = lc_passes w ++ done_ /\
        done_ `prefix_of` ["RT"; "RT"; "mz"; "mz"] /\
        (forall a, r = Ok a -> done_ = ["RT"; "RT"; "mz"; "mz"])) /\
  (forall params ref comp parameters w comp' rtSd' mzSd' w',
      calibrateFeatures params ref comp parameters w
      = (Ok (comp', rtSd', mzSd'), w') ->
      four_passes params ref comp w comp' rtSd' mzSd' w') /\
  (forall ref comp rtSd mzSd params ty w ref' comp' rtSd' mzSd' w',
      ty = "RT" \/ ty = "mz" ->
      localCalibration ref comp rtSd mzSd params ty w
      = (Ok (ref', comp', rtSd', mzSd'), w') ->
      ref' = ref /\
      refitted ref comp rtSd mzSd params ty w rtSd' mzSd' w' /\
      refreshed ref w rtSd' mzSd' w').
Proof.
  split; [|split].
  - intros params ref comp parameters. apply appends_calibrateFeatures.
  - intros. by eapply calibrateFeatures_four_passes.
  - intros ref comp rtSd mzSd params ty w ref' comp' rtSd' mzSd' w' Hty H.
    destruct (localCalibration_refitted _ _ _ _ _ _ _ _ _ _ _ _ Hty H)
      as [-> Hfit].
    split; [done|]. split; [done|]. by eapply localCalibration_refreshed.
Qed.

(** *** The degenerate guard *)

(** The guard puts one float where a vector is expected, and rpy2 refuses
    it. *)
Lemma rLoess_scalar_raises xs x : rLoess (Series xs) (Scalar x) = Raise TypeError.
Proof. reflexivity. Qed.

Lemma localCalibration_rt_guard_raises ref comp rtSd mzSd params w subDf w1 :
  findMatchedSubset py_float ref comp rtSd mzSd params
    (set_lc_passes (lc_passes w ++ ["RT"]) w) = (Ok subDf, w1) ->
  subDf <> [] ->
  all_equal (map refRt subDf) (map compRt subDf) = true ->
  localCalibration ref comp rtSd mzSd params "RT" w
  = (Raise TypeError, set_rng_drawn (S (rng_drawn w1)) w1).
Proof.
  intros Hsub Hne Heq. unfold localCalibration, bind at 1, note_pass.
  unfold bind at 1. rewrite Hsub.
  destruct subDf as [|row subDf]; [done|].
  unfold bind at 1, lift at 1. cbn [String.eqb Ascii.eqb Bool.eqb].
  unfold bind at 1, rt_shifts. rewrite Heq.
  unfold bind at 1, np_random_normal, ret. reflexivity.
Qed.

Lemma localCalibration_mz_guard_raises ref comp rtSd mzSd params w subDf w1 :
  findMatchedSubset py_float ref comp rtSd mzSd params
    (set_lc_passes (lc_passes w ++ ["mz"]) w) = (Ok subDf, w1) ->
  subDf <> [] ->
  all_equal (map refMz subDf) (map compMz subDf) = true ->
  localCalibration ref comp rtSd mzSd params "mz" w
  = (Raise TypeError, set_rng_drawn (S (rng_drawn w1)) w1).
Proof.
  intros Hsub Hne Heq. unfold localCalibration, bind at 1, note_pass.
  unfold bind at 1. rewrite Hsub.
  destruct subDf as [|row subDf]; [done|].
  unfold bind at 1, lift at 1. cbn [String.eqb Ascii.eqb Bool.eqb].
  unfold bind at 1, mz_shifts. rewrite Heq.
  unfold bind at 1, np_random_normal, ret. reflexivity.
Qed.

End Calibration.

Module GuardExample.

Import MatchExample.

(** The comparison run has the coordinates of the reference run. *)
Definition w0 : world := World ∅ [] 0 [].

Definition subDf : list SubRow :=
[ mkSubRow 100%float 60%float 1000%float 100%float 60%float 1000%float;
  mkSubRow 200%float 120%float 500%float 200%float 120%float 500%float;
  mkSubRow 300%float 180%float 100%float 300%float 180%float 100%float ].

Definition after_matching : world :=
(findMatchedSubset py_float ref ref (SdScalar 1%float) (SdScalar 1%float)
   params (set_lc_passes ["RT"] w0)).2.

Lemma matched_subset :
  findMatchedSubset py_float ref ref (SdScalar 1%float) (SdScalar 1%float)
    params (set_lc_passes (lc_passes w0 ++ ["RT"]) w0)
  = (Ok subDf, after_matching).
Proof. vm_compute. reflexivity. Qed.

End GuardExample.

(** C4 (the code departs from it).  When every matched pair has the same RT
    in both runs the guard of localCalibration fires; what it substitutes is
    one float, not a vector of jitter, and the pass raises TypeError when it
    hands the float to the regression, whatever the regression and the
    random generator are. *)
Theorem localCalibration_identical_rt_raises
  (np_percentile : list float -> float -> result float)
  (std_normal : nat -> float) (r_model : Type)
  (loess_as : list float -> list float -> result r_model)
  (r_fitted : r_model -> list float) (r_predict : r_model -> float -> float) :
  localCalibration MatchExample.py_float np_percentile std_normal r_model
    loess_as r_fitted r_predict MatchExample.ref MatchExample.ref
    (SdScalar 1%float) (SdScalar 1%float) MatchExample.params "RT"
    GuardExample.w0
  = (Raise TypeError,
     set_rng_drawn (S (rng_drawn GuardExample.after_matching))
                   GuardExample.after_matching).
Proof.
  apply localCalibration_rt_guard_raises with (subDf := GuardExample.subDf).
  - exact GuardExample.matched_subset.
  - discriminate.
  - reflexivity.
Qed.

(** *** A run of the calibration *)

Module CalibrationExample.

(** Stand-ins for the outside functions, enough to run the module: a
    parser of the two parameter values, insertion sort for the order
    statistics, the sample standard deviation by its formula, and for the
    regression the constant fit at the mean of the responses. *)
Definition py_float (s : string) : result float :=
if String.eqb s "10" then Ok 10%float else Raise ValueError.

Definition py_int (s : string) : result Z :=
if String.eqb s "10" then Ok 10
else if String.eqb s "20" then Ok 20 else Raise ValueError.

Definition py_format (fmt : string) (args : list pyarg) : result string :=
Ok fmt.

Fixpoint insert_float (x : float) (l : list float) : list float :=
match l with
| [] => [x]
| y :: l' => if PrimFloat.ltb y x then y :: insert_float x l' else x :: l
end.

Definition sorted (a : list float) : list float := foldr insert_float [] a.

(** The entry of rank [floor(q / 100 * (n - 1))]. *)
Definition np_percentile (a : list float) (q : float) : result float :=
try* qz := py_round q in
match sorted a !! Z.to_nat (qz * (Z.of_nat (length a) - 1) / 100) with
| Some x => Ok x
| None => Raise IndexError
end.

Definition np_median (a : list float) : float :=
let s := sorted a in
let n := length a in
if Nat.even n
then ((default nan (s !! (n / 2 - 1)%nat) + default nan (s !! (n / 2)%nat)) / 2)%float
else default nan (s !! (n / 2)%nat).

Definition mean (a : list float) : float :=
(fold_left PrimFloat.add a 0 / F.of_Z (Z.of_nat (length a)))%float.

Definition np_std1 (a : list float) : float :=
let m := mean a in
sqrt (fold_left (fun acc x => (acc + (x - m) * (x - m))%float) a 0%float
      / F.of_Z (Z.of_nat (length a) - 1))%float.

Definition std_normal (k : nat) : float := 0.5%float.

(** The fitted values and the prediction of the constant fit. *)
Definition r_model : Type := nat * float.

Definition loess_as (x y : list float) : result r_model :=
if Nat.eqb (length x) (length y) && Nat.leb 3 (length y)
then Ok (length x, mean y) else Raise RRuntimeError.

Definition r_fitted (m : r_model) : list float := repeat m.2 m.1.
Definition r_predict (m : r_model) (x : float) : float := m.2.

(** A hundred reference features and the same hundred in the comparison run,
    later by one or two seconds and heavier by one or two ppm in turn. *)
Definition ref_feat (k : nat) : Feature :=
let v := F.of_Z (100 + Z.of_nat k) in
let t := F.of_Z (60 * Z.of_nat k) in
mkFeature (Z.of_nat k) v (Z.of_nat (k mod 3)) 0 0 0 t t t
  (F.of_Z (10000 - 10 * Z.of_nat k)) 1%float 1%float.

Definition comp_feat (k : nat) : Feature :=
let r := ref_feat k in
let d := F.of_Z (1 + Z.of_nat (k mod 2)) in
mkFeature (Z.of_nat k) (mz r + mz r * d / million)%float (z r) 0 0 0
  (RT r + d)%float (RT r + d)%float (RT r + d)%float
  (intensity r - 1)%float 1%float 1%float.

Definition ref : list Feature := map ref_feat (seq 0 100).
Definition comp : list Feature := map comp_feat (seq 0 100).

Definition params : gmap string string :=
<["tol_initial" := "20"]> {[ "sd_width" := "10" ]}.

Definition w0 : world := World ∅ [] 0 [].

Definition run :=
calibrateFeatures py_float py_int py_format np_percentile np_median np_std1
  std_normal r_model loess_as r_fitted r_predict params ref comp params w0.

Definition returned {A} (r : result A) : bool :=
match r with Ok _ => true | Raise _ => false end.

Lemma run_returns : returned run.1 = true.
Proof. vm_compute. reflexivity. Qed.

Lemma run_passes : lc_passes run.2 = ["RT"; "RT"; "mz"; "mz"].
Proof. vm_compute. reflexivity. Qed.

(** One pass on the tables as they are, with SD 1 on both axes. *)
Definition pass :=
localCalibration py_float np_percentile std_normal r_model loess_as r_fitted
  r_predict ref comp (SdScalar 1%float) (SdScalar 1%float) params "mz" w0.

Definition pass_out : list Feature * list Feature * sd_arg * sd_arg :=
match pass.1 with
| Ok x => x
| Raise _ => ([], [], SdScalar 0%float, SdScalar 0%float)
end.

Lemma pass_returns : pass = (Ok (pass_out.1.1.1, pass_out.1.1.2, pass_out.1.2, pass_out.2), pass.2).
Proof. vm_compute. reflexivity. Qed.

Definition returned_out : list Feature * sd_arg * sd_arg :=
match run.1 with
| Ok x => x
| Raise _ => ([], SdScalar 0%float, SdScalar 0%float)
end.

Lemma run_returned :
  run = (Ok (returned_out.1.1, returned_out.1.2, returned_out.2), run.2).
Proof. vm_compute. reflexivity. Qed.

Lemma calibrateFeatures_four_passes_both_sd_refreshed_witness :
  lc_passes run.2 = ["RT"; "RT"; "mz"; "mz"] /\
  four_passes py_float py_int np_percentile np_median np_std1 std_normal
    r_model loess_as r_fitted r_predict params ref comp w0
    returned_out.1.1 returned_out.1.2 returned_out.2 run.2 /\
  refitted py_float np_percentile r_model loess_as r_fitted r_predict
    ref comp (SdScalar 1%float) (SdScalar 1%float) params "mz" w0
    pass_out.1.2 pass_out.2 pass.2.
Proof.
  pose proof (calibrateFeatures_four_passes_both_sd_refreshed py_float py_int
                py_format np_percentile np_median np_std1 std_normal r_model
                loess_as r_fitted r_predict) as (H1 & H2 & H3).
  split; [|split].
  - destruct (H1 params ref comp params w0 _ _ run_returned)
      as (done_ & Hh & _ & Hall).
    rewrite Hh. by rewrite (Hall _ eq_refl).
  - exact (H2 params ref comp params w0 _ _ _ _ run_returned).
  - exact (proj1 (proj2 (H3 ref comp (SdScalar 1%float) (SdScalar 1%float)
                           params "mz" w0 _ _ _ _ _ (or_intror eq_refl)
                           pass_returns))).
Defined.

End CalibrationExample.

(** ** The rescue stage *)

(** [a[k]] on a numpy array: an index below zero counts from the end. *)
Definition np_index {A} (a : list A) (k : Z) : result A :=
let n := Z.of_nat (length a) in
let k' := if k <? 0 then k + n else k in
if (0 <=? k') && (k' <? n) then
  match a !! Z.to_nat k' with
  | Some x => Ok x
  | None => Raise IndexError
  end
else Raise IndexError.

(** [a[idx]] with a sequence of integers. *)
Fixpoint np_take {A} (a : list A) (idx : list Z) : result (list A) :=
match idx with
| [] => Ok []
| k :: idx' =>
    try* x := np_index a k in
    try* rest := np_take a idx' in
    Ok (x :: rest)
end.

(** [np.setdiff1d(range(n), l)]: the integers below [n] that are not in
    [l], in increasing order. *)
Definition np_setdiff1d_range (n : nat) (l : list Z) : list Z :=
List.filter (fun k => negb (existsb (Z.eqb k) l)) (map Z.of_nat (seq 0 n)).

(** An elementwise operation of numpy on two one-dimensional arrays, with
    its broadcasting of an array of one entry. *)
Definition np_broadcast (f : float -> float -> float) (a b : list float)
: result (list float) :=
if Nat.eqb (length a) (length b) then Ok (zip_with f a b)
else match a, b with
     | [x], _ => Ok (map (f x) b)
     | _, [y] => Ok (map (fun x => f x y) a)
     | _, _ => Raise ValueError
     end.

Definition warning_unit : string :=
"    WARNING: check your parameters for RT-tolerance unit. It should be either 1 or 2".
Definition warning_skipped : string :=
"    Due to incorrect parameter settings, the rescue step is skipped".

(** The cutoffs of the rescue and the unaligned rows they apply to. *)
Record RescueCriteria := mkCriteria {
  uRefInd : list Z; u_rtSd : list float; u_mzSd : list float;
  uRef : list Feature; uCompInd : list Z; uComp : list Feature;
  intLevel : float; lRatio : float; uRatio : float
}.

Section Rescue.

Variable py_float : string -> result float.
Variable py_format : string -> list pyarg -> result string.
Variable np_percentile : list float -> float -> result float.
(** [np.ma.median] and [np.log2] *)
Variable np_ma_median : list float -> float.
Variable np_log2 : float -> float.

(** Steps 1 and 2 of rescueFeatures up to the unit codes. *)
Definition rescue_criteria (ref comp : list Feature) (refInd compInd : list Z)
  (rtSd mzSd : list float) : M RescueCriteria :=
let nUnaligned := Z.of_nat (length comp) - Z.of_nat (length compInd) in
let* _ := printf py_format "    There are %d unaligned features"
                 [AInt nUnaligned] in
let n := length ref in
let uRefInd := np_setdiff1d_range n refInd in
let* rtSd := lift (np_take rtSd uRefInd) in
let* mzSd := lift (np_take mzSd uRefInd) in
let* uRef := lift (np_take ref uRefInd) in
let nc := length comp in
let uCompInd := np_setdiff1d_range nc compInd in
let* uComp := lift (np_take comp uCompInd) in
let* aligned := lift (np_take (map intensity comp) compInd) in
let intLevel := np_ma_median aligned in
let ratioPct := 95 in
let* ratioAligned :=
  lift (try* r := np_take (map intensity ref) refInd in
        try* c := np_take (map intensity comp) compInd in
        np_broadcast PrimFloat.sub (map np_log2 r) (map np_log2 c)) in
let* lRatio := lift (np_percentile ratioAligned 2.5%float) in
let* uRatio := lift (np_percentile ratioAligned 97.5%float) in
let* _ := printf py_format
            "    - Intensity higher than %d (median intensity of aligned features)"
            [AFloat intLevel] in
let* _ := printf py_format
            "    - Ratio between reference and compared runs within %d %%"
            [AInt ratioPct] in
ret (mkCriteria uRefInd rtSd mzSd uRef uCompInd uComp intLevel lRatio uRatio).

(** The rows of [uComp] that pass every criterion for the unaligned
    reference row [r], by position. *)
Definition rescue_candidates (c : RescueCriteria) (r : Feature)
  (rtTol mzTol : float) : list nat :=
omap (fun p =>
        let u := snd p in
        let intRatio := (np_log2 (intensity u) - np_log2 (intensity r))%float in
        let rtShift := (RT u - RT r)%float in
        let mzShift := ((mz u - mz r) / mz r * million)%float in
        if PrimFloat.ltb (intLevel c) (intensity u)
           && PrimFloat.leb (lRatio c) intRatio
           && PrimFloat.leb intRatio (uRatio c)
           && PrimFloat.leb (abs mzShift) mzTol
           && PrimFloat.leb (abs rtShift) rtTol
        then Some (fst p) else None)
     (imap (fun i u => (i, u)) (uComp c)).

(** What one turn of the loop appends to [compInd], if anything: the entry
    of [uCompInd] at the position it computes.  [ind] is the whole list of
    candidates, [first] its head [ind[0]]; [ind2] holds positions in
    [ind], and it is with such a position that line 458 subscripts
    [uCompInd]. *)
Definition rescue_pick (c : RescueCriteria) (r : Feature)
  (rtTol mzTol : float) : option Z :=
match rescue_candidates c r rtTol mzTol with
| [] => None
| (first :: _) as ind =>
    if z r =? 0 then uCompInd c !! first
    else if match uComp c !! first with
            | Some u => z u =? 0
            | None => false
            end
    then uCompInd c !! first
    else
      (* ind2 = np.where(uComp["z"][ind] == charge)[0]: positions in [ind] *)
      let ind2 :=
        omap (fun p => match uComp c !! snd p with
                       | Some u => if z u =? z r then Some (fst p) else None
                       | None => None
                       end)
             (imap (fun j k => (j, k)) ind) in
      match ind2 with
      | [] => None
      | first2 :: _ => uCompInd c !! first2
      end
end.

(** Step 3, over the unaligned reference rows with their index in the
    reference table and their two tolerances. *)
Fixpoint rescue_loop (c : RescueCriteria)
  (rows : list (Z * Feature * float * float))
  (refInd compInd : list Z) (nRescue : Z) : list Z * list Z * Z :=
match rows with
| [] => (refInd, compInd, nRescue)
| (k, r, rtTol, mzTol) :: rows' =>
    match rescue_pick c r rtTol mzTol with
    | Some k' =>
        rescue_loop c rows' (refInd ++ [k]) (compInd ++ [k']) (nRescue + 1)
    | None => rescue_loop c rows' refInd compInd nRescue
    end
end.

Definition rescueFeatures (ref comp : list Feature) (refInd compInd : list Z)
  (rtSd mzSd : list float) (rtTolUnit rtTol mzTolUnit mzTol : string)
: M (list Z * list Z) :=
let* c := rescue_criteria ref comp refInd compInd rtSd mzSd in
if String.eqb rtTolUnit "1" || String.eqb rtTolUnit "2" then
  let* rtTolv :=
    if String.eqb rtTolUnit "1" then
      let* _ := printf py_format
                  "    - RT-shifts within %s x SD of estimated RT-shifts from aligned features"
                  [AStr rtTol] in
      let* f := lift (py_float rtTol) in
      ret (map (fun s => (f * s)%float) (u_rtSd c))
    else
      let* _ := printf py_format "    - RT-shifts less than %s seconds"
                  [AStr rtTol] in
      let* f := lift (py_float rtTol) in
      ret (repeat f (length (uRefInd c))) in
  if String.eqb mzTolUnit "1" || String.eqb mzTolUnit "2" then
    let* mzTolv :=
      if String.eqb mzTolUnit "1" then
        let* _ := printf py_format
                    "    - m/z-shifts within %s x SD of estimated m/z-shifts from aligned features"
                    [AStr mzTol] in
        let* f := lift (py_float mzTol) in
        ret (map (fun s => (f * s)%float) (u_mzSd c))
      else
        let* _ := printf py_format "    - m/z-shifts less than %s seconds"
                    [AStr mzTol] in
        let* f := lift (py_float mzTol) in
        ret (repeat f (length (uRefInd c))) in
    let rows := zip (zip (zip (uRefInd c) (uRef c)) rtTolv) mzTolv in
    let '(refInd, compInd, nRescue) := rescue_loop c rows refInd compInd 0 in
    let* _ := printf py_format
                "    Through the rescue procedure %d features are additionally aligned"
                [AInt nRescue] in
    ret (refInd, compInd)
  else
    let* _ := print warning_unit in
    let* _ := print warning_skipped in
    ret (refInd, compInd)
else
  let* _ := print warning_unit in
  let* _ := print warning_skipped in
  ret (refInd, compInd).

(** A unit code that is neither "1" nor "2". *)
Definition bad_unit (u : string) : Prop := u <> "1" /\ u <> "2".

Lemma bad_unit_eqb u :
  bad_unit u -> (String.eqb u "1" || String.eqb u "2") = false.
Proof.
  intros [H1 H2]. apply String.eqb_neq in H1, H2. by rewrite H1, H2.
Qed.

Lemma print_Ok line w u w' :
  print line w = (Ok u, w') -> stdout w' = stdout w ++ [line].
Proof. by intros [= _ <-]. Qed.

(** The line that announces the RT tolerance, by the unit code. *)
Definition rt_tolerance_format (rtTolUnit : string) : string :=
if String.eqb rtTolUnit "1"
then "    - RT-shifts within %s x SD of estimated RT-shifts from aligned features"
else "    - RT-shifts less than %s seconds".

(** With a bad RT unit code the function is its criteria step, the two
    warning lines, and the return of what it was given. *)
Lemma rescueFeatures_bad_rt_unit ref comp refInd compInd rtSd mzSd
    rtTolUnit rtTol mzTolUnit mzTol w :
  bad_unit rtTolUnit ->
  rescueFeatures ref comp refInd compInd rtSd mzSd rtTolUnit rtTol
    mzTolUnit mzTol w
  = match rescue_criteria ref comp refInd compInd rtSd mzSd w with
    | (Ok _, w1) =>
        (Ok (refInd, compInd),
         set_stdout (stdout w1 ++ [warning_unit; warning_skipped]) w1)
    | (Raise e, w1) => (Raise e, w1)
    end.
Proof.
  intros Hbad. unfold rescueFeatures, bind at 1.
  destruct (rescue_criteria _ _ _ _ _ _ w) as [[c|e] w1]; [|done].
  rewrite (bad_unit_eqb _ Hbad). cbn. unfold set_stdout. cbn.
  by rewrite <- app_assoc.
Qed.

(** With a good RT unit code and a bad m/z unit code, the line of the RT
    tolerance comes between. *)
Lemma rescueFeatures_bad_mz_unit ref comp refInd compInd rtSd mzSd
    rtTolUnit rtTol mzTolUnit mzTol w c w1 line f :
  rescue_criteria ref comp refInd compInd rtSd mzSd w = (Ok c, w1) ->
  rtTolUnit = "1" \/ rtTolUnit = "2" ->
  bad_unit mzTolUnit ->
  py_format (rt_tolerance_format rtTolUnit) [AStr rtTol] = Ok line ->
  py_float rtTol = Ok f ->
  rescueFeatures ref comp refInd compInd rtSd mzSd rtTolUnit rtTol
    mzTolUnit mzTol w
  = (Ok (refInd, compInd),
     set_stdout (stdout w1 ++ [line; warning_unit; warning_skipped]) w1).
Proof.
  intros Hc Hrt Hbad Hline Hf. unfold rescueFeatures, bind at 1. rewrite Hc.
  rewrite (bad_unit_eqb _ Hbad).
  destruct Hrt as [-> | ->]; cbn [String.eqb Ascii.eqb Bool.eqb orb];
    unfold rt_tolerance_format in Hline;
    cbn [String.eqb Ascii.eqb Bool.eqb] in Hline;
    unfold bind, printf, bind, lift, print, ret; rewrite Hline, Hf; cbn;
    unfold set_stdout; cbn; by rewrite <- !app_assoc.
Qed.

(** C9 (amended).  A tolerance-unit code that is neither "1" nor "2" does
    not make rescueFeatures raise.  Once the steps before the unit codes
    have completed (lines 386 to 410), a call with such an RT unit code
    returns the [refInd] and [compInd] it was given after printing the
    warning and the notice that the rescue step is skipped; so does a call
    with a good RT unit code and such an m/z unit code, once it has printed
    the line of the RT tolerance and read that tolerance.  A call with such
    an RT unit code raises only what the steps before the unit codes raise;
    and whenever a call with such a code returns, it returns [refInd] and
    [compInd] unchanged and the last two lines printed are the warning and
    the notice. *)
Theorem rescueFeatures_bad_unit_skips ref comp refInd compInd rtSd mzSd
    rtTolUnit rtTol mzTolUnit mzTol w :
  (forall c w1,
      rescue_criteria ref comp refInd compInd rtSd mzSd w = (Ok c, w1) ->
      bad_unit rtTolUnit ->
      rescueFeatures ref comp refInd compInd rtSd mzSd rtTolUnit rtTol
        mzTolUnit mzTol w
      = (Ok (refInd, compInd),
         set_stdout (stdout w1 ++ [warning_unit; warning_skipped]) w1)) /\
  (forall c w1 line f,
      rescue_criteria ref comp refInd compInd rtSd mzSd w = (Ok c, w1) ->
      rtTolUnit = "1" \/ rtTolUnit = "2" ->
      bad_unit mzTolUnit ->
      py_format (rt_tolerance_format rtTolUnit) [AStr rtTol] = Ok line ->
      py_float rtTol = Ok f ->
      rescueFeatures ref comp refInd compInd rtSd mzSd rtTolUnit rtTol
        mzTolUnit mzTol w
      = (Ok (refInd, compInd),
         set_stdout (stdout w1 ++ [line; warning_unit; warning_skipped]) w1)) /\
  (forall e w',
      bad_unit rtTolUnit ->
      rescueFeatures ref comp refInd compInd rtSd mzSd rtTolUnit rtTol
        mzTolUnit mzTol w = (Raise e, w') ->
      rescue_criteria ref comp refInd compInd rtSd mzSd w = (Raise e, w')) /\
  (forall x w',
      bad_unit rtTolUnit \/ bad_unit mzTolUnit ->
      rescueFeatures ref comp refInd compInd rtSd mzSd rtTolUnit rtTol
        mzTolUnit mzTol w = (Ok x, w') ->
      x = (refInd, compInd) /\
      exists pre, stdout w' = pre ++ [warning_unit; warning_skipped]).
Proof.
  split; [|split; [|split]].
  - intros c w1 Hc Hbad.
    by rewrite (rescueFeatures_bad_rt_unit _ _ _ _ _ _ _ _ _ _ _ Hbad), Hc.
  - intros c w1 line f. apply rescueFeatures_bad_mz_unit.
  - intros e w' Hbad.
    rewrite (rescueFeatures_bad_rt_unit _ _ _ _ _ _ _ _ _ _ _ Hbad).
    destruct (rescue_criteria _ _ _ _ _ _ w) as [[c|e1] w1]; [done|].
    by intros [= -> ->].
  - intros x w' Hbad H.
    assert (Hwarn : forall w2,
      (let* _ := print warning_unit in
       let* _ := print warning_skipped in ret (refInd, compInd)) w2 = (Ok x, w') ->
      x = (refInd, compInd) /\
      exists pre, stdout w' = pre ++ [warning_unit; warning_skipped]).
    { intros w2 [= <- <-]. split; [done|]. exists (stdout w2). cbn.
      by rewrite <- app_assoc. }
    unfold rescueFeatures in H.
    apply bind_Ok in H as (c & w1 & _ & H).
    destruct (String.eqb rtTolUnit "1" || String.eqb rtTolUnit "2") eqn:Hrt;
      [|by eapply Hwarn].
    destruct Hbad as [Hbad|Hbad]; [by rewrite (bad_unit_eqb _ Hbad) in Hrt|].
    apply bind_Ok in H as (rtTolv & w2 & _ & H).
    rewrite (bad_unit_eqb _ Hbad) in H. by eapply Hwarn.
Qed.

End Rescue.

Module RescueExample.

Import MatchExample.

(** Stand-ins for the outside functions; the run below does not depend on
    the numbers they return. *)
Definition py_format (fmt : string) (args : list pyarg) : result string :=
Ok fmt.
Definition np_ma_median : list float -> float := CalibrationExample.np_median.
Definition np_log2 (x : float) : float := x.

Definition refInd : list Z := [0; 1].
Definition compInd : list Z := [0; 1].
Definition sds : list float := [1%float; 1%float; 1%float].
Definition w0 : world := World ∅ [] 0 [].

(** The RT unit code is "3". *)
Definition run :=
rescueFeatures py_float py_format CalibrationExample.np_percentile
  np_ma_median np_log2 ref comp refInd compInd sds sds "3" "10" "1" "10" w0.

Lemma rescue_run_result : run = (Ok (refInd, compInd), run.2).
Proof. vm_compute. reflexivity. Qed.

Example run_stdout :
  stdout run.2 =
  [ "    There are %d unaligned features";
    "    - Intensity higher than %d (median intensity of aligned features)";
    "    - Ratio between reference and compared runs within %d %%";
    warning_unit; warning_skipped ].
Proof. vm_compute. reflexivity. Qed.

Lemma unit_3_is_bad : bad_unit "3".
Proof. split; discriminate. Qed.

(** The claim as the specification states it fails here: the unit code is
    outside {1, 2}, and the call does not raise; it returns. *)
Lemma rescueFeatures_bad_unit_returns :
  bad_unit "3" /\
  ~ (exists e w', run = (Raise e, w')) /\
  run.1 = Ok (refInd, compInd).
Proof.
  split; [exact unit_3_is_bad|]. rewrite rescue_run_result. split; [|done].
  intros (e & w' & H). discriminate H.
Qed.

(** The steps before the unit codes, on the same arguments. *)
Definition criteria :=
rescue_criteria py_format CalibrationExample.np_percentile np_ma_median
  np_log2 ref comp refInd compInd sds sds w0.

Definition criteria_out : RescueCriteria :=
match criteria.1 with
| Ok c => c
| Raise _ => mkCriteria [] [] [] [] [] [] 0 0 0
end.

Lemma criteria_returns : criteria = (Ok criteria_out, criteria.2).
Proof. vm_compute. reflexivity. Qed.

(** The m/z unit code is "7", after a good RT unit code. *)
Definition run_mz :=
rescueFeatures py_float py_format CalibrationExample.np_percentile
  np_ma_median np_log2 ref comp refInd compInd sds sds "1" "10" "7" "10" w0.

Lemma unit_7_is_bad : bad_unit "7".
Proof. split; discriminate. Qed.

Lemma rescueFeatures_bad_unit_skips_witness :
  run = (Ok (refInd, compInd),
         set_stdout (stdout criteria.2 ++ [warning_unit; warning_skipped])
                    criteria.2) /\
  run_mz = (Ok (refInd, compInd),
            set_stdout
              (stdout criteria.2
               ++ [rt_tolerance_format "1"; warning_unit; warning_skipped])
              criteria.2).
Proof.
  split.
  - exact (proj1 (rescueFeatures_bad_unit_skips py_float py_format
             CalibrationExample.np_percentile np_ma_median np_log2
             ref comp refInd compInd sds sds "3" "10" "1" "10" w0)
             criteria_out criteria.2 criteria_returns unit_3_is_bad).
  - exact (proj1 (proj2 (rescueFeatures_bad_unit_skips py_float py_format
             CalibrationExample.np_percentile np_ma_median np_log2
             ref comp refInd compInd sds sds "1" "10" "7" "10" w0))
             criteria_out criteria.2 (rt_tolerance_format "1") 10%float
             criteria_returns (or_introl eq_refl) unit_7_is_bad
             eq_refl eq_refl).
Defined.

End RescueExample.

(** ** Alignment of all runs *)

(** [np.unique]: increasing, without repetition. *)
Fixpoint insert_unique (x : Z) (l : list Z) : list Z :=
match l with
| [] => [x]
| y :: l' =>
    if x <? y then x :: l
    else if x =? y then l
    else y :: insert_unique x l'
end.

Definition np_unique (l : list Z) : list Z := foldr insert_unique [] l.

Definition memZ (x : Z) (l : list Z) : bool := existsb (Z.eqb x) l.

Definition np_intersect1d (a b : list Z) : list Z :=
np_unique (List.filter (fun x => memZ x b) a).

Definition np_union1d (a b : list Z) : list Z := np_unique (a ++ b).

Definition np_setdiff1d (a b : list Z) : list Z :=
List.filter (fun x => negb (memZ x b)) (np_unique a).

(** [range(n)] *)
Definition py_range (n : nat) : list Z := map Z.of_nat (seq 0 n).

(** [np.where(col >= 0)[0]] *)
Definition where_present (col : list Z) : list Z :=
omap (fun p => if 0 <=? snd p then Some (Z.of_nat (fst p)) else None)
     (imap (fun i v => (i, v)) col).

(** [s.endswith(suffix)] *)
Definition endswith (s suffix : string) : bool :=
let n := String.length s in
let k := String.length suffix in
Nat.leb k n && String.eqb (substring (n - k) k s) suffix.

(** A structured array of features, its rows as lists of column values, and
    a two-dimensional float array. *)
Abbreviation table := (list (list float)).

Definition minus_one : float := (-1)%float.

(** [M[i, :] = line] into a row of [width] columns. *)
Definition fit_row (width : nat) (line : list float) : result (list float) :=
if Nat.eqb (length line) width then Ok line
else match line with
     | [x] => Ok (repeat x width)
     | _ => Raise ValueError
     end.

(** [indArray[:, i]] *)
Definition column (i : nat) (indArray : list (list Z)) : result (list Z) :=
match mapM (fun row => row !! i) indArray with
| Some col => Ok col
| None => Raise IndexError
end.

(** The indexes of the fully and of the partially aligned reference
    features: the loop over the runs other than the reference. *)
Fixpoint partition_loop (refNo : nat) (indArray : list (list Z))
  (runs : list nat) (fullInd partialInd : list Z)
: result (list Z * list Z) :=
match runs with
| [] => Ok (fullInd, partialInd)
| i :: runs' =>
    if Nat.eqb i refNo then
      partition_loop refNo indArray runs' fullInd partialInd
    else
      try* col := column i indArray in
      partition_loop refNo indArray runs'
        (np_intersect1d fullInd (where_present col))
        (np_union1d partialInd (where_present col))
end.

Definition partition_indices (refNo n : nat) (indArray : list (list Z))
: result (list Z * list Z) :=
try* fp := partition_loop refNo indArray (seq 0 n)
             (py_range (length indArray)) [] in
Ok (fst fp, np_setdiff1d (snd fp) (fst fp)).

(** The number of runs in which a row of the partial table has a feature:
    [np.sum(~np.isnan(row[colInd]))]. *)
Definition runs_present (colInd : list nat) (row : list float) : result Z :=
try* cells := match mapM (fun c => row !! c) colInd with
              | Some cells => Ok cells
              | None => Raise IndexError
              end in
Ok (Z.of_nat (length (List.filter (fun x => negb (F.is_nan x)) cells))).

(** The positions of the rows of [partial] to promote:
    [np.where(nRuns >= threshold)[0]]. *)
Fixpoint promoted_rows (colInd : list nat) (threshold : float) (i : nat)
  (partial : table) : result (list nat) :=
match partial with
| [] => Ok []
| row :: partial' =>
    try* k := runs_present colInd row in
    try* rest := promoted_rows colInd threshold (S i) partial' in
    Ok (if F.int_ge k threshold then i :: rest else rest)
end.

(** [partial[rowInd, :]] and [np.delete(partial, rowInd, axis = 0)] *)
Definition rows_at (rowInd : list nat) (t : table) : table :=
omap (fun i => t !! i) rowInd.

Fixpoint rows_without_from (i : nat) (rowInd : list nat) (t : table) : table :=
match t with
| [] => []
| row :: t' =>
    if existsb (Nat.eqb i) rowInd then rows_without_from (S i) rowInd t'
    else row :: rows_without_from (S i) rowInd t'
end.

Definition rows_without (rowInd : list nat) (t : table) : table :=
rows_without_from 0 rowInd t.

Definition tab : string := String (Ascii.ascii_of_nat 9) EmptyString.

(** A table of features as a caller hands it to alignFeatures: the pandas
    DataFrame that the module reads from a feature file (line 601), or a
    numpy record array with the names of its fields, which is what the
    statements after the matching loop are written for. *)
Inductive frame :=
| DataFrame (rows : list Feature)
| RecArray (names : list string) (rows : table).

(** [t.shape[0]] *)
Definition shape0 (t : frame) : nat :=
match t with
| DataFrame rows => length rows
| RecArray _ rows => length rows
end.

(** The rows of a table that is subscripted with the number of a row or
    with numbers of rows, as the statements after the matching loop do.  A
    DataFrame looks such a subscript up among its column labels, where it
    is not.  (No run does this to a DataFrame: see
    [alignFeatures_Ok_single] below.) *)
Definition records (t : frame) : result table :=
match t with
| RecArray _ rows => Ok rows
| DataFrame _ => Raise KeyError
end.

(** [t[k]] for a table in a list of tables: [fArray[j][colInd]]. *)
Definition feature_row (fArray : list frame) (j : nat) (k : Z)
: result (list float) :=
match fArray !! j with
| Some t => try* rows := records t in np_index rows k
| None => Raise IndexError
end.

(** The line of the full table for reference feature [f]: its row in every
    run, one after the other. *)
Fixpoint full_line (fArray : list frame) (ind_row : list Z) (j : nat)
: result (list float) :=
match ind_row with
| [] => Ok []
| colInd :: ind_row' =>
    try* cells := feature_row fArray j colInd in
    try* rest := full_line fArray ind_row' (S j) in
    Ok (cells ++ rest)
end.

(** The same for the partial table: [nCols] cells of -1 where the run has no
    feature. *)
Fixpoint partial_line (fArray : list frame) (nCols : nat) (ind_row : list Z)
  (j : nat) : result (list float) :=
match ind_row with
| [] => Ok []
| colInd :: ind_row' =>
    try* cells := if colInd =? -1 then Ok (repeat minus_one nCols)
                  else feature_row fArray j colInd in
    try* rest := partial_line fArray nCols ind_row' (S j) in
    Ok (cells ++ rest)
end.

Fixpoint result_map {A B} (f : A -> result B) (l : list A) : result (list B) :=
match l with
| [] => Ok []
| x :: l' =>
    try* y := f x in
    try* rest := result_map f l' in
    Ok (y :: rest)
end.

Fixpoint for_each {A} (f : A -> M unit) (l : list A) : M unit :=
match l with
| [] => ret tt
| x :: l' => let* _ := f x in for_each f l'
end.

(** [c] raises in every world. *)
Definition never_returns {A} (c : M A) : Prop :=
forall w, exists e w', c w = (Raise e, w').

Lemma never_bind_first {A B} (c : M A) (k : A -> M B) :
  never_returns c -> never_returns (bind c k).
Proof.
  intros Hc w. destruct (Hc w) as (e & w' & Hw). exists e, w'.
  unfold bind. by rewrite Hw.
Qed.

Lemma never_bind_any {A B} (c : M A) (k : A -> M B) :
  (forall a, never_returns (k a)) -> never_returns (bind c k).
Proof.
  intros Hk w. unfold bind. destruct (c w) as [[a|e] w1]; [apply Hk|by eauto].
Qed.

Lemma never_bind_lift {A B} (r : result A) (k : A -> M B) v :
  r = Ok v -> never_returns (k v) -> never_returns (bind (lift r) k).
Proof. intros -> Hk w. apply Hk. Qed.

Section Align.

Variable py_float : string -> result float.
Variable py_format : string -> list pyarg -> result string.

(** The module-level names the function reads: the number of the reference
    run, the number of feature files, the base names of the feature files
    ([os.path.basename(featureFiles[i])], which the module also keeps as
    [featureNames[i]]), and the SDs that the calibration left for each
    run.  The entry of the SD lists for the reference run, the string "NA"
    in the module, is never read: any value stands for it here. *)
Variable refNo : nat.
Variable nFiles : nat.
Variable featureNames : list string.
Variable rtSdArray : list sd_arg.
Variable mzSdArray : list sd_arg.

Definition name_of (names : list string) (i : nat) : result string :=
match names !! i with
| Some s => Ok s
| None => Raise IndexError
end.

Definition table_of (fArray : list frame) (i : nat) : result frame :=
match fArray !! i with
| Some t => Ok t
| None => Raise IndexError
end.

Definition rows_of (fArray : list frame) (i : nat) : result nat :=
try* t := table_of fArray i in Ok (shape0 t).

Definition sd_of (sds : list sd_arg) (i : nat) : result sd_arg :=
match sds !! i with
| Some sd => Ok sd
| None => Raise IndexError
end.

(** One turn of the matching loop, for run [i].  The call of line 475 is a
    call of the matchFeatures of this module, which takes two DataFrames (a
    record array has no method [sort_values]) and returns one DataFrame.
    The statement unpacks what is returned into [refInd, compInd]: it
    iterates over the column labels of the table, which are the twelve
    [ref_...] and the twelve [comp_...], or none at all when no pair was
    matched, and never two; so it raises ValueError, and lines 482 to 484
    are not reached. *)
Definition align_run (fArray : list frame) (params : gmap string string)
  (nRef : nat) (i : nat) (indArray : list (list Z)) : M (list (list Z)) :=
if Nat.eqb i refNo then ret indArray
else
  let* refName := lift (name_of featureNames refNo) in
  let* compName := lift (name_of featureNames i) in
  let* s1 := lift (py_format ": %d features (reference run)"
                             [AInt (Z.of_nat nRef)]) in
  let* _ := print (String.append "  " (String.append refName s1)) in
  let* nComp := lift (rows_of fArray i) in
  let* s2 := lift (py_format ": %d features (compared run)"
                             [AInt (Z.of_nat nComp)]) in
  let* _ := print (String.append "  " (String.append compName s2)) in
  let* ref := lift (table_of fArray refNo) in
  let* comp := lift (table_of fArray i) in
  let* rtSd := lift (sd_of rtSdArray i) in
  let* mzSd := lift (sd_of mzSdArray i) in
  match ref, comp with
  | DataFrame ref, DataFrame comp =>
      let* df := matchFeatures py_float ref comp rtSd mzSd params "align" in
      (* refInd, compInd = df *)
      raise ValueError
  | _, _ => raise AttributeError
  end.

Fixpoint align_runs (fArray : list frame) (params : gmap string string)
  (nRef : nat) (runs : list nat) (indArray : list (list Z))
: M (list (list Z)) :=
match runs with
| [] => ret indArray
| i :: runs' =>
    let* indArray := align_run fArray params nRef i indArray in
    align_runs fArray params nRef runs' indArray
end.

(** The threshold step at the end of alignFeatures. *)
Definition promote (params : gmap string string) (header : list string)
  (full partial : table) : M (table * table) :=
let* pctFullAlignment :=
  lift (try* s := param params "pct_full_alignment" in py_float s) in
if PrimFloat.ltb pctFullAlignment 100 then
  let colInd :=
    omap (fun p => if endswith (snd p) "index" then Some (fst p) else None)
         (imap (fun i col => (i, col)) header) in
  let threshold :=
    F.ceil (pctFullAlignment / 100 * F.of_Z (Z.of_nat nFiles))%float in
  let* rowInd := lift (promoted_rows colInd threshold 0 partial) in
  let full := full ++ rows_at rowInd partial in
  let partial := rows_without rowInd partial in
  let* _ := printf py_format
              "    According to the parameter setting, %d partially-aligned features are regarded as fully-aligned"
              [AInt (Z.of_nat (length rowInd))] in
  ret (full, partial)
else
  let* _ := print "    According to the parameter setting, no feature is added to the set of fully-aligned ones" in
  ret (full, partial).

(** The table of the fully aligned and of the partially aligned features
    before the threshold step, and the unaligned rows of every run. *)
Definition build_tables (fArray : list frame) (n nRef : nat)
  (indArray : list (list Z)) (fullInd partialInd : list Z)
: result (table * table * list table) :=
try* nCols := try* t := table_of fArray 0 in
              try* rows := records t in
              match rows with
              | row :: _ => Ok (length row)
              | [] => Raise IndexError
              end in
try* full :=
  result_map (fun f => try* ind_row := np_index indArray f in
                       try* line := full_line fArray ind_row 0 in
                       fit_row (n * nCols) line) fullInd in
try* partial :=
  result_map (fun f => try* ind_row := np_index indArray f in
                       try* line := partial_line fArray nCols ind_row 0 in
                       fit_row (n * nCols) line) partialInd in
let partial :=
  map (map (fun x => if PrimFloat.eqb x minus_one then nan else x)) partial in
try* unaligned :=
  result_map (fun i =>
      try* t := table_of fArray i in
      if Nat.eqb i refNo then
        try* rows := records t in
        np_take rows (np_setdiff1d (py_range nRef)
                                   (np_union1d fullInd partialInd))
      else
        try* col := column i indArray in
        try* rows := records t in
        np_take rows (np_setdiff1d (py_range (shape0 t)) col))
    (seq 0 n) in
Ok (full, partial, unaligned).

(** The lines of the summary. *)
Definition summary (n : nat) (indArray : list (list Z))
  (fullInd partialInd : list Z) (unaligned : list table) : M unit :=
let* _ := print "  Alignment/match summary" in
let* _ := print "  =======================" in
let* _ := print "    After alignment/feature matching, fully-, partially- and un-aligned features are as follows" in
let* _ := print (String.concat tab
                   ["    Filename"; ""; "fully-aligned"; "partially-aligned";
                    "un-aligned"]) in
let nFull := Z.of_nat (length fullInd) in
for_each (fun i =>
    let* nPartial :=
      if Nat.eqb i refNo then ret (Z.of_nat (length partialInd))
      else
        let* col := lift (column i indArray) in
        ret (Z.of_nat (length (where_present col)) - Z.of_nat (length fullInd)) in
    let* nUn := lift (match unaligned !! i with
                      | Some t => Ok (Z.of_nat (length t))
                      | None => Raise IndexError
                      end) in
    let* name := lift (name_of featureNames i) in
    printf py_format
      (String.concat tab ["    %s"; ""; "%d"; "%d"; "%d"])
      [AStr name; AInt nFull; AInt nPartial; AInt nUn])
  (seq 0 n).

(** [list(fArray[0].dtype.names)]: the names of the fields of a record
    array; a DataFrame has no attribute [dtype]. *)
Definition dtype_names (fArray : list frame) : result (list string) :=
try* t := table_of fArray 0 in
match t with
| RecArray names _ => Ok names
| DataFrame _ => Raise AttributeError
end.

Definition alignFeatures (fArray : list frame) (fNames : list string)
  (params : gmap string string) : M (table * table * list table) :=
let n := length fNames in
let* nRef := lift (rows_of fArray refNo) in
(* indArray[:, refNo] = range(nRef) *)
let* _ := lift (if Nat.ltb refNo n then Ok tt else Raise IndexError) in
let indArray :=
  map (fun r => <[refNo := Z.of_nat r]> (repeat (-1) n)) (seq 0 nRef) in
let* indArray := align_runs fArray params nRef (seq 0 n) indArray in
let* _ := print "" in
let* colNames := lift (dtype_names fArray) in
let* '(fullInd, partialInd) := lift (partition_indices refNo n indArray) in
let header :=
  flat_map (fun name => map (fun c => String.append name (String.append "_" c))
                            colNames) fNames in
let* '(full, partial, unaligned) :=
  lift (build_tables fArray n nRef indArray fullInd partialInd) in
let* _ := summary n indArray fullInd partialInd unaligned in
let* '(full, partial) := promote params header full partial in
ret (full, partial, unaligned).

(** *** The threshold step *)

(** The columns of the header whose name ends in "index". *)
Definition index_columns (header : list string) : list nat :=
omap (fun p => if endswith (snd p) "index" then Some (fst p) else None)
     (imap (fun i col => (i, col)) header).

(** A row of the partial table with a feature in at least one run. *)
Definition in_a_run (header : list string) (row : list float) : bool :=
match runs_present (index_columns header) row with
| Ok k => 1 <=? k
| Raise _ => false
end.

Lemma int_ge_one k : F.int_ge k 1%float = (1 <=? k).
Proof. reflexivity. Qed.

Lemma threshold_half_of_two :
  F.ceil (50 / 100 * F.of_Z (Z.of_nat 2))%float = 1%float.
Proof. vm_compute. reflexivity. Qed.

Lemma rows_without_from_skip t :
  forall j x l, (x < j)%nat ->
    rows_without_from j (x :: l) t = rows_without_from j l t.
Proof.
  induction t as [|row t IH]; intros j x l Hlt; cbn; [done|].
  assert (Hne : Nat.eqb j x = false) by (apply Nat.eqb_neq; lia).
  rewrite Hne. cbn. by rewrite !(IH (S j) x l) by lia.
Qed.

Lemma rows_without_from_above t :
  forall j l, Forall (fun r => (j + length t <= r)%nat) l ->
    rows_without_from j l t = t.
Proof.
  induction t as [|row t IH]; intros j l Hl; cbn; [done|].
  assert (Hno : existsb (Nat.eqb j) l = false).
  { apply not_true_is_false. intros Hex.
    apply existsb_exists in Hex as (r & Hr & Heq).
    apply Nat.eqb_eq in Heq. subst r.
    rewrite Forall_forall in Hl. apply list_elem_of_In in Hr.
    specialize (Hl _ Hr). cbn in Hl. lia. }
  rewrite Hno. f_equal. apply IH.
  eapply Forall_impl; [exact Hl|]. cbn. intros. lia.
Qed.

Lemma rows_at_cons i rest (t : table) :
  rows_at (i :: rest) t
  = match t !! i with
    | Some row => row :: rows_at rest t
    | None => rows_at rest t
    end.
Proof. reflexivity. Qed.

Lemma promoted_rows_filter colInd header partial :
  colInd = index_columns header ->
  forall i pre rowInd,
    length pre = i ->
    promoted_rows colInd 1%float i partial = Ok rowInd ->
    Forall (fun r => (i <= r)%nat) rowInd /\
    rows_at rowInd (pre ++ partial) = List.filter (in_a_run header) partial /\
    rows_without_from i rowInd partial
    = List.filter (fun row => negb (in_a_run header row)) partial.
Proof.
  intros ->. induction partial as [|row partial IH]; intros i pre rowInd Hi; cbn.
  { intros [= <-]. done. }
  destruct (runs_present (index_columns header) row) as [k|] eqn:Hk; [cbn|done].
  assert (Hrow : in_a_run header row = (1 <=? k))
    by (unfold in_a_run; by rewrite Hk).
  rewrite Hrow.
  destruct (promoted_rows _ _ (S i) partial) as [rest|] eqn:Hrest; [cbn|done].
  intros [= <-].
  destruct (IH (S i) (pre ++ [row]) rest) as (Hge & Hat & Hwo);
    [rewrite length_app; cbn; lia|done|].
  rewrite <- app_assoc in Hat. cbn in Hat.
  rewrite int_ge_one. destruct (1 <=? k); cbn [negb].
  - split; [|split].
    + constructor; [done|]. eapply Forall_impl; [exact Hge|]. cbn. lia.
    + rewrite rows_at_cons, lookup_app_r by lia.
      rewrite Hi, Nat.sub_diag. cbn. by rewrite Hat.
    + cbn [existsb]. rewrite Nat.eqb_refl. cbn [orb].
      by rewrite rows_without_from_skip by lia.
  - split; [|split].
    + eapply Forall_impl; [exact Hge|]. cbn. lia.
    + done.
    + assert (Hno : existsb (Nat.eqb i) rest = false).
      { apply not_true_is_false. intros Hex.
        apply existsb_exists in Hex as (r & Hr & Heq).
        apply Nat.eqb_eq in Heq. subst r.
        rewrite Forall_forall in Hge. apply list_elem_of_In in Hr.
        specialize (Hge _ Hr). cbn in Hge. lia. }
      by rewrite Hno, Hwo.
Qed.

Lemma promote_all (params : gmap string string) header full partial s w :
  params !! "pct_full_alignment" = Some s ->
  py_float s = Ok 100%float ->
  promote params header full partial w
  = (Ok (full, partial),
     set_stdout (stdout w ++ ["    According to the parameter setting, no feature is added to the set of fully-aligned ones"]) w).
Proof.
  intros Hs Hf. unfold promote, bind at 1, lift, param. rewrite Hs. cbn.
  rewrite Hf. reflexivity.
Qed.

Lemma promote_half_of_two (params : gmap string string) header full partial
    s w full' partial' w' :
  nFiles = 2%nat ->
  params !! "pct_full_alignment" = Some s ->
  py_float s = Ok 50%float ->
  promote params header full partial w = (Ok (full', partial'), w') ->
  full' = full ++ List.filter (in_a_run header) partial /\
  partial' = List.filter (fun row => negb (in_a_run header row)) partial.
Proof.
  intros Hn Hs Hf. unfold promote, bind at 1, lift at 1, param.
  rewrite Hs. cbn [rbind]. rewrite Hf.
  change (PrimFloat.ltb 50 100) with true. cbn iota.
  rewrite Hn, threshold_half_of_two.
  fold (index_columns header). intros H.
  apply bind_Ok in H as (rowInd & w1 & Hrows & H). apply lift_Ok in Hrows as [Hrows ->].
  apply bind_Ok in H as (u & w2 & _ & H). apply ret_Ok in H as [[= -> ->] _].
  destruct (promoted_rows_filter _ header partial eq_refl 0%nat [] rowInd
              eq_refl Hrows) as (_ & Hat & Hwo).
  cbn in Hat. unfold rows_without. by rewrite Hat, Hwo.
Qed.

(** *** The index sets of the partition *)

Lemma In_insert_unique x y l : In x (insert_unique y l) <-> x = y \/ In x l.
Proof.
  induction l as [|a l IH]; cbn; [intuition congruence|].
  destruct (Z.ltb_spec y a); cbn; [intuition congruence|].
  destruct (Z.eqb_spec y a); cbn; [subst; intuition congruence|].
  rewrite IH. intuition congruence.
Qed.

Lemma In_np_unique x l : In x (np_unique l) <-> In x l.
Proof.
  induction l as [|a l IH]; cbn; [tauto|].
  rewrite In_insert_unique, IH. intuition congruence.
Qed.

Lemma memZ_In x l : memZ x l = true <-> In x l.
Proof.
  unfold memZ. rewrite existsb_exists. split.
  - intros (y & Hy & Heq). apply Z.eqb_eq in Heq. by subst.
  - intros H. exists x. split; [done|]. apply Z.eqb_refl.
Qed.

Lemma np_setdiff1d_nil a b :
  (forall x, In x a -> In x b) -> np_setdiff1d a b = [].
Proof.
  intros Hsub. unfold np_setdiff1d.
  destruct (List.filter _ (np_unique a)) as [|x t] eqn:Hf; [done|].
  assert (Hin : In x (List.filter (fun x => negb (memZ x b)) (np_unique a)))
    by (rewrite Hf; by left).
  apply filter_In in Hin as [Hin Hno]. apply In_np_unique, Hsub in Hin.
  apply memZ_In in Hin. by rewrite Hin in Hno.
Qed.

Lemma where_present_range col x :
  In x (where_present col) -> In x (py_range (length col)).
Proof.
  unfold where_present, py_range. intros Hin.
  apply list_elem_of_In, list_elem_of_omap in Hin as ([i v] & Hiv & Hx).
  apply elem_of_lookup_imap in Hiv as (i' & v' & [= -> ->] & Hlook).
  cbn in Hx. destruct (0 <=? v'); [|done]. injection Hx as <-.
  apply in_map, in_seq. apply lookup_lt_Some in Hlook. lia.
Qed.

Lemma column_length i (indArray : list (list Z)) col :
  column i indArray = Ok col -> length col = length indArray.
Proof.
  unfold column. destruct (mapM _ indArray) as [c|] eqn:Hm; [|done].
  intros [= <-]. symmetry. by eapply length_mapM.
Qed.

(** The statements of lines 487 to 498 with one run beside the reference:
    every reference feature that the other run matches is fully aligned,
    and none is partially aligned. *)
Lemma partition_two_runs (indArray : list (list Z)) fullInd partialInd :
  (refNo < 2)%nat ->
  partition_indices refNo 2 indArray = Ok (fullInd, partialInd) ->
  partialInd = [].
Proof.
  intros Hlt. unfold partition_indices.
  assert (Hkey : forall col, length col = length indArray ->
            np_setdiff1d (np_union1d [] (where_present col))
              (np_intersect1d (py_range (length indArray)) (where_present col))
            = []).
  { intros col Hlen. apply np_setdiff1d_nil. intros x Hx.
    unfold np_union1d in Hx. apply (proj1 (In_np_unique _ _)) in Hx.
    change (In x (where_present col)) in Hx.
    unfold np_intersect1d. apply In_np_unique, filter_In. split.
    - rewrite <- Hlen. by apply where_present_range.
    - by apply memZ_In. }
  destruct refNo as [|[|k]]; [| |lia]; cbn.
  - destruct (column 1 indArray) as [col|] eqn:Hc; [cbn|done].
    intros [= <- <-]. apply Hkey. by eapply column_length.
  - destruct (column 0 indArray) as [col|] eqn:Hc; [cbn|done].
    intros [= <- <-]. apply Hkey. by eapply column_length.
Qed.

Lemma promote_nil (params : gmap string string) header full w full' partial' w' :
  promote params header full [] w = (Ok (full', partial'), w') ->
  full' = full /\ partial' = [].
Proof.
  unfold promote. intros H.
  apply bind_Ok in H as (pct & w1 & _ & H).
  destruct (PrimFloat.ltb pct 100).
  - apply bind_Ok in H as (rowInd & w2 & Hr & H).
    apply lift_Ok in Hr as [[= <-] ->].
    apply bind_Ok in H as (u & w3 & _ & H). apply ret_Ok in H as [[= -> ->] _].
    by rewrite app_nil_r.
  - apply bind_Ok in H as (u & w3 & _ & H). by apply ret_Ok in H as [[= -> ->] _].
Qed.

Lemma rbind_Ok {A B} (r : result A) (k : A -> result B) b :
  rbind r k = Ok b -> exists a, r = Ok a /\ k a = Ok b.
Proof. destruct r as [a|e]; [|done]. intros H. by exists a. Qed.

(** *** No run beside the reference is matched *)

Lemma never_raise {A} e : never_returns (@raise A e).
Proof. intros w. by exists e, w. Qed.

(** The turn of the loop for a run that is not the reference raises. *)
Lemma align_run_raises fArray params nRef i indArray :
  i <> refNo -> never_returns (align_run fArray params nRef i indArray).
Proof.
  intros Hne. unfold align_run.
  rewrite (proj2 (Nat.eqb_neq i refNo) Hne).
  do 7 (apply never_bind_any; intros ?).
  apply never_bind_any. intros ref. apply never_bind_any. intros comp.
  do 2 (apply never_bind_any; intros ?).
  destruct ref as [ref|names rows], comp as [comp|names' rows'];
    try apply never_raise.
  apply never_bind_any. intros df. apply never_raise.
Qed.

(** When the turn for a run beside the reference gets as far as the call of
    matchFeatures and the call returns, the turn raises ValueError. *)
Lemma align_run_unpack fArray params nRef i indArray w ref comp rtSd mzSd
    refName compName s1 s2 out w2 :
  i <> refNo ->
  featureNames !! refNo = Some refName ->
  featureNames !! i = Some compName ->
  py_format ": %d features (reference run)" [AInt (Z.of_nat nRef)] = Ok s1 ->
  fArray !! refNo = Some (DataFrame ref) ->
  fArray !! i = Some (DataFrame comp) ->
  py_format ": %d features (compared run)" [AInt (Z.of_nat (length comp))]
  = Ok s2 ->
  rtSdArray !! i = Some rtSd -> mzSdArray !! i = Some mzSd ->
  matchFeatures py_float ref comp rtSd mzSd params "align"
    (set_stdout (stdout w ++ [String.append "  " (String.append refName s1);
                              String.append "  " (String.append compName s2)])
                w)
  = (Ok out, w2) ->
  align_run fArray params nRef i indArray w = (Raise ValueError, w2).
Proof.
  intros Hne Hrn Hcn Hs1 Href Hcomp Hs2 Hrt Hmz Hmatch.
  unfold align_run. rewrite (proj2 (Nat.eqb_neq i refNo) Hne).
  unfold bind, lift, print, name_of, rows_of, table_of, sd_of, raise.
  rewrite Hrn, Hcn, Hs1, Hcomp. cbn [rbind shape0]. rewrite Hs2, Href, Hrt, Hmz.
  replace (set_stdout _ (set_stdout _ w))
    with (set_stdout
            (stdout w ++ [String.append "  " (String.append refName s1);
                          String.append "  " (String.append compName s2)]) w)
    by (unfold set_stdout; cbn; by rewrite <- app_assoc).
  by rewrite Hmatch.
Qed.

Lemma align_run_reference fArray params nRef i indArray w :
  i = refNo -> align_run fArray params nRef i indArray w = (Ok indArray, w).
Proof. intros ->. unfold align_run. by rewrite Nat.eqb_refl. Qed.

(** The first run beside the reference: run 1 when the reference is run 0,
    and run 0 otherwise. *)
Definition first_compared : nat := if Nat.eqb refNo 0 then 1%nat else 0%nat.

Lemma alignFeatures_unpack fArray fNames params w ref comp rtSd mzSd
    refName compName s1 s2 out w2 :
  (2 <= length fNames)%nat -> (refNo < length fNames)%nat ->
  featureNames !! refNo = Some refName ->
  featureNames !! first_compared = Some compName ->
  py_format ": %d features (reference run)" [AInt (Z.of_nat (length ref))]
  = Ok s1 ->
  fArray !! refNo = Some (DataFrame ref) ->
  fArray !! first_compared = Some (DataFrame comp) ->
  py_format ": %d features (compared run)" [AInt (Z.of_nat (length comp))]
  = Ok s2 ->
  rtSdArray !! first_compared = Some rtSd ->
  mzSdArray !! first_compared = Some mzSd ->
  matchFeatures py_float ref comp rtSd mzSd params "align"
    (set_stdout (stdout w ++ [String.append "  " (String.append refName s1);
                              String.append "  " (String.append compName s2)])
                w)
  = (Ok out, w2) ->
  alignFeatures fArray fNames params w = (Raise ValueError, w2).
Proof.
  intros Hn Hlt Hrn Hcn Hs1 Href Hcomp Hs2 Hrt Hmz Hmatch.
  unfold alignFeatures.
  unfold bind at 1, lift at 1, rows_of, table_of. rewrite Href. cbn [rbind shape0].
  unfold bind at 1, lift at 1. rewrite (proj2 (Nat.ltb_lt _ _) Hlt).
  unfold bind at 1.
  destruct fNames as [|a [|b t]]; cbn [length] in *; try lia.
  cbn [seq align_runs]. unfold first_compared in *.
  destruct (Nat.eqb_spec refNo 0) as [H0|H0].
  - unfold bind at 1. rewrite align_run_reference by done.
    unfold bind at 1.
    rewrite (align_run_unpack _ _ _ 1%nat _ _ ref comp rtSd mzSd
               refName compName s1 s2 out w2) by (done || lia).
    done.
  - unfold bind at 1.
    rewrite (align_run_unpack _ _ _ 0%nat _ _ ref comp rtSd mzSd
               refName compName s1 s2 out w2) by (done || lia).
    done.
Qed.

Lemma align_runs_raises fArray params nRef runs :
  (exists i, i ∈ runs /\ i <> refNo) ->
  forall indArray, never_returns (align_runs fArray params nRef runs indArray).
Proof.
  induction runs as [|j runs IH]; intros (i & Hin & Hne) indArray.
  { by apply elem_of_nil in Hin. }
  cbn [align_runs]. destruct (decide (j = refNo)) as [->|Hj].
  - apply elem_of_cons in Hin as [->|Hin]; [done|].
    intros w. unfold bind, align_run. rewrite Nat.eqb_refl. cbn.
    apply IH. by exists i.
  - apply never_bind_first. by apply align_run_raises.
Qed.

(** With a run beside the reference, alignFeatures does not return. *)
Lemma alignFeatures_raises fArray fNames params :
  (2 <= length fNames)%nat ->
  never_returns (alignFeatures fArray fNames params).
Proof.
  intros Hn. unfold alignFeatures.
  apply never_bind_any. intros nRef.
  apply never_bind_any. intros _.
  apply never_bind_first. apply align_runs_raises.
  destruct (decide (refNo = 0%nat)) as [->|Hne].
  - exists 1%nat. split; [|done]. apply elem_of_seq. lia.
  - exists 0%nat. split; [|done]. apply elem_of_seq. lia.
Qed.

(** A call of alignFeatures that returns has one run, the reference, and
    its table is a record array. *)
Lemma alignFeatures_Ok_single fArray fNames params w out w' :
  alignFeatures fArray fNames params w = (Ok out, w') ->
  length fNames = 1%nat /\ refNo = 0%nat /\
  exists names rows rest, fArray = RecArray names rows :: rest.
Proof.
  intros H.
  assert (Hn : ~ (2 <= length fNames)%nat).
  { intros Hn. destruct (alignFeatures_raises fArray fNames params Hn w)
      as (e & w1 & He). congruence. }
  unfold alignFeatures in H.
  apply bind_Ok in H as (nRef & w1 & _ & H).
  apply bind_Ok in H as (u & w2 & Hlt & H).
  apply lift_Ok in Hlt as [Hlt _].
  destruct (Nat.ltb_spec refNo (length fNames)) as [Hlt'|]; [|done].
  apply bind_Ok in H as (indArray & w3 & _ & H).
  apply bind_Ok in H as (u2 & w4 & _ & H).
  apply bind_Ok in H as (colNames & w5 & Hnames & H).
  apply lift_Ok in Hnames as [Hnames _].
  split; [lia|]. split; [lia|].
  unfold dtype_names, table_of in Hnames.
  destruct fArray as [|[rows|names rows] rest]; try done.
  by exists names, rows, rest.
Qed.

(** C8 (the code departs from it).  The threshold step, as it is written,
    leaves both tables as they are when pct_full_alignment is 100, and with
    two feature files and the value 50 moves every row of the partially
    aligned table with a feature in at least one run to the end of the
    fully aligned table.  But no call of alignFeatures on two runs, or on
    more, gets to the step: the first run beside the reference is handed
    to matchFeatures, whose result the statement of line 475 cannot unpack,
    and the call raises; it raises ValueError there when the two runs are
    DataFrames, the lines about them are printed and matchFeatures returns.
    A call that returns has a single run.  (Nor would the step find a row
    to move with two runs: the statements of lines 487 to 498 put no
    reference feature in the partially aligned set then.) *)
Theorem alignFeatures_threshold_not_reached :
  (forall (params : gmap string string) header full partial s w,
      params !! "pct_full_alignment" = Some s ->
      py_float s = Ok 100%float ->
      (promote params header full partial w).1 = Ok (full, partial)) /\
  (forall (params : gmap string string) header full partial s w
          full' partial' w',
      nFiles = 2%nat ->
      params !! "pct_full_alignment" = Some s ->
      py_float s = Ok 50%float ->
      promote params header full partial w = (Ok (full', partial'), w') ->
      full' = full ++ List.filter (in_a_run header) partial /\
      partial' = List.filter (fun row => negb (in_a_run header row)) partial) /\
  (forall fArray fNames params w,
      (2 <= length fNames)%nat ->
      exists e w', alignFeatures fArray fNames params w = (Raise e, w')) /\
  (forall fArray fNames params w ref comp rtSd mzSd refName compName s1 s2
          out w2,
      (2 <= length fNames)%nat -> (refNo < length fNames)%nat ->
      featureNames !! refNo = Some refName ->
      featureNames !! first_compared = Some compName ->
      py_format ": %d features (reference run)" [AInt (Z.of_nat (length ref))]
      = Ok s1 ->
      fArray !! refNo = Some (DataFrame ref) ->
      fArray !! first_compared = Some (DataFrame comp) ->
      py_format ": %d features (compared run)" [AInt (Z.of_nat (length comp))]
      = Ok s2 ->
      rtSdArray !! first_compared = Some rtSd ->
      mzSdArray !! first_compared = Some mzSd ->
      matchFeatures py_float ref comp rtSd mzSd params "align"
        (set_stdout
           (stdout w ++ [String.append "  " (String.append refName s1);
                         String.append "  " (String.append compName s2)]) w)
      = (Ok out, w2) ->
      alignFeatures fArray fNames params w = (Raise ValueError, w2)) /\
  (forall fArray fNames params w out w',
      alignFeatures fArray fNames params w = (Ok out, w') ->
      length fNames = 1%nat) /\
  (forall (indArray : list (list Z)) fullInd partialInd,
      (refNo < 2)%nat ->
      partition_indices refNo 2 indArray = Ok (fullInd, partialInd) ->
      partialInd = []).
Proof.
  split; [|split; [|split; [|split; [|split]]]].
  - intros params header full partial s w Hs Hf.
    by rewrite (promote_all params header full partial s w Hs Hf).
  - intros. by eapply promote_half_of_two.
  - intros fArray fNames params w Hn. by apply alignFeatures_raises.
  - intros. by eapply alignFeatures_unpack.
  - intros fArray fNames params w out w' H.
    by apply alignFeatures_Ok_single in H as [? _].
  - intros. by eapply partition_two_runs.
Qed.

End Align.

Module AlignExample.

Definition py_float (s : string) : result float :=
if String.eqb s "50" then Ok 50%float
else if String.eqb s "100" then Ok 100%float
else if String.eqb s "10" then Ok 10%float else Raise ValueError.

Definition py_format (fmt : string) (args : list pyarg) : result string :=
Ok fmt.

(** Two runs as the module reads them, DataFrames of three features each;
    the first is the reference, and calibration has left an RT-SD and an
    m/z-SD array for the second. *)
Definition fNames : list string := ["run1"; "run2"].
Definition fArray : list frame :=
[DataFrame MatchExample.ref; DataFrame MatchExample.comp].
Definition rtSdArray : list sd_arg := [SdScalar 0%float; SdArray 1%positive].
Definition mzSdArray : list sd_arg := [SdScalar 0%float; SdArray 2%positive].
Definition w0 : world := MatchExample.w0.

Definition half : gmap string string :=
<["sd_width" := "10"]> {[ "pct_full_alignment" := "50" ]}.
Definition all : gmap string string :=
<["sd_width" := "10"]> {[ "pct_full_alignment" := "100" ]}.

Definition run :=
alignFeatures py_float py_format 0 2 fNames rtSdArray mzSdArray
  fArray fNames half w0.

(** The call raises ValueError, after the two lines about the runs. *)
Lemma align_run_result : run = (Raise ValueError, run.2).
Proof. vm_compute. reflexivity. Qed.

Example align_run_stdout :
  stdout run.2
  = [ String.append "  " (String.append "run1" ": %d features (reference run)");
      String.append "  " (String.append "run2" ": %d features (compared run)") ].
Proof. vm_compute. reflexivity. Qed.

(** The call of matchFeatures in it returns: three pairs are matched. *)
Definition line1 : string :=
String.append "  " (String.append "run1" ": %d features (reference run)").
Definition line2 : string :=
String.append "  " (String.append "run2" ": %d features (compared run)").

Lemma matching_in_run_returns :
  matchFeatures py_float MatchExample.ref MatchExample.comp
    (SdArray 1%positive) (SdArray 2%positive) half "align"
    (set_stdout (stdout w0 ++ [line1; line2]) w0)
  = (Ok MatchExample.out, run.2).
Proof. vm_compute. reflexivity. Qed.

(** A partial table as three runs would give it: a feature in runs 1 and 2,
    and a row without a feature in any run. *)
Definition header : list string :=
["run1_index"; "run1_mz"; "run2_index"; "run2_mz"].
Definition full0 : table := [[1%float; 100%float; 1%float; 100%float]].
Definition partial0 : table :=
[ [2%float; 200%float; nan; nan]; [nan; nan; nan; nan] ].

Definition step :=
promote py_float py_format 2 half header full0 partial0 w0.

Lemma step_result :
  step = (Ok (full0 ++ [[2%float; 200%float; nan; nan]], [[nan; nan; nan; nan]]),
          step.2).
Proof. vm_compute. reflexivity. Qed.

Lemma alignFeatures_threshold_not_reached_witness :
  (promote py_float py_format 2 all header full0 partial0 w0).1
  = Ok (full0, partial0) /\
  (full0 ++ [[2%float; 200%float; nan; nan]]
   = full0 ++ List.filter (in_a_run header) partial0 /\
   [[nan; nan; nan; nan]]
   = List.filter (fun row => negb (in_a_run header row)) partial0) /\
  (exists e w', run = (Raise e, w')) /\
  run = (Raise ValueError, run.2).
Proof.
  pose proof (alignFeatures_threshold_not_reached py_float py_format 0 2
                fNames rtSdArray mzSdArray) as (H1 & H2 & H3 & H4 & _).
  split; [|split; [|split]].
  - apply (H1 all header full0 partial0 "100" w0); reflexivity.
  - apply (H2 half header full0 partial0 "50" w0 _ _ step.2);
      [reflexivity|reflexivity|reflexivity|exact step_result].
  - apply (H3 fArray fNames half w0). cbn. lia.
  - apply (H4 fArray fNames half w0 MatchExample.ref MatchExample.comp
              (SdArray 1%positive) (SdArray 2%positive) "run1" "run2"
              ": %d features (reference run)" ": %d features (compared run)"
              MatchExample.out run.2);
      first [reflexivity | exact matching_in_run_returns | cbn; lia].
Defined.

End AlignExample.

(** ** Calibration of a run against itself *)

Section ScalarTolerances.

Variable py_float : string -> result float.

Lemma bind_step {A B} (c : M A) (k : A -> M B) w a w1 :
  c w = (Ok a, w1) -> bind c k w = k a w1.
Proof. intros H. unfold bind. by rewrite H. Qed.

Lemma sd_floor_array l xs xs' w :
  arrays w !! l = Some xs -> zero_floor xs = Ok xs' ->
  sd_floor (SdArray l) w = (Ok tt, set_arrays (<[l := xs']> (arrays w)) w).
Proof.
  intros Hl Hz. unfold sd_floor, floor_in_place, bind, np_read, lift, np_write.
  by rewrite Hl, Hz.
Qed.

Lemma sd_times_array l xs x w :
  arrays w !! l = Some xs ->
  sd_times (SdArray l) x w = (Ok (map (fun y => (y * x)%float) xs), w).
Proof.
  intros Hl. unfold sd_times, bind, np_read, ret. by rewrite Hl.
Qed.

(** With scalar SDs the tolerances do not depend on the arrays of the
    caller: two new arrays are made, floored and scaled. *)
Lemma tolerances_scalars n a b (params : gmap string string) s sdw ra rb w :
  param params "sd_width" = Ok s -> py_float s = Ok sdw ->
  zero_floor (repeat a n) = Ok ra -> zero_floor (repeat b n) = Ok rb ->
  exists w1,
    tolerances py_float n (SdScalar a) (SdScalar b) params w
    = (Ok (map (fun x => (x * sdw)%float) ra,
           map (fun x => (x * sdw)%float) rb), w1).
Proof.
  intros Hs Hf Ha Hb. unfold tolerances.
  set (l1 := fresh (dom (arrays w))).
  set (w1 := set_arrays (<[l1 := repeat a n]> (arrays w)) w).
  set (l2 := fresh (dom (arrays w1))).
  set (w2 := set_arrays (<[l2 := repeat b n]> (arrays w1)) w1).
  set (w3 := set_arrays (<[l1 := ra]> (arrays w2)) w2).
  set (w4 := set_arrays (<[l2 := rb]> (arrays w3)) w3).
  assert (Hne : l1 <> l2).
  { intros Heq. assert (Hin : l1 ∈ dom (arrays w1))
      by (apply elem_of_dom; exists (repeat a n); apply lookup_insert_eq).
    rewrite Heq in Hin. by apply is_fresh in Hin. }
  assert (H1 : arrays w2 !! l1 = Some (repeat a n)).
  { unfold w2. rewrite arrays_set_arrays, lookup_insert_ne by done.
    apply lookup_insert_eq. }
  assert (H2 : arrays w3 !! l2 = Some (repeat b n)).
  { unfold w3. rewrite arrays_set_arrays, lookup_insert_ne by done.
    apply lookup_insert_eq. }
  assert (H3 : arrays w4 !! l1 = Some ra).
  { unfold w4. rewrite arrays_set_arrays, lookup_insert_ne by done.
    apply lookup_insert_eq. }
  assert (H4 : arrays w4 !! l2 = Some rb) by apply lookup_insert_eq.
  exists w4.
  rewrite (bind_step _ _ w (SdArray l1) w1) by reflexivity.
  rewrite (bind_step _ _ w1 (SdArray l2) w2) by reflexivity.
  rewrite (bind_step _ _ w2 tt w3) by (exact (sd_floor_array _ _ _ _ H1 Ha)).
  rewrite (bind_step _ _ w3 tt w4) by (exact (sd_floor_array _ _ _ _ H2 Hb)).
  rewrite (bind_step _ _ w4 sdw w4)
    by (unfold lift; rewrite Hs; cbn [rbind]; by rewrite Hf).
  rewrite (bind_step _ _ w4 _ w4) by (exact (sd_times_array _ _ _ _ H3)).
  rewrite (bind_step _ _ w4 _ w4) by (exact (sd_times_array _ _ _ _ H4)).
  reflexivity.
Qed.

Lemma findMatchedSubset_scalars ref comp a b (params : gmap string string)
    s sdw ra rb w :
  param params "sd_width" = Ok s -> py_float s = Ok sdw ->
  zero_floor (repeat a (length (sort_values_intensity ref))) = Ok ra ->
  zero_floor (repeat b (length (sort_values_intensity ref))) = Ok rb ->
  exists w1,
    findMatchedSubset py_float ref comp (SdScalar a) (SdScalar b) params w
    = (subset_loop (map (fun x => (x * sdw)%float) ra)
                   (map (fun x => (x * sdw)%float) rb) 0
                   (sort_values_intensity ref)
                   (labelled (sort_values_intensity comp)), w1).
Proof.
  intros Hs Hf Ha Hb. unfold findMatchedSubset.
  destruct (tolerances_scalars _ a b params s sdw ra rb w Hs Hf Ha Hb)
    as (w1 & Ht).
  exists w1. unfold bind. by rewrite Ht.
Qed.

End ScalarTolerances.

Section IdenticalRuns.

Variable py_float : string -> result float.
Variable py_int : string -> result Z.
Variable py_format : string -> list pyarg -> result string.
Variable np_percentile : list float -> float -> result float.
Variable np_median : list float -> float.
Variable np_std1 : list float -> float.
Variable std_normal : nat -> float.
Variable r_model : Type.
Variable loess_as : list float -> list float -> result r_model.
Variable r_fitted : r_model -> list float.
Variable r_predict : r_model -> float -> float.

(** A pass on the RT axis in which every matched pair has one RT raises in
    every world, when the SDs it is given are scalars. *)
Lemma localCalibration_rt_guard_never ref comp a b
    (params : gmap string string) s sdw ra rb subDf :
  param params "sd_width" = Ok s -> py_float s = Ok sdw ->
  zero_floor (repeat a (length (sort_values_intensity ref))) = Ok ra ->
  zero_floor (repeat b (length (sort_values_intensity ref))) = Ok rb ->
  subset_loop (map (fun x => (x * sdw)%float) ra)
              (map (fun x => (x * sdw)%float) rb) 0
              (sort_values_intensity ref)
              (labelled (sort_values_intensity comp)) = Ok subDf ->
  subDf <> [] ->
  all_equal (map refRt subDf) (map compRt subDf) = true ->
  never_returns
    (localCalibration py_float np_percentile std_normal r_model loess_as
       r_fitted r_predict ref comp (SdScalar a) (SdScalar b) params "RT").
Proof.
  intros Hs Hf Ha Hb Hloop Hne Heq w.
  destruct (findMatchedSubset_scalars py_float ref comp a b params s sdw ra rb
              (set_lc_passes (lc_passes w ++ ["RT"]) w) Hs Hf Ha Hb)
    as (w1 & Hsub).
  rewrite Hloop in Hsub. exists TypeError. eexists.
  by eapply localCalibration_rt_guard_raises.
Qed.

(** What is known of the outside functions: the parameter strings parse,
    and the 10th and 90th percentile, the median and the standard
    deviation of a sample of five zeros are zero. *)
Definition zeros5 : list float := [0%float; 0%float; 0%float; 0%float; 0%float].

Hypothesis float_10 : py_float "10" = Ok 10%float.
Hypothesis int_20 : py_int "20" = Ok 20.
Hypothesis int_10 : py_int "10" = Ok 10.
Hypothesis percentile_10 : np_percentile zeros5 10%float = Ok 0%float.
Hypothesis percentile_90 : np_percentile zeros5 90%float = Ok 0%float.
Hypothesis median_zeros : np_median zeros5 = 0%float.
Hypothesis std_zeros : np_std1 zeros5 = 0%float.

Lemma globalCalibration_identical :
  globalCalibration np_percentile
    (sort_values_intensity CalibrationExample.ref)
    (sort_values_intensity CalibrationExample.ref) 20
  = Ok (zeros5, zeros5).
Proof using percentile_10 percentile_90.
  unfold globalCalibration.
  replace (py_round _) with (@Ok Z 5) by (vm_compute; reflexivity).
  cbn [rbind].
  replace (global_scan _ _ _ _ _ _ _) with (Ok (zeros5, zeros5))
    by (vm_compute; reflexivity).
  cbn [rbind fst snd]. unfold trim_10_90.
  rewrite percentile_10, percentile_90.
  reflexivity.
Qed.

(** C7 (the code departs from it).  When the comparison table is the
    reference table (here a hundred features), the shift samples of
    globalCalibration are zero, all of them; and calibrateFeatures does not
    return the features unchanged: it raises, in every world, because the
    first local pass finds every matched pair at one RT and its guard hands
    one float to the regression. *)
Theorem calibrateFeatures_identical_runs_raises :
  globalCalibration np_percentile
    (sort_values_intensity CalibrationExample.ref)
    (sort_values_intensity CalibrationExample.ref) 20
  = Ok (zeros5, zeros5) /\
  never_returns
    (calibrateFeatures py_float py_int py_format np_percentile np_median
       np_std1 std_normal r_model loess_as r_fitted r_predict
       CalibrationExample.params CalibrationExample.ref CalibrationExample.ref
       CalibrationExample.params).
Proof using All.
  split; [exact globalCalibration_identical|].
  unfold calibrateFeatures.
  apply never_bind_lift with (v := 20).
  { replace (param _ _) with (@Ok string "20") by (vm_compute; reflexivity).
    exact int_20. }
  apply never_bind_lift with (v := 10).
  { replace (param _ _) with (@Ok string "10") by (vm_compute; reflexivity).
    exact int_10. }
  cbv zeta. apply never_bind_any; intros _.
  apply never_bind_lift with (v := (zeros5, zeros5));
    [exact globalCalibration_identical|].
  cbn [fst snd]. rewrite median_zeros, std_zeros.
  do 8 (apply never_bind_any; intros _).
  apply never_bind_first.
  eapply localCalibration_rt_guard_never.
  - vm_compute. reflexivity.
  - exact float_10.
  - vm_compute. reflexivity.
  - vm_compute. reflexivity.
  - vm_compute. reflexivity.
  - discriminate.
  - vm_compute. reflexivity.
Qed.

End IdenticalRuns.

Module IdenticalExample.

Import CalibrationExample.

Lemma calibrateFeatures_identical_runs_raises_witness :
  globalCalibration np_percentile (sort_values_intensity ref)
    (sort_values_intensity ref) 20
  = Ok (zeros5, zeros5) /\
  never_returns
    (calibrateFeatures py_float py_int py_format np_percentile np_median
       np_std1 std_normal r_model loess_as r_fitted r_predict
       params ref ref params).
Proof.
  apply (calibrateFeatures_identical_runs_raises py_float py_int py_format
           np_percentile np_median np_std1 std_normal r_model loess_as
           r_fitted r_predict);
    vm_compute; reflexivity.
Defined.

End IdenticalExample.

(** * Further properties of the module

    What follows is about the same functions and the code around them:
    their errors and edge cases, what they keep, and how they compose. *)

(** ** More on the zero floor *)

(** Flooring a floored array changes nothing. *)
Theorem zero_floor_idempotent (sd sd' : list float) :
  zero_floor sd = Ok sd' -> zero_floor sd' = Ok sd'.
Proof.
  intros H. pose proof (zero_floor_no_zero _ _ H) as Hnz.
  destruct (zero_floor_shape _ _ H) as (m & Hm & Heq).
  assert (Hpos : exists x, x ∈ sd /\ F.is_pos x = true).
  { destruct (List.filter F.is_pos sd) as [|x rest] eqn:Hf; [done|].
    exists x. apply head_filter_in in Hf. tauto. }
  destruct Hpos as (x & Hx & Hxp).
  assert (Hx' : x ∈ sd').
  { rewrite Heq. apply list_elem_of_fmap. exists x. split; [|done].
    by rewrite (is_pos_not_zero _ Hxp). }
  destruct (zero_floor_min sd' x Hx' Hxp) as (m' & Hm' & _).
  assert (Hex : zero_floor sd'
                = Ok (map (fun y => if F.is_zero y then m' else y) sd'))
    by (unfold zero_floor; by rewrite Hm').
  rewrite Hex. f_equal. by eapply zero_floor_fixed.
Qed.

Section MatchingMore.

Variable py_float : string -> result float.

Lemma matchFeatures_Ok ref comp rtSd mzSd params step w out w' :
  matchFeatures py_float ref comp rtSd mzSd params step w = (Ok out, w') ->
  exists rtTol mzTol,
    tolerances py_float (length (sort_values_intensity ref)) rtSd mzSd params w
    = (Ok (rtTol, mzTol), w') /\
    match_loop rtTol mzTol 0 (sort_values_intensity ref)
               (labelled (sort_values_intensity comp)) = Ok out.
Proof.
  unfold matchFeatures. intros H.
  apply bind_Ok in H as ([rtTol mzTol] & w1 & Ht & H).
  apply lift_Ok in H as [H ->]. by exists rtTol, mzTol.
Qed.

Lemma findMatchedSubset_Ok ref comp rtSd mzSd params w sub w' :
  findMatchedSubset py_float ref comp rtSd mzSd params w = (Ok sub, w') ->
  exists rtTol mzTol,
    tolerances py_float (length (sort_values_intensity ref)) rtSd mzSd params w
    = (Ok (rtTol, mzTol), w') /\
    subset_loop rtTol mzTol 0 (sort_values_intensity ref)
                (labelled (sort_values_intensity comp)) = Ok sub.
Proof.
  unfold findMatchedSubset. intros H.
  apply bind_Ok in H as ([rtTol mzTol] & w1 & Ht & H).
  apply lift_Ok in H as [H ->]. by exists rtTol, mzTol.
Qed.

(** X1.  The flooring is done once: an SD array that a returning call of
    matchFeatures has floored is left as it is by every later returning
    call of matchFeatures or findMatchedSubset that is passed the array. *)
Theorem sd_array_floored_once ref comp rtSd mzSd params step w out w1 l sd :
  arrays w !! l = Some sd ->
  rtSd = SdArray l \/ mzSd = SdArray l ->
  matchFeatures py_float ref comp rtSd mzSd params step w = (Ok out, w1) ->
  (forall ref2 comp2 rtSd2 mzSd2 params2 step2 out2 w2,
      rtSd2 = SdArray l \/ mzSd2 = SdArray l ->
      matchFeatures py_float ref2 comp2 rtSd2 mzSd2 params2 step2 w1
      = (Ok out2, w2) ->
      arrays w2 !! l = arrays w1 !! l) /\
  (forall ref2 comp2 rtSd2 mzSd2 params2 sub2 w2,
      rtSd2 = SdArray l \/ mzSd2 = SdArray l ->
      findMatchedSubset py_float ref2 comp2 rtSd2 mzSd2 params2 w1
      = (Ok sub2, w2) ->
      arrays w2 !! l = arrays w1 !! l).
Proof.
  intros Hl Harg H.
  apply matchFeatures_Ok in H as (rtTol & mzTol & Ht & _).
  destruct (tolerances_arrays _ _ _ _ _ _ _ _ _ _ Ht Hl) as [Hfl _].
  destruct (Hfl Harg) as (sd' & Hz & Hl1).
  assert (Hnext : forall n rtSd2 mzSd2 params2 t w2,
             rtSd2 = SdArray l \/ mzSd2 = SdArray l ->
             tolerances py_float n rtSd2 mzSd2 params2 w1 = (Ok t, w2) ->
             arrays w2 !! l = arrays w1 !! l).
  { intros n rtSd2 mzSd2 params2 t w2 Harg2 Ht2.
    destruct (tolerances_arrays _ _ _ _ _ _ _ _ _ _ Ht2 Hl1) as [Hfl2 _].
    destruct (Hfl2 Harg2) as (sd'' & Hz2 & Hl2).
    by rewrite Hl1, Hl2, (zero_floor_idem _ _ _ Hz Hz2). }
  split.
  - intros ref2 comp2 rtSd2 mzSd2 params2 step2 out2 w2 Harg2 H2.
    apply matchFeatures_Ok in H2 as (rtTol2 & mzTol2 & Ht2 & _).
    by eapply Hnext.
  - intros ref2 comp2 rtSd2 mzSd2 params2 sub2 w2 Harg2 H2.
    apply findMatchedSubset_Ok in H2 as (rtTol2 & mzTol2 & Ht2 & _).
    by eapply Hnext.
Qed.

(** An array without a positive entry cannot be floored. *)
Lemma zero_floor_no_positive (sd : list float) :
  Forall (fun x => F.is_pos x = false) sd -> zero_floor sd = Raise ValueError.
Proof.
  intros Hnp. unfold zero_floor.
  assert (Hf : List.filter F.is_pos sd = []).
  { induction Hnp as [|x l Hx _ IH]; cbn; [done|]. by rewrite Hx. }
  by rewrite Hf.
Qed.

Lemma tolerances_no_positive n l mzSd params w sd :
  arrays w !! l = Some sd ->
  Forall (fun x => F.is_pos x = false) sd ->
  exists w',
    tolerances py_float n (SdArray l) mzSd params w = (Raise ValueError, w') /\
    arrays w' !! l = Some sd.
Proof.
  intros Hl Hnp. unfold tolerances.
  rewrite (bind_step _ _ w (SdArray l) w) by reflexivity.
  destruct (sd_repeat mzSd n w) as [[mz1|e] w1] eqn:Hr.
  - pose proof (sd_repeat_Ok _ _ _ _ _ Hr) as [Hag _].
    rewrite (bind_step _ _ w mz1 w1) by exact Hr.
    exists w1. split; [|by apply Hag].
    unfold bind at 1, sd_floor, floor_in_place, bind at 1, np_read.
    rewrite (Hag _ _ Hl). unfold bind at 1, lift.
    by rewrite (zero_floor_no_positive _ Hnp).
  - destruct mzSd; cbn in Hr; unfold bind, np_new, ret in Hr; cbn in Hr; done.
Qed.

(** X2.  When the array passed as [rtSd] has no positive entry (it is empty,
    or all zeros), matchFeatures and findMatchedSubset raise ValueError, and
    the array is as it was. *)
Theorem no_positive_sd_raises ref comp l mzSd params step w sd :
  arrays w !! l = Some sd ->
  Forall (fun x => F.is_pos x = false) sd ->
  (exists w', matchFeatures py_float ref comp (SdArray l) mzSd params step w
              = (Raise ValueError, w') /\ arrays w' !! l = Some sd) /\
  (exists w', findMatchedSubset py_float ref comp (SdArray l) mzSd params w
              = (Raise ValueError, w') /\ arrays w' !! l = Some sd).
Proof.
  intros Hl Hnp. split.
  - destruct (tolerances_no_positive (length (sort_values_intensity ref))
                l mzSd params w sd Hl Hnp) as (w' & Ht & Hl').
    exists w'. split; [|done]. unfold matchFeatures, bind. by rewrite Ht.
  - destruct (tolerances_no_positive (length (sort_values_intensity ref))
                l mzSd params w sd Hl Hnp) as (w' & Ht & Hl').
    exists w'. split; [|done]. unfold findMatchedSubset, bind. by rewrite Ht.
Qed.

(** X3.  On an empty reference table with a scalar [rtSd], matchFeatures and
    findMatchedSubset raise ValueError: [np.repeat] makes an array of no
    entry, which has no positive minimum. *)
Theorem empty_reference_raises comp a mzSd params step w :
  (exists w', matchFeatures py_float [] comp (SdScalar a) mzSd params step w
              = (Raise ValueError, w')) /\
  (exists w', findMatchedSubset py_float [] comp (SdScalar a) mzSd params w
              = (Raise ValueError, w')).
Proof.
  assert (Ht : exists w',
             tolerances py_float 0 (SdScalar a) mzSd params w
             = (Raise ValueError, w')).
  { unfold tolerances.
    set (l := fresh (dom (arrays w))).
    set (w1 := set_arrays (<[l := []]> (arrays w)) w).
    rewrite (bind_step _ _ w (SdArray l) w1) by reflexivity.
    destruct (sd_repeat mzSd 0 w1) as [[mz1|e] w2] eqn:Hr.
    - pose proof (sd_repeat_Ok _ _ _ _ _ Hr) as [Hag _].
      rewrite (bind_step _ _ w1 mz1 w2) by exact Hr.
      exists w2.
      unfold bind at 1, sd_floor, floor_in_place, bind at 1, np_read.
      rewrite (Hag l []) by apply lookup_insert_eq.
      reflexivity.
    - destruct mzSd; cbn in Hr; unfold bind, np_new, ret in Hr; cbn in Hr; done. }
  destruct Ht as (w' & Ht). split; exists w'.
  - unfold matchFeatures, bind. cbn [sort_values_intensity foldr length].
    by rewrite Ht.
  - unfold findMatchedSubset, bind. cbn [sort_values_intensity foldr length].
    by rewrite Ht.
Qed.

(** *** The tolerances *)

(** What [tolerances] returns: the two SD arrays as the store holds them
    afterwards, without a zero entry, times [sd_width]. *)
Lemma tolerances_values n rtSd mzSd (params : gmap string string) w
    rtTol mzTol w' :
  tolerances py_float n rtSd mzSd params w = (Ok (rtTol, mzTol), w') ->
  exists l1 l2 a1 a2 s sdw,
    param params "sd_width" = Ok s /\ py_float s = Ok sdw /\
    arrays w' !! l1 = Some a1 /\ arrays w' !! l2 = Some a2 /\
    rtTol = map (fun x => (x * sdw)%float) a1 /\
    mzTol = map (fun x => (x * sdw)%float) a2 /\
    (rtSd = SdArray l1 \/ exists x, rtSd = SdScalar x) /\
    (mzSd = SdArray l2 \/ exists x, mzSd = SdScalar x).
Proof.
  unfold tolerances. intros H.
  apply bind_Ok in H as (rt1 & w1 & Hr1 & H).
  apply bind_Ok in H as (mz1 & w2 & Hr2 & H).
  apply bind_Ok in H as (u1 & w3 & Hf1 & H).
  apply bind_Ok in H as (u2 & w4 & Hf2 & H).
  apply bind_Ok in H as (sdw & w5 & Hw & H).
  apply bind_Ok in H as (rtTol' & w6 & Ht1 & H).
  apply bind_Ok in H as (mzTol' & w7 & Ht2 & H).
  apply ret_Ok in H as [Heq Hw']. injection Heq as -> ->.
  pose proof (sd_times_world _ _ _ _ _ Ht1) as E1.
  pose proof (sd_times_world _ _ _ _ _ Ht2) as E2.
  apply lift_Ok in Hw as [Hw E3].
  assert (E : w5 = w') by congruence.
  assert (E6 : w6 = w') by congruence.
  rewrite E in Ht1. rewrite E6 in Ht2. clear E1 E2 E3 E E6 Hw'.
  apply rbind_Ok in Hw as (s & Hs & Hf).
  apply sd_repeat_Ok in Hr1 as [_ Hrt].
  apply sd_repeat_Ok in Hr2 as [_ Hmz].
  apply sd_floor_Ok in Hf1 as (l1 & b1 & b1' & -> & _ & _ & _).
  apply sd_floor_Ok in Hf2 as (l2 & b2 & b2' & -> & _ & _ & _).
  unfold sd_times, bind, np_read, ret in Ht1, Ht2.
  destruct (arrays w' !! l1) as [a1|] eqn:Ha1; [|done].
  destruct (arrays w' !! l2) as [a2|] eqn:Ha2; [|done].
  injection Ht1 as <-. injection Ht2 as <-.
  exists l1, l2, a1, a2, s, sdw. repeat split; try done.
  - destruct Hrt as [<-|(x & l0 & -> & _)]; [by left|right; by exists x].
  - destruct Hmz as [<-|(x & l0 & -> & _)]; [by left|right; by exists x].
Qed.

Lemma zero_floor_length sd sd' : zero_floor sd = Ok sd' -> length sd' = length sd.
Proof.
  intros H. destruct (zero_floor_shape _ _ H) as (m & _ & ->).
  apply length_map.
Qed.

(** An SD array passed by address gives one tolerance per entry. *)
Lemma tolerances_length_rt n l mzSd params w rtTol mzTol w' sd :
  tolerances py_float n (SdArray l) mzSd params w = (Ok (rtTol, mzTol), w') ->
  arrays w !! l = Some sd ->
  length rtTol = length sd.
Proof.
  intros Ht Hl.
  destruct (tolerances_values _ _ _ _ _ _ _ _ Ht)
    as (l1 & l2 & a1 & a2 & s & sdw & _ & _ & Ha1 & _ & -> & _ & Hrt & _).
  destruct (tolerances_arrays _ _ _ _ _ _ _ _ _ _ Ht Hl) as [Hfl _].
  destruct (Hfl (or_introl eq_refl)) as (sd' & Hz & Hl').
  destruct Hrt as [[= <-]|(x & [=])].
  rewrite length_map. apply zero_floor_length in Hz. congruence.
Qed.

Lemma tolerances_length_mz n rtSd l params w rtTol mzTol w' sd :
  tolerances py_float n rtSd (SdArray l) params w = (Ok (rtTol, mzTol), w') ->
  arrays w !! l = Some sd ->
  length mzTol = length sd.
Proof.
  intros Ht Hl.
  destruct (tolerances_values _ _ _ _ _ _ _ _ Ht)
    as (l1 & l2 & a1 & a2 & s & sdw & _ & _ & _ & Ha2 & _ & -> & _ & Hmz).
  destruct (tolerances_arrays _ _ _ _ _ _ _ _ _ _ Ht Hl) as [Hfl _].
  destruct (Hfl (or_intror eq_refl)) as (sd' & Hz & Hl').
  destruct Hmz as [[= <-]|(x & [=])].
  rewrite length_map. apply zero_floor_length in Hz. congruence.
Qed.

(** *** Bounds of the loop *)

Lemma match_loop_short rtTol mzTol refs :
  forall i pool,
    (i <= length rtTol)%nat -> (i <= length mzTol)%nat ->
    (length rtTol < i + length refs)%nat \/
    (length mzTol < i + length refs)%nat ->
    match_loop rtTol mzTol i refs pool = Raise IndexError.
Proof.
  induction refs as [|r refs IH]; intros i pool H1 H2 Hlen; cbn in *; [lia|].
  unfold np_get.
  destruct (rtTol !! i) as [rt|] eqn:Hrt; [cbn [rbind]|done].
  destruct (mzTol !! i) as [mt|] eqn:Hmt; [cbn [rbind]|done].
  apply lookup_lt_Some in Hrt, Hmt.
  destruct (match_choice rt mt r pool) as [[l c]|].
  - rewrite IH by lia. done.
  - apply IH; lia.
Qed.

Lemma match_loop_long rtTol mzTol refs :
  forall i pool,
    (i + length refs <= length rtTol)%nat ->
    (i + length refs <= length mzTol)%nat ->
    exists out, match_loop rtTol mzTol i refs pool = Ok out.
Proof.
  induction refs as [|r refs IH]; intros i pool H1 H2; cbn in *; [by eexists|].
  unfold np_get.
  destruct (lookup_lt_is_Some_2 rtTol i) as [rt Hrt]; [lia|].
  destruct (lookup_lt_is_Some_2 mzTol i) as [mt Hmt]; [lia|].
  rewrite Hrt, Hmt. cbn [rbind].
  destruct (match_choice rt mt r pool) as [[l c]|].
  - destruct (IH (S i) (drop_label l pool)) as [rest Hrest]; [lia|lia|].
    rewrite Hrest. by eexists.
  - apply IH; lia.
Qed.

Lemma subset_loop_short rtTol mzTol refs :
  forall i pool,
    (i <= length rtTol)%nat -> (i <= length mzTol)%nat ->
    (length rtTol < i + length refs)%nat \/
    (length mzTol < i + length refs)%nat ->
    subset_loop rtTol mzTol i refs pool = Raise IndexError.
Proof.
  induction refs as [|r refs IH]; intros i pool H1 H2 Hlen; cbn in *; [lia|].
  unfold np_get.
  destruct (rtTol !! i) as [rt|] eqn:Hrt; [cbn [rbind]|done].
  destruct (mzTol !! i) as [mt|] eqn:Hmt; [cbn [rbind]|done].
  apply lookup_lt_Some in Hrt, Hmt.
  destruct (subset_choice rt mt r pool) as [[l c]|].
  - rewrite IH by lia. done.
  - apply IH; lia.
Qed.

Lemma subset_loop_long rtTol mzTol refs :
  forall i pool,
    (i + length refs <= length rtTol)%nat ->
    (i + length refs <= length mzTol)%nat ->
    exists out, subset_loop rtTol mzTol i refs pool = Ok out.
Proof.
  induction refs as [|r refs IH]; intros i pool H1 H2; cbn in *; [by eexists|].
  unfold np_get.
  destruct (lookup_lt_is_Some_2 rtTol i) as [rt Hrt]; [lia|].
  destruct (lookup_lt_is_Some_2 mzTol i) as [mt Hmt]; [lia|].
  rewrite Hrt, Hmt. cbn [rbind].
  destruct (subset_choice rt mt r pool) as [[l c]|].
  - destruct (IH (S i) pool) as [rest Hrest]; [lia|lia|].
    rewrite Hrest. by eexists.
  - apply IH; lia.
Qed.

(** *** The tolerances from the arguments *)

(** The entries that an SD argument stands for in a call on a reference
    table of [n] rows: [n] copies of a scalar, or the array as the store
    holds it.  A Python list has none (the flooring refuses it). *)
Definition sd_entries (w : world) (n : nat) (sd : sd_arg) : option (list float) :=
  match sd with
  | SdScalar x => Some (repeat x n)
  | SdArray l => arrays w !! l
  | SdList _ => None
  end.

Definition has_pos (xs : list float) : Prop :=
  exists x, x ∈ xs /\ F.is_pos x = true.

Lemma zero_floor_has_pos xs :
  has_pos xs -> exists xs', zero_floor xs = Ok xs'.
Proof.
  intros (x & Hx & Hp).
  destruct (zero_floor_min xs x Hx Hp) as (m & Hm & _).
  unfold zero_floor. rewrite Hm. by eexists.
Qed.

Lemma sd_repeat_entries sd n w xs :
  sd_entries w n sd = Some xs ->
  exists l w1, sd_repeat sd n w = (Ok (SdArray l), w1) /\
               arrays w1 !! l = Some xs /\ agree_on w w1 /\
               (sd = SdArray l \/ arrays w !! l = None).
Proof.
  destruct sd as [x|l|ys]; cbn; [| |done].
  - intros [= <-]. unfold bind, np_new, ret.
    eexists _, _. split; [done|]. split; [apply lookup_insert_eq|].
    split; [|right; apply not_elem_of_dom, is_fresh].
    intros l sd Hl. rewrite arrays_set_arrays, lookup_insert_ne; [done|].
    intros <-. apply elem_of_dom_2 in Hl. by apply is_fresh in Hl.
  - intros H. exists l, w. split; [done|]. split; [done|]. split; [|by left].
    by intros ??.
Qed.

Lemma sd_entries_agree w w1 n sd xs :
  agree_on w w1 -> sd_entries w n sd = Some xs -> sd_entries w1 n sd = Some xs.
Proof. intros Hag. destruct sd; cbn; [done|apply Hag|done]. Qed.

(** The tolerances of a call, read off its arguments: the entries of each
    SD, floored, times [sd_width]. *)
Lemma tolerances_exact n rtSd mzSd (params : gmap string string) w s sdw
    xs1 xs2 xs1' xs2' :
  sd_entries w n rtSd = Some xs1 -> sd_entries w n mzSd = Some xs2 ->
  zero_floor xs1 = Ok xs1' -> zero_floor xs2 = Ok xs2' ->
  param params "sd_width" = Ok s -> py_float s = Ok sdw ->
  exists w',
    tolerances py_float n rtSd mzSd params w
    = (Ok (map (fun x => (x * sdw)%float) xs1',
           map (fun x => (x * sdw)%float) xs2'), w').
Proof.
  intros He1 He2 Hz1 Hz2 Hs Hf. unfold tolerances.
  destruct (sd_repeat_entries _ _ _ _ He1) as (l1 & w1 & Hr1 & Hl1 & Hag1 & Hn1).
  pose proof (sd_entries_agree _ _ _ _ _ Hag1 He2) as He2'.
  destruct (sd_repeat_entries _ _ _ _ He2') as (l2 & w2 & Hr2 & Hl2 & Hag2 & Hn2).
  pose proof (Hag2 _ _ Hl1) as Hl1'.
  set (w3 := set_arrays (<[l1 := xs1']> (arrays w2)) w2).
  rewrite (bind_step _ _ w (SdArray l1) w1) by exact Hr1.
  rewrite (bind_step _ _ w1 (SdArray l2) w2) by exact Hr2.
  rewrite (bind_step _ _ w2 tt w3) by (exact (sd_floor_array _ _ _ _ Hl1' Hz1)).
  destruct (decide (l1 = l2)) as [Heq|Hne].
  - subst l2. assert (xs2 = xs1) by congruence. subst xs2.
    assert (xs2' = xs1') by congruence. subst xs2'.
    assert (H3 : arrays w3 !! l1 = Some xs1') by apply lookup_insert_eq.
    assert (Hz3 : zero_floor xs1' = Ok xs1').
    { destruct (zero_floor_has_pos xs1') as [ys Hys].
      - destruct (zero_floor_shape _ _ Hz1) as (m & Hm & Heq).
        destruct (List.filter F.is_pos xs1) as [|x rest] eqn:Hfil; [done|].
        apply head_filter_in in Hfil as [Hin Hp].
        exists x. split; [|done]. rewrite Heq. apply list_elem_of_fmap.
        exists x. split; [|done]. by rewrite (is_pos_not_zero _ Hp).
      - by rewrite Hys, (zero_floor_idem _ _ _ Hz1 Hys). }
    set (w4 := set_arrays (<[l1 := xs1']> (arrays w3)) w3).
    assert (H4 : arrays w4 !! l1 = Some xs1') by apply lookup_insert_eq.
    exists w4.
    rewrite (bind_step _ _ w3 tt w4) by (exact (sd_floor_array _ _ _ _ H3 Hz3)).
    rewrite (bind_step _ _ w4 sdw w4)
      by (unfold lift; rewrite Hs; cbn [rbind]; by rewrite Hf).
    rewrite (bind_step _ _ w4 _ w4) by (exact (sd_times_array _ _ _ _ H4)).
    rewrite (bind_step _ _ w4 _ w4) by (exact (sd_times_array _ _ _ _ H4)).
    reflexivity.
  - assert (H3 : arrays w3 !! l2 = Some xs2).
    { unfold w3. by rewrite arrays_set_arrays, lookup_insert_ne. }
    set (w4 := set_arrays (<[l2 := xs2']> (arrays w3)) w3).
    assert (H4 : arrays w4 !! l1 = Some xs1').
    { unfold w4. rewrite arrays_set_arrays, lookup_insert_ne by done.
      apply lookup_insert_eq. }
    assert (H5 : arrays w4 !! l2 = Some xs2') by apply lookup_insert_eq.
    exists w4.
    rewrite (bind_step _ _ w3 tt w4) by (exact (sd_floor_array _ _ _ _ H3 Hz2)).
    rewrite (bind_step _ _ w4 sdw w4)
      by (unfold lift; rewrite Hs; cbn [rbind]; by rewrite Hf).
    rewrite (bind_step _ _ w4 _ w4) by (exact (sd_times_array _ _ _ _ H4)).
    rewrite (bind_step _ _ w4 _ w4) by (exact (sd_times_array _ _ _ _ H5)).
    reflexivity.
Qed.

(** Both functions run their loop on these tolerances. *)
Lemma matching_exact ref comp rtSd mzSd (params : gmap string string) step w
    s sdw xs1 xs2 xs1' xs2' :
  sd_entries w (length ref) rtSd = Some xs1 ->
  sd_entries w (length ref) mzSd = Some xs2 ->
  zero_floor xs1 = Ok xs1' -> zero_floor xs2 = Ok xs2' ->
  param params "sd_width" = Ok s -> py_float s = Ok sdw ->
  exists w',
    matchFeatures py_float ref comp rtSd mzSd params step w
    = (match_loop (map (fun x => (x * sdw)%float) xs1')
                  (map (fun x => (x * sdw)%float) xs2') 0
                  (sort_values_intensity ref)
                  (labelled (sort_values_intensity comp)), w') /\
    findMatchedSubset py_float ref comp rtSd mzSd params w
    = (subset_loop (map (fun x => (x * sdw)%float) xs1')
                   (map (fun x => (x * sdw)%float) xs2') 0
                   (sort_values_intensity ref)
                   (labelled (sort_values_intensity comp)), w').
Proof.
  intros He1 He2 Hz1 Hz2 Hs Hf.
  pose proof (Permutation_length (sort_values_intensity_perm ref)) as Hp.
  rewrite <- Hp in He1, He2.
  destruct (tolerances_exact _ _ _ _ w _ _ _ _ _ _ He1 He2 Hz1 Hz2 Hs Hf)
    as (w' & Ht).
  exists w'. unfold matchFeatures, findMatchedSubset, bind.
  by rewrite Ht.
Qed.

(** X4.  An SD with fewer entries than the reference table has rows makes
    matchFeatures and findMatchedSubset raise IndexError, once the flooring
    and [sd_width] have gone through. *)
Theorem short_sd_raises ref comp rtSd mzSd (params : gmap string string) step w
    s sdw xs1 xs2 :
  sd_entries w (length ref) rtSd = Some xs1 ->
  sd_entries w (length ref) mzSd = Some xs2 ->
  has_pos xs1 -> has_pos xs2 ->
  param params "sd_width" = Ok s -> py_float s = Ok sdw ->
  (length xs1 < length ref)%nat \/ (length xs2 < length ref)%nat ->
  exists w',
    matchFeatures py_float ref comp rtSd mzSd params step w
    = (Raise IndexError, w') /\
    findMatchedSubset py_float ref comp rtSd mzSd params w
    = (Raise IndexError, w').
Proof.
  intros He1 He2 Hp1 Hp2 Hs Hf Hlen.
  destruct (zero_floor_has_pos _ Hp1) as [xs1' Hz1].
  destruct (zero_floor_has_pos _ Hp2) as [xs2' Hz2].
  destruct (matching_exact ref comp _ _ _ step w _ _ _ _ _ _
              He1 He2 Hz1 Hz2 Hs Hf) as (w' & Hm & Hsub).
  pose proof (Permutation_length (sort_values_intensity_perm ref)) as Hperm.
  apply zero_floor_length in Hz1, Hz2.
  exists w'. rewrite Hm, Hsub.
  rewrite match_loop_short, subset_loop_short; [done| | | | | |];
    rewrite ?length_map; lia.
Qed.

(** Both loops are total on tolerances of enough entries. *)
Lemma matching_total ref comp rtSd mzSd (params : gmap string string) step w
    s sdw xs1 xs2 :
  sd_entries w (length ref) rtSd = Some xs1 ->
  sd_entries w (length ref) mzSd = Some xs2 ->
  has_pos xs1 -> has_pos xs2 ->
  param params "sd_width" = Ok s -> py_float s = Ok sdw ->
  (length ref <= length xs1)%nat -> (length ref <= length xs2)%nat ->
  exists w' out sub,
    matchFeatures py_float ref comp rtSd mzSd params step w = (Ok out, w') /\
    findMatchedSubset py_float ref comp rtSd mzSd params w = (Ok sub, w').
Proof.
  intros He1 He2 Hp1 Hp2 Hs Hf Hlen1 Hlen2.
  destruct (zero_floor_has_pos _ Hp1) as [xs1' Hz1].
  destruct (zero_floor_has_pos _ Hp2) as [xs2' Hz2].
  destruct (matching_exact ref comp _ _ _ step w _ _ _ _ _ _
              He1 He2 Hz1 Hz2 Hs Hf) as (w' & Hm & Hsub).
  pose proof (Permutation_length (sort_values_intensity_perm ref)) as Hperm.
  apply zero_floor_length in Hz1, Hz2.
  destruct (match_loop_long (map (fun x => (x * sdw)%float) xs1')
              (map (fun x => (x * sdw)%float) xs2')
              (sort_values_intensity ref) 0
              (labelled (sort_values_intensity comp))) as [out Hout];
    [rewrite length_map; lia|rewrite length_map; lia|].
  destruct (subset_loop_long (map (fun x => (x * sdw)%float) xs1')
              (map (fun x => (x * sdw)%float) xs2')
              (sort_values_intensity ref) 0
              (labelled (sort_values_intensity comp))) as [sub Hsub'];
    [rewrite length_map; lia|rewrite length_map; lia|].
  exists w', out, sub. by rewrite Hm, Hsub, Hout, Hsub'.
Qed.

(** X5.  With SDs that have a positive entry and at least one entry per row
    of the reference table, and a [sd_width] that [float] reads,
    matchFeatures and findMatchedSubset return. *)
Theorem matching_returns ref comp rtSd mzSd (params : gmap string string) step w
    s sdw xs1 xs2 :
  sd_entries w (length ref) rtSd = Some xs1 ->
  sd_entries w (length ref) mzSd = Some xs2 ->
  has_pos xs1 -> has_pos xs2 ->
  param params "sd_width" = Ok s -> py_float s = Ok sdw ->
  (length ref <= length xs1)%nat -> (length ref <= length xs2)%nat ->
  exists w' out sub,
    matchFeatures py_float ref comp rtSd mzSd params step w = (Ok out, w') /\
    findMatchedSubset py_float ref comp rtSd mzSd params w = (Ok sub, w').
Proof.
  intros He1 He2 Hp1 Hp2 Hs Hf Hlen1 Hlen2.
  destruct (zero_floor_has_pos _ Hp1) as [xs1' Hz1].
  destruct (zero_floor_has_pos _ Hp2) as [xs2' Hz2].
  destruct (matching_exact ref comp _ _ _ step w _ _ _ _ _ _
              He1 He2 Hz1 Hz2 Hs Hf) as (w' & Hm & Hsub).
  pose proof (Permutation_length (sort_values_intensity_perm ref)) as Hperm.
  apply zero_floor_length in Hz1, Hz2.
  destruct (match_loop_long (map (fun x => (x * sdw)%float) xs1')
              (map (fun x => (x * sdw)%float) xs2')
              (sort_values_intensity ref) 0
              (labelled (sort_values_intensity comp))) as [out Hout];
    [rewrite length_map; lia|rewrite length_map; lia|].
  destruct (subset_loop_long (map (fun x => (x * sdw)%float) xs1')
              (map (fun x => (x * sdw)%float) xs2')
              (sort_values_intensity ref) 0
              (labelled (sort_values_intensity comp))) as [sub Hsub'];
    [rewrite length_map; lia|rewrite length_map; lia|].
  exists w', out, sub. by rewrite Hm, Hsub, Hout, Hsub'.
Qed.

(** *** What the loops accept *)

Lemma match_choice_within rt mt r pool l c :
  match_choice rt mt r pool = Some (l, c) -> in_tolerance rt mt r c = true.
Proof.
  unfold match_choice.
  destruct (candidates rt mt r pool) as [|first t] eqn:Hc; [done|].
  apply head_filter_in in Hc as [_ Hin].
  destruct (z r =? 0); [by intros [= ->]|].
  destruct (z first.2 =? 0); [by intros [= ->]|].
  destruct (candidates_charge rt mt r pool) as [|first' t'] eqn:Hc'; [done|].
  apply head_filter_in in Hc' as [_ Hin']. intros [= ->].
  by apply andb_prop in Hin' as [? _].
Qed.

Lemma subset_choice_spec rt mt r pool l c :
  subset_choice rt mt r pool = Some (l, c) ->
  (l, c) ∈ pool /\ in_tolerance rt mt r c = true /\ (z r = 0 \/ z c = z r).
Proof.
  unfold subset_choice. destruct (Z.eqb_spec (z r) 0) as [Hz|Hz].
  - destruct (candidates rt mt r pool) as [|first t] eqn:Hc; [done|].
    apply head_filter_in in Hc as [Hin Ht]. intros [= ->]. auto.
  - destruct (candidates_charge rt mt r pool) as [|first t] eqn:Hc; [done|].
    apply head_filter_in in Hc as [Hin Ht]. intros [= ->].
    apply andb_prop in Ht as [Ht Hch]. unfold same_charge in Hch.
    apply Z.eqb_eq in Hch. auto.
Qed.

Lemma match_loop_within rtTol mzTol refs :
  forall i pool out,
    match_loop rtTol mzTol i refs pool = Ok out ->
    Forall (fun row => exists k rt mt,
              refs !! k = Some (ref_row row) /\
              rtTol !! (i + k)%nat = Some rt /\ mzTol !! (i + k)%nat = Some mt /\
              in_tolerance rt mt (ref_row row) (comp_row row) = true /\
              exists l, (l, comp_row row) ∈ pool) out.
Proof.
  induction refs as [|r refs IH]; intros i pool out; cbn.
  { intros [= <-]. constructor. }
  unfold np_get.
  destruct (rtTol !! i) as [rt|] eqn:Hrt; [cbn [rbind]|done].
  destruct (mzTol !! i) as [mt|] eqn:Hmt; [cbn [rbind]|done].
  assert (Hshift : forall pool' rest,
            (forall p, p ∈ pool' -> p ∈ pool) ->
            match_loop rtTol mzTol (S i) refs pool' = Ok rest ->
            Forall (fun row => exists k rt mt,
              (r :: refs) !! k = Some (ref_row row) /\
              rtTol !! (i + k)%nat = Some rt /\ mzTol !! (i + k)%nat = Some mt /\
              in_tolerance rt mt (ref_row row) (comp_row row) = true /\
              exists l, (l, comp_row row) ∈ pool) rest).
  { intros pool' rest Hsub Hrest. apply IH in Hrest.
    eapply Forall_impl; [exact Hrest|].
    intros row (k & rt' & mt' & Hk & Hr' & Hm' & Hin & l & Hl).
    exists (S k), rt', mt'. rewrite Nat.add_succ_r.
    repeat split; try done. exists l. by apply Hsub. }
  destruct (match_choice rt mt r pool) as [[l c]|] eqn:Hch.
  - destruct (match_loop rtTol mzTol (S i) refs (drop_label l pool))
      as [rest|] eqn:Hrest; [cbn [rbind]|done].
    intros [= <-]. constructor.
    + exists 0%nat, rt, mt. rewrite Nat.add_0_r. cbn.
      repeat split; try done; [by eapply match_choice_within|].
      exists l. by eapply match_choice_in.
    + eapply Hshift; [|exact Hrest]. intros p Hp.
      apply drop_label_elem in Hp. tauto.
  - intros Hrest. by eapply Hshift.
Qed.

Lemma subset_loop_within rtTol mzTol refs :
  forall i pool sub,
    subset_loop rtTol mzTol i refs pool = Ok sub ->
    Forall (fun row => exists k rt mt r l c,
              refs !! k = Some r /\
              rtTol !! (i + k)%nat = Some rt /\ mzTol !! (i + k)%nat = Some mt /\
              (l, c) ∈ pool /\
              in_tolerance rt mt r c = true /\ (z r = 0 \/ z c = z r) /\
              row = mkSubRow (mz r) (RT r) (intensity r)
                             (mz c) (RT c) (intensity c)) sub.
Proof.
  induction refs as [|r refs IH]; intros i pool sub; cbn.
  { intros [= <-]. constructor. }
  unfold np_get.
  destruct (rtTol !! i) as [rt|] eqn:Hrt; [cbn [rbind]|done].
  destruct (mzTol !! i) as [mt|] eqn:Hmt; [cbn [rbind]|done].
  assert (Hshift : forall rest,
            subset_loop rtTol mzTol (S i) refs pool = Ok rest ->
            Forall (fun row => exists k rt mt r0 l c,
              (r :: refs) !! k = Some r0 /\
              rtTol !! (i + k)%nat = Some rt /\ mzTol !! (i + k)%nat = Some mt /\
              (l, c) ∈ pool /\
              in_tolerance rt mt r0 c = true /\ (z r0 = 0 \/ z c = z r0) /\
              row = mkSubRow (mz r0) (RT r0) (intensity r0)
                             (mz c) (RT c) (intensity c)) rest).
  { intros rest Hrest. apply IH in Hrest.
    eapply Forall_impl; [exact Hrest|].
    intros row (k & rt' & mt' & r0 & l & c & Hk & Hr' & Hm' & H).
    exists (S k), rt', mt', r0, l, c. rewrite Nat.add_succ_r. done. }
  destruct (subset_choice rt mt r pool) as [[l c]|] eqn:Hch.
  - destruct (subset_loop rtTol mzTol (S i) refs pool)
      as [rest|] eqn:Hrest; [cbn [rbind]|done].
    intros [= <-]. constructor; [|by apply Hshift].
    apply subset_choice_spec in Hch as (Hin & Ht & Hz).
    exists 0%nat, rt, mt, r, l, c. rewrite Nat.add_0_r. done.
  - intros Hrest. by apply Hshift.
Qed.

(** X6.  Every pair that matchFeatures returns is within tolerance: the
    comparison row is within the RT and the m/z tolerance of the reference
    row, which are the floored SDs at the position of the reference row in
    the sorted reference table, times [sd_width]. *)
Theorem matchFeatures_within_tolerance ref comp rtSd mzSd
    (params : gmap string string) step w s sdw xs1 xs2 xs1' xs2' out w' :
  sd_entries w (length ref) rtSd = Some xs1 ->
  sd_entries w (length ref) mzSd = Some xs2 ->
  zero_floor xs1 = Ok xs1' -> zero_floor xs2 = Ok xs2' ->
  param params "sd_width" = Ok s -> py_float s = Ok sdw ->
  matchFeatures py_float ref comp rtSd mzSd params step w = (Ok out, w') ->
  Forall (fun row => exists i sd1 sd2,
            sort_values_intensity ref !! i = Some (ref_row row) /\
            xs1' !! i = Some sd1 /\ xs2' !! i = Some sd2 /\
            in_tolerance (sd1 * sdw) (sd2 * sdw) (ref_row row) (comp_row row)
            = true) out.
Proof.
  intros He1 He2 Hz1 Hz2 Hs Hf H.
  destruct (matching_exact ref comp _ _ _ step w _ _ _ _ _ _
              He1 He2 Hz1 Hz2 Hs Hf) as (w1 & Hm & _).
  rewrite Hm in H. injection H as H _.
  apply match_loop_within in H.
  eapply Forall_impl; [exact H|].
  intros row (k & rt & mt & Hk & Hrt & Hmt & Hin & _). cbn in Hrt, Hmt.
  rewrite list_lookup_fmap in Hrt, Hmt.
  destruct (xs1' !! k) as [sd1|] eqn:H1; [|done].
  destruct (xs2' !! k) as [sd2|] eqn:H2; [|done].
  cbn in Hrt, Hmt. injection Hrt as <-. injection Hmt as <-.
  by exists k, sd1, sd2.
Qed.

Lemma subset_loop_size rtTol mzTol refs :
  forall i pool sub,
    subset_loop rtTol mzTol i refs pool = Ok sub ->
    (length sub <= length refs)%nat /\ (pool = [] -> sub = []).
Proof.
  induction refs as [|r refs IH]; intros i pool sub; cbn.
  { intros [= <-]. done. }
  destruct (np_get rtTol i) as [rt|]; [cbn [rbind]|done].
  destruct (np_get mzTol i) as [mt|]; [cbn [rbind]|done].
  destruct (subset_choice rt mt r pool) as [[l c]|] eqn:Hch.
  - destruct (subset_loop rtTol mzTol (S i) refs pool)
      as [rest|] eqn:Hrest; [cbn [rbind]|done].
    intros [= <-]. apply IH in Hrest as [H1 H2]. split; [cbn; lia|].
    intros ->. apply subset_choice_spec in Hch as [Hin _].
    by apply elem_of_nil in Hin.
  - intros Hrest. apply IH in Hrest as [H1 H2]. split; [lia|done].
Qed.

(** X7.  The table that findMatchedSubset returns has at most one row for
    each reference row.  Every row of it holds the m/z, RT and intensity of
    a reference row [r] and of a comparison row [c] that is within the
    tolerances of [r]; and [c] has the charge of [r] unless the charge of
    [r] is 0. *)
Theorem findMatchedSubset_rows ref comp rtSd mzSd
    (params : gmap string string) w s sdw xs1 xs2 xs1' xs2' sub w' :
  sd_entries w (length ref) rtSd = Some xs1 ->
  sd_entries w (length ref) mzSd = Some xs2 ->
  zero_floor xs1 = Ok xs1' -> zero_floor xs2 = Ok xs2' ->
  param params "sd_width" = Ok s -> py_float s = Ok sdw ->
  findMatchedSubset py_float ref comp rtSd mzSd params w = (Ok sub, w') ->
  (length sub <= length ref)%nat /\
  Forall (fun row => exists i sd1 sd2 r c,
            sort_values_intensity ref !! i = Some r /\ c ∈ comp /\
            xs1' !! i = Some sd1 /\ xs2' !! i = Some sd2 /\
            in_tolerance (sd1 * sdw) (sd2 * sdw) r c = true /\
            (z r = 0 \/ z c = z r) /\
            row = mkSubRow (mz r) (RT r) (intensity r)
                           (mz c) (RT c) (intensity c)) sub.
Proof.
  intros He1 He2 Hz1 Hz2 Hs Hf H.
  destruct (matching_exact ref comp _ _ _ "calibration" w _ _ _ _ _ _
              He1 He2 Hz1 Hz2 Hs Hf) as (w1 & _ & Hm).
  rewrite Hm in H. injection H as H _. split.
  { apply subset_loop_size in H as [H _].
    by rewrite (Permutation_length (sort_values_intensity_perm ref)) in H. }
  apply subset_loop_within in H.
  eapply Forall_impl; [exact H|].
  intros row (k & rt & mt & r & l & c & Hk & Hrt & Hmt & Hin & Ht & Hz & ->).
  cbn in Hrt, Hmt. rewrite list_lookup_fmap in Hrt, Hmt.
  destruct (xs1' !! k) as [sd1|] eqn:H1; [|done].
  destruct (xs2' !! k) as [sd2|] eqn:H2; [|done].
  cbn in Hrt, Hmt. injection Hrt as <-. injection Hmt as <-.
  exists k, sd1, sd2, r, c. repeat split; try done.
  apply labelled_lookup in Hin. apply list_elem_of_lookup_2 in Hin.
  by rewrite sort_values_intensity_perm in Hin.
Qed.

(** *** Sizes *)

Lemma drop_label_shorter l pool c :
  (l, c) ∈ pool -> (length (drop_label l pool) < length pool)%nat.
Proof.
  unfold drop_label. induction pool as [|p pool IH]; [by intros ?%elem_of_nil|].
  intros Hin. cbn [List.filter].
  destruct (Nat.eqb_spec p.1 l) as [Heq|Hne]; cbn [negb].
  - pose proof (filter_length_le (fun p => negb (p.1 =? l)%nat) pool).
    cbn [length]. lia.
  - apply elem_of_cons in Hin as [Heq|Hin]; [by subst p|].
    cbn [length]. specialize (IH Hin). lia.
Qed.

Lemma match_loop_size rtTol mzTol refs :
  forall i pool out,
    match_loop rtTol mzTol i refs pool = Ok out ->
    (length out <= length refs)%nat /\ (length out <= length pool)%nat.
Proof.
  induction refs as [|r refs IH]; intros i pool out; cbn.
  { intros [= <-]. cbn. lia. }
  destruct (np_get rtTol i) as [rt|]; [cbn [rbind]|done].
  destruct (np_get mzTol i) as [mt|]; [cbn [rbind]|done].
  destruct (match_choice rt mt r pool) as [[l c]|] eqn:Hch.
  - destruct (match_loop rtTol mzTol (S i) refs (drop_label l pool))
      as [rest|] eqn:Hrest; [cbn [rbind]|done].
    intros [= <-]. apply IH in Hrest as [H1 H2].
    apply match_choice_in in Hch. apply drop_label_shorter in Hch.
    cbn. lia.
  - intros Hrest. apply IH in Hrest. lia.
Qed.

(** X8.  matchFeatures returns at most as many pairs as the reference
    table has rows, and at most as many as the comparison table has. *)
Theorem matchFeatures_size ref comp rtSd mzSd params step w out w' :
  matchFeatures py_float ref comp rtSd mzSd params step w = (Ok out, w') ->
  (length out <= length ref)%nat /\ (length out <= length comp)%nat.
Proof.
  pose proof (Permutation_length (sort_values_intensity_perm ref)) as Hr.
  pose proof (Permutation_length (sort_values_intensity_perm comp)) as Hc.
  intros H. apply matchFeatures_Ok in H as (rtTol & mzTol & _ & H).
  apply match_loop_size in H. unfold labelled in H.
  rewrite length_imap in H. lia.
Qed.

End MatchingMore.

(** *** The properties on the run of the example *)

Module MatchMoreExample.

Import MatchExample.

Lemma sd_array_floored_once_witness :
  (forall ref2 comp2 rtSd2 mzSd2 params2 step2 out2 w2,
      rtSd2 = SdArray 1%positive \/ mzSd2 = SdArray 1%positive ->
      matchFeatures py_float ref2 comp2 rtSd2 mzSd2 params2 step2 (snd run)
      = (Ok out2, w2) ->
      arrays w2 !! 1%positive = arrays (snd run) !! 1%positive) /\
  (forall ref2 comp2 rtSd2 mzSd2 params2 sub2 w2,
      rtSd2 = SdArray 1%positive \/ mzSd2 = SdArray 1%positive ->
      findMatchedSubset py_float ref2 comp2 rtSd2 mzSd2 params2 (snd run)
      = (Ok sub2, w2) ->
      arrays w2 !! 1%positive = arrays (snd run) !! 1%positive).
Proof.
  refine (sd_array_floored_once py_float ref comp (SdArray 1%positive)
            (SdArray 2%positive) params "align" w0 out (snd run) 1%positive
            rtSd_array _ _ match_run_result).
  - reflexivity.
  - left. reflexivity.
Defined.

(** A caller whose RT-SD array holds zeros only. *)
Definition zeros : list float := [0%float; (-0)%float; 0%float].
Definition w_zeros : world :=
  World (<[2%positive := mzSd_array]> {[ 1%positive := zeros ]}) [] 0 [].

Lemma no_positive_sd_raises_witness :
  (exists w', matchFeatures py_float ref comp (SdArray 1%positive)
                (SdArray 2%positive) params "align" w_zeros
              = (Raise ValueError, w') /\ arrays w' !! 1%positive = Some zeros) /\
  (exists w', findMatchedSubset py_float ref comp (SdArray 1%positive)
                (SdArray 2%positive) params w_zeros
              = (Raise ValueError, w') /\ arrays w' !! 1%positive = Some zeros).
Proof.
  refine (no_positive_sd_raises py_float ref comp 1%positive
            (SdArray 2%positive) params "align" w_zeros zeros _ _).
  - reflexivity.
  - repeat constructor.
Defined.

(** A caller whose RT-SD array has two entries, for three reference rows. *)
Definition short : list float := [0.5%float; 0.5%float].
Definition w_short : world :=
  World (<[2%positive := mzSd_array]> {[ 1%positive := short ]}) [] 0 [].

Lemma short_has_pos : has_pos short.
Proof. exists 0.5%float. split; [left|reflexivity]. Qed.

Lemma rtSd_array_has_pos : has_pos rtSd_array.
Proof. exists 0.5%float. split; [right; left|reflexivity]. Qed.

Lemma mzSd_array_has_pos : has_pos mzSd_array.
Proof. exists 1%float. split; [left|reflexivity]. Qed.

Lemma short_sd_raises_witness :
  exists w',
    matchFeatures py_float ref comp (SdArray 1%positive) (SdArray 2%positive)
      params "align" w_short = (Raise IndexError, w') /\
    findMatchedSubset py_float ref comp (SdArray 1%positive)
      (SdArray 2%positive) params w_short = (Raise IndexError, w').
Proof.
  refine (short_sd_raises py_float ref comp (SdArray 1%positive)
            (SdArray 2%positive) params "align" w_short "10" 10%float
            short mzSd_array _ _ short_has_pos mzSd_array_has_pos _ _ _).
  - reflexivity.
  - reflexivity.
  - reflexivity.
  - reflexivity.
  - left. cbn. lia.
Defined.

Lemma matching_returns_witness :
  exists w' out sub,
    matchFeatures py_float ref comp (SdArray 1%positive) (SdArray 2%positive)
      params "align" w0 = (Ok out, w') /\
    findMatchedSubset py_float ref comp (SdArray 1%positive)
      (SdArray 2%positive) params w0 = (Ok sub, w').
Proof.
  refine (matching_returns py_float ref comp (SdArray 1%positive)
            (SdArray 2%positive) params "align" w0 "10" 10%float
            rtSd_array mzSd_array _ _ rtSd_array_has_pos mzSd_array_has_pos
            _ _ _ _).
  - reflexivity.
  - reflexivity.
  - reflexivity.
  - reflexivity.
  - cbn. lia.
  - cbn. lia.
Defined.

Definition rtSd_floored : list float := [0.5%float; 0.5%float; 0.5%float].

Lemma matchFeatures_within_tolerance_witness :
  Forall (fun row => exists i sd1 sd2,
            sort_values_intensity ref !! i = Some (ref_row row) /\
            rtSd_floored !! i = Some sd1 /\ mzSd_array !! i = Some sd2 /\
            in_tolerance (sd1 * 10) (sd2 * 10) (ref_row row) (comp_row row)
            = true) out.
Proof.
  refine (matchFeatures_within_tolerance py_float ref comp (SdArray 1%positive)
            (SdArray 2%positive) params "align" w0 "10" 10%float
            rtSd_array mzSd_array rtSd_floored mzSd_array out (snd run)
            _ _ _ _ _ _ match_run_result); reflexivity.
Defined.

Definition sub_run :=
  findMatchedSubset py_float ref comp (SdArray 1%positive) (SdArray 2%positive)
    params w0.

Definition sub : list SubRow :=
  [ mkSubRow 100%float 60%float 1000%float
             100.000244140625%float 61%float 900%float;
    mkSubRow 200%float 120%float 500%float
             200.00048828125%float 121%float 450%float;
    mkSubRow 300%float 180%float 100%float
             300.000732421875%float 181%float 90%float ].

Lemma sub_run_result : sub_run = (Ok sub, snd sub_run).
Proof. vm_compute. reflexivity. Qed.

Lemma findMatchedSubset_rows_witness :
  (length sub <= length ref)%nat /\
  Forall (fun row => exists i sd1 sd2 r c,
            sort_values_intensity ref !! i = Some r /\ c ∈ comp /\
            rtSd_floored !! i = Some sd1 /\ mzSd_array !! i = Some sd2 /\
            in_tolerance (sd1 * 10) (sd2 * 10) r c = true /\
            (z r = 0 \/ z c = z r) /\
            row = mkSubRow (mz r) (RT r) (intensity r)
                           (mz c) (RT c) (intensity c)) sub.
Proof.
  refine (findMatchedSubset_rows py_float ref comp (SdArray 1%positive)
            (SdArray 2%positive) params w0 "10" 10%float
            rtSd_array mzSd_array rtSd_floored mzSd_array sub (snd sub_run)
            _ _ _ _ _ _ sub_run_result); reflexivity.
Defined.

Lemma matchFeatures_size_witness :
  (length out <= length ref)%nat /\ (length out <= length comp)%nat.
Proof.
  exact (matchFeatures_size py_float ref comp (SdArray 1%positive)
           (SdArray 2%positive) params "align" w0 out (snd run)
           match_run_result).
Defined.

End MatchMoreExample.

(** ** More on the global calibration *)

(** The two shifts that the scan records for a reference row and the
    comparison row it found. *)
Definition rt_shift (p : Feature * Feature) : float := (RT p.2 - RT p.1)%float.
Definition mz_shift (p : Feature * Feature) : float :=
  ((mz p.2 - mz p.1) / mz p.1 * million)%float.

Lemma filter_sublist {A} (f : A -> bool) (l : list A) :
  List.filter f l `sublist_of` l.
Proof.
  induction l as [|x l IH]; cbn; [constructor|].
  destruct (f x); by constructor.
Qed.

Lemma py_int_as_float_Ok n x : py_int_as_float n = Ok x -> x = F.of_Z n.
Proof.
  unfold py_int_as_float, F.of_Z.
  destruct (binary_normalize _ _ n 0 false); by intros [= <-].
Qed.

Lemma py_int_as_float_Raise n e :
  py_int_as_float n = Raise e -> e = OverflowError.
Proof.
  unfold py_int_as_float.
  destruct (binary_normalize _ _ n 0 false); by intros [= <-].
Qed.

Lemma global_scan_samples mzTol nPeaks refs :
  forall j pool rt mz rt' mz',
    global_scan mzTol nPeaks j refs pool rt mz = Ok (rt', mz') ->
    exists pairs : list (Feature * Feature),
      rt' = rt ++ map rt_shift pairs /\ mz' = mz ++ map mz_shift pairs /\
      Forall (fun p => p.1 ∈ refs /\ (exists l, (l, p.2) ∈ pool) /\
                       in_window (F.of_Z mzTol) p.1 p.2 = true) pairs /\
      Z.of_nat (length pairs) = Z.max 0 (nPeaks + 1 - j).
Proof.
  induction refs as [|r refs IH]; intros j pool rt mz rt' mz'; cbn.
  - destruct (Z.leb_spec j nPeaks) as [Hj|Hj]; [done|].
    intros [= <- <-]. exists []. cbn. rewrite !app_nil_r.
    repeat split; [constructor|lia].
  - destruct (Z.leb_spec j nPeaks) as [Hj|Hj].
    2:{ intros [= <- <-]. exists []. cbn. rewrite !app_nil_r.
        repeat split; [constructor|lia]. }
    destruct (py_int_as_float mzTol) as [tol|] eqn:Htol; [cbn [rbind]|done].
    apply py_int_as_float_Ok in Htol as ->.
    destruct (List.filter (fun p => in_window (F.of_Z mzTol) r p.2) pool)
      as [|[l c] t] eqn:Hf.
    + intros H. apply IH in H as (pairs & -> & -> & Hall & Hlen).
      exists pairs. repeat split; try done.
      eapply Forall_impl; [exact Hall|].
      intros p (Hr & Hc & Hw). split; [by right|done].
    + intros H. apply IH in H as (pairs & -> & -> & Hall & Hlen).
      apply head_filter_in in Hf as [Hin Hw]. cbn in Hw.
      exists ((r, c) :: pairs). cbn [map length].
      rewrite <- !app_assoc. repeat split; try done.
      * constructor.
        -- split; [left|]. split; [by exists l|done].
        -- eapply Forall_impl; [exact Hall|].
           intros p (Hr & (l' & Hc) & Hw'). split; [by right|].
           split; [|done]. exists l'. apply drop_label_elem in Hc. tauto.
      * lia.
Qed.

Lemma global_scan_size mzTol nPeaks refs :
  forall j pool rt mz out,
    global_scan mzTol nPeaks j refs pool rt mz = Ok out ->
    Z.max 0 (nPeaks + 1 - j) <= Z.of_nat (length pool).
Proof.
  induction refs as [|r refs IH]; intros j pool rt mz out; cbn.
  - destruct (Z.leb_spec j nPeaks) as [Hj|Hj]; [done|]. lia.
  - destruct (Z.leb_spec j nPeaks) as [Hj|Hj]; [|lia].
    destruct (py_int_as_float mzTol) as [tol|]; [cbn [rbind]|done].
    destruct (List.filter (fun p => in_window tol r p.2) pool)
      as [|[l c] t] eqn:Hf.
    + apply IH.
    + intros H. apply IH in H. apply head_filter_in in Hf as [Hin _].
      pose proof (drop_label_shorter _ _ _ Hin). lia.
Qed.

(** A scan that returns with a quota to fill has converted [mzTol]. *)
Lemma global_scan_converts mzTol nPeaks j refs pool rt mz out :
  global_scan mzTol nPeaks j refs pool rt mz = Ok out ->
  j <= nPeaks -> py_int_as_float mzTol = Ok (F.of_Z mzTol).
Proof.
  intros H Hj. destruct refs as [|r refs]; cbn in H;
    rewrite (proj2 (Z.leb_le _ _) Hj) in H; [done|].
  destruct (py_int_as_float mzTol) as [tol|] eqn:Htol; [|done].
  by rewrite (py_int_as_float_Ok _ _ Htol).
Qed.

(** What the scan raises: KeyError past the last reference row, and before
    that OverflowError at the first row when [mzTol] is no float. *)
Lemma global_scan_error mzTol nPeaks refs :
  forall j pool rt mz e,
    global_scan mzTol nPeaks j refs pool rt mz = Raise e ->
    match py_int_as_float mzTol with
    | Ok _ => e = KeyError
    | Raise _ => e = if refs is [] then KeyError else OverflowError
    end.
Proof.
  induction refs as [|r refs IH]; intros j pool rt mz e; cbn.
  - destruct (j <=? nPeaks); [|done]. intros [= <-].
    by destruct (py_int_as_float mzTol).
  - destruct (j <=? nPeaks); [|done].
    destruct (py_int_as_float mzTol) as [tol|e'] eqn:Htol; cbn [rbind].
    + destruct (List.filter _ pool) as [|[l c] t]; apply IH.
    + intros [= <-]. by apply py_int_as_float_Raise in Htol.
Qed.

Section GlobalMore.

Variable np_percentile : list float -> float -> result float.

Lemma trim_10_90_sublist a a' :
  trim_10_90 np_percentile a = Ok a' -> a' `sublist_of` a.
Proof.
  unfold trim_10_90.
  destruct (np_percentile a 10%float) as [p10|]; [cbn|done].
  destruct (np_percentile a 90%float) as [p90|]; [cbn|done].
  intros [= <-]. apply filter_sublist.
Qed.

(** X9.  When globalCalibration returns, its scan has filled the quota of
    5 % of the reference table with pairs of a reference row and a
    comparison row in the m/z window of the reference row (of the same
    charge, unless the reference charge is 0); the shifts returned are
    shifts of these pairs, in their order, some of them trimmed away. *)
Theorem globalCalibration_samples ref comp mzTol rtShifts mzShifts :
  globalCalibration np_percentile ref comp mzTol = Ok (rtShifts, mzShifts) ->
  exists nPeaks (pairs : list (Feature * Feature)),
    py_round (five_percent * F.of_Z (Z.of_nat (length ref)))%float = Ok nPeaks /\
    Z.of_nat (length pairs) = Z.max 0 nPeaks /\
    Forall (fun p => p.1 ∈ ref /\ p.2 ∈ comp /\
                     in_window (F.of_Z mzTol) p.1 p.2 = true) pairs /\
    rtShifts `sublist_of` map rt_shift pairs /\
    mzShifts `sublist_of` map mz_shift pairs /\
    (1 <= nPeaks -> py_int_as_float mzTol = Ok (F.of_Z mzTol)).
Proof.
  unfold globalCalibration. intros H.
  apply rbind_Ok in H as (nPeaks & Hn & H).
  apply rbind_Ok in H as ([rt mz] & Hscan & H).
  apply rbind_Ok in H as (rt' & Hrt & H).
  apply rbind_Ok in H as (mz' & Hmz & H).
  injection H as <- <-. cbn [fst snd] in *.
  pose proof (global_scan_converts _ _ _ _ _ _ _ _ Hscan) as Hconv.
  apply global_scan_samples in Hscan as (pairs & -> & -> & Hall & Hlen).
  exists nPeaks, pairs. split; [done|]. split; [lia|].
  split; [|split; [|split; [|done]]].
  - eapply Forall_impl; [exact Hall|].
    intros p (Hr & (l & Hc) & Hw). split; [done|]. split; [|done].
    apply labelled_lookup in Hc. by eapply list_elem_of_lookup_2.
  - by apply trim_10_90_sublist in Hrt.
  - by apply trim_10_90_sublist in Hmz.
Qed.

(** X10.  When the quota is at least one pair and cannot be filled, because
    no comparison row is in the window of a reference row or because the
    comparison table has fewer rows than the quota, globalCalibration
    raises.  It raises KeyError, the scan going on past the last reference
    row, when the tolerance [mzTol] is an integer that float arithmetic
    takes; when it is too large for a float, it raises OverflowError at the
    first reference row. *)
Theorem globalCalibration_quota_not_met ref comp mzTol nPeaks :
  py_round (five_percent * F.of_Z (Z.of_nat (length ref)))%float = Ok nPeaks ->
  1 <= nPeaks ->
  (forall r c, r ∈ ref -> c ∈ comp -> in_window (F.of_Z mzTol) r c = false) \/
  Z.of_nat (length comp) < nPeaks ->
  globalCalibration np_percentile ref comp mzTol
  = match py_int_as_float mzTol with
    | Ok _ => Raise KeyError
    | Raise _ => Raise OverflowError
    end.
Proof.
  intros Hn Hq Hno. unfold globalCalibration. rewrite Hn. cbn [rbind].
  assert (Href : ref <> []).
  { intros ->. vm_compute in Hn. injection Hn as <-. lia. }
  destruct (global_scan mzTol nPeaks 1 ref (labelled comp) [] [])
    as [[rt mz]|e] eqn:Hscan.
  - exfalso. destruct Hno as [Hno|Hno].
    + apply global_scan_samples in Hscan as (pairs & _ & _ & Hall & Hlen).
      destruct pairs as [|p pairs]; [cbn in Hlen; lia|].
      apply Forall_cons in Hall as [(Hr & (l & Hc) & Hw) _].
      apply labelled_lookup, list_elem_of_lookup_2 in Hc.
      by rewrite (Hno _ _ Hr Hc) in Hw.
    + apply global_scan_size in Hscan. unfold labelled in Hscan.
      rewrite length_imap in Hscan. lia.
  - apply global_scan_error in Hscan.
    destruct (py_int_as_float mzTol); [by subst e|].
    destruct ref; [done|]. by subst e.
Qed.

(** X11.  With at most ten reference features the quota is zero: no
    feature is compared, and globalCalibration is the trimming of two empty
    samples, whatever the comparison table and the m/z tolerance are. *)
Theorem globalCalibration_small_reference ref comp mzTol :
  (length ref <= 10)%nat ->
  globalCalibration np_percentile ref comp mzTol
  = (try* rtShifts := trim_10_90 np_percentile [] in
     try* mzShifts := trim_10_90 np_percentile [] in
     Ok (rtShifts, mzShifts)).
Proof.
  intros Hlen. unfold globalCalibration.
  assert (Hq : forall n, (n <= 10)%nat ->
            py_round (five_percent * F.of_Z (Z.of_nat n))%float = Ok 0).
  { intros n Hn. do 11 (destruct n as [|n]; [vm_compute; reflexivity|]). lia. }
  rewrite (Hq _ Hlen). cbn [rbind].
  assert (Hs : global_scan mzTol 0 1 ref (labelled comp) [] [] = Ok ([], []))
    by (by destruct ref).
  by rewrite Hs.
Qed.

End GlobalMore.

Module GlobalMoreExample.

Import CalibrationExample.

Definition global_run := globalCalibration np_percentile ref comp 20.

Definition global_out : list float * list float :=
  match global_run with
  | Ok x => x
  | Raise _ => ([], [])
  end.

Lemma global_run_result : global_run = Ok (global_out.1, global_out.2).
Proof. vm_compute. reflexivity. Qed.

Lemma globalCalibration_samples_witness :
  exists nPeaks (pairs : list (Feature * Feature)),
    py_round (five_percent * F.of_Z (Z.of_nat (length ref)))%float = Ok nPeaks /\
    Z.of_nat (length pairs) = Z.max 0 nPeaks /\
    Forall (fun p => p.1 ∈ ref /\ p.2 ∈ comp /\
                     in_window (F.of_Z 20) p.1 p.2 = true) pairs /\
    global_out.1 `sublist_of` map rt_shift pairs /\
    global_out.2 `sublist_of` map mz_shift pairs /\
    (1 <= nPeaks -> py_int_as_float 20 = Ok (F.of_Z 20)).
Proof.
  exact (globalCalibration_samples np_percentile ref comp 20
           global_out.1 global_out.2 global_run_result).
Defined.

Lemma no_window :
  forall r c, r ∈ GlobalExample.ref -> c ∈ GlobalExample.comp ->
              in_window (F.of_Z 20) r c = false.
Proof.
  intros r c Hr Hc.
  assert (Hall : forallb (fun r => forallb (fun c => negb (in_window (F.of_Z 20) r c))
                                           GlobalExample.comp)
                         GlobalExample.ref = true)
    by (vm_compute; reflexivity).
  rewrite forallb_forall in Hall.
  apply list_elem_of_In in Hr, Hc. specialize (Hall r Hr).
  rewrite forallb_forall in Hall. specialize (Hall c Hc).
  by apply negb_true_iff in Hall.
Qed.

(** A tolerance beyond every float: ten to the power 400. *)
Definition huge : Z := 10 ^ 400.

Example huge_is_no_float : py_int_as_float huge = Raise OverflowError.
Proof. vm_compute. reflexivity. Qed.

(** Three comparison rows are fewer than the quota of five. *)
Lemma globalCalibration_quota_not_met_witness :
  globalCalibration np_percentile GlobalExample.ref GlobalExample.comp 20
  = Raise KeyError /\
  globalCalibration np_percentile ref (take 3 comp) huge = Raise OverflowError.
Proof.
  split.
  - refine (globalCalibration_quota_not_met np_percentile GlobalExample.ref
              GlobalExample.comp 20 1 _ _ (or_introl no_window)).
    + vm_compute. reflexivity.
    + lia.
  - refine (globalCalibration_quota_not_met np_percentile ref (take 3 comp)
              huge 5 _ _ (or_intror _)).
    + vm_compute. reflexivity.
    + lia.
    + cbn. lia.
Defined.

Lemma globalCalibration_small_reference_witness :
  globalCalibration np_percentile MatchExample.ref MatchExample.comp 20
  = (try* rtShifts := trim_10_90 np_percentile [] in
     try* mzShifts := trim_10_90 np_percentile [] in
     Ok (rtShifts, mzShifts)).
Proof.
  refine (globalCalibration_small_reference np_percentile MatchExample.ref
            MatchExample.comp 20 _).
  cbn. lia.
Defined.

End GlobalMoreExample.

(** ** More on the calibration *)

(** [c'] is the feature [c] with, at most, another RT and another m/z. *)
Definition calibrated_from (c c' : Feature) : Prop :=
  c' = set_mz (mz c') (set_RT (RT c') c).

Lemma calibrated_from_refl c : calibrated_from c c.
Proof. by destruct c. Qed.

Lemma calibrated_from_trans c1 c2 c3 :
  calibrated_from c1 c2 -> calibrated_from c2 c3 -> calibrated_from c1 c3.
Proof.
  unfold calibrated_from. intros H12 H23. rewrite H23 at 1. rewrite H12 at 1.
  by destruct c1.
Qed.

Lemma calibrated_from_set_RT v c : calibrated_from c (set_RT v c).
Proof. by destruct c. Qed.

Lemma calibrated_from_set_mz v c : calibrated_from c (set_mz v c).
Proof. by destruct c. Qed.

Lemma Forall2_map_self {A} (R : A -> A -> Prop) (f : A -> A) (l : list A) :
  (forall x, R x (f x)) -> Forall2 R l (map f l).
Proof. intros H. induction l; cbn; by constructor. Qed.

(** [c] leaves the arrays of the store as they are, whether it returns or
    raises. *)
Definition keeps_arrays {A} (c : M A) : Prop :=
  forall w r w', c w = (r, w') -> arrays w' = arrays w.

Lemma keeps_bind {A B} (c : M A) (k : A -> M B) :
  keeps_arrays c -> (forall a, keeps_arrays (k a)) -> keeps_arrays (bind c k).
Proof.
  intros Hc Hk w r w'. unfold bind.
  destruct (c w) as [[a|e] w1] eqn:Hcw.
  - intros Hkw. rewrite (Hk _ _ _ _ Hkw). by eapply Hc.
  - intros [= <- <-]. by eapply Hc.
Qed.

Lemma keeps_ret {A} (a : A) : keeps_arrays (ret a).
Proof. by intros w r w' [= <- <-]. Qed.

Lemma keeps_lift {A} (r : result A) : keeps_arrays (lift r).
Proof. by intros w r' w' [= <- <-]. Qed.

Lemma keeps_print s : keeps_arrays (print s).
Proof. by intros w r w' [= <- <-]. Qed.

Lemma keeps_np_read l : keeps_arrays (np_read l).
Proof.
  intros w r w'. unfold np_read. destruct (arrays w !! l); by intros [= <- <-].
Qed.

Section CalibrationMore.

Variable py_float : string -> result float.
Variable py_int : string -> result Z.
Variable py_format : string -> list pyarg -> result string.
Variable np_percentile : list float -> float -> result float.
Variable np_median : list float -> float.
Variable np_std1 : list float -> float.
Variable std_normal : nat -> float.
Variable r_model : Type.
Variable loess_as : list float -> list float -> result r_model.
Variable r_fitted : r_model -> list float.
Variable r_predict : r_model -> float -> float.

Lemma keeps_printf fmt args : keeps_arrays (printf py_format fmt args).
Proof.
  unfold printf. apply keeps_bind; [apply keeps_lift|intros; apply keeps_print].
Qed.

Lemma keeps_sd_amin sd : keeps_arrays (sd_amin sd).
Proof.
  destruct sd; cbn; [apply keeps_ret| |apply keeps_lift].
  apply keeps_bind; [apply keeps_np_read|intros; apply keeps_lift].
Qed.

Lemma keeps_sd_amax sd : keeps_arrays (sd_amax sd).
Proof.
  destruct sd; cbn; [apply keeps_ret| |apply keeps_lift].
  apply keeps_bind; [apply keeps_np_read|intros; apply keeps_lift].
Qed.

Lemma keeps_report_round a b c sd :
  keeps_arrays (report_round py_format a b c sd).
Proof.
  unfold report_round.
  apply keeps_bind; [apply keeps_print|intros].
  apply keeps_bind; [apply keeps_sd_amin|intros].
  apply keeps_bind; [apply keeps_printf|intros].
  apply keeps_bind; [apply keeps_sd_amax|intros].
  apply keeps_printf.
Qed.

(** What a pass that returns has done to the tables. *)
Lemma localCalibration_tables ref comp rtSd mzSd params ty w
    ref' comp' rtSd' mzSd' w' :
  localCalibration py_float np_percentile std_normal r_model loess_as
    r_fitted r_predict ref comp rtSd mzSd params ty w
  = (Ok (ref', comp', rtSd', mzSd'), w') ->
  ref' = ref /\
  ((ty = "RT" /\
    exists fit, comp' = map (fun c => set_RT (RT c - r_predict fit (RT c))%float c)
                            comp) \/
   (ty = "mz" /\
    exists fit,
      comp' = map (fun c => set_mz (mz c / (1 + r_predict fit (mz c) / million))%float c)
                  comp) \/
   (ty <> "RT" /\ ty <> "mz" /\ comp' = comp /\ rtSd' = rtSd /\ mzSd' = mzSd)).
Proof.
  intros H. unfold localCalibration in H.
  apply bind_Ok in H as (u & w1 & _ & H).
  apply bind_Ok in H as (subDf & w2 & _ & H).
  apply bind_Ok in H as (u' & w3 & _ & H).
  destruct (String.eqb_spec ty "RT") as [->|Hrt].
  { apply bind_Ok in H as (s & w4 & _ & H).
    apply bind_Ok in H as (fit & w5 & _ & H).
    apply bind_Ok in H as (cr & w6 & _ & H).
    apply bind_Ok in H as (sd1 & w7 & _ & H).
    apply bind_Ok in H as (sd2 & w8 & _ & H).
    apply ret_Ok in H as [[= -> -> -> ->] _].
    split; [done|]. left. split; [done|]. by exists fit. }
  destruct (String.eqb_spec ty "mz") as [->|Hmz].
  { apply bind_Ok in H as (s & w4 & _ & H).
    apply bind_Ok in H as (fit & w5 & _ & H).
    apply bind_Ok in H as (cm & w6 & _ & H).
    apply bind_Ok in H as (sd2 & w7 & _ & H).
    apply bind_Ok in H as (sd1 & w8 & _ & H).
    apply ret_Ok in H as [[= -> -> -> ->] _].
    split; [done|]. right. left. split; [done|]. by exists fit. }
  apply ret_Ok in H as [[= -> -> -> ->] _].
  split; [done|]. right. right. done.
Qed.

(** X12.  A pass of localCalibration that returns hands back the reference
    table as it was, and the comparison rows in their order: with another
    RT and nothing else changed on an RT pass, with another m/z and nothing
    else changed on an m/z pass; for any other [type], the comparison table
    and the two SDs are the ones it was given. *)
Theorem localCalibration_keeps_rows ref comp rtSd mzSd params ty w
    ref' comp' rtSd' mzSd' w' :
  localCalibration py_float np_percentile std_normal r_model loess_as
    r_fitted r_predict ref comp rtSd mzSd params ty w
  = (Ok (ref', comp', rtSd', mzSd'), w') ->
  ref' = ref /\
  (ty = "RT" -> Forall2 (fun c c' => c' = set_RT (RT c') c) comp comp') /\
  (ty = "mz" -> Forall2 (fun c c' => c' = set_mz (mz c') c) comp comp') /\
  (ty <> "RT" -> ty <> "mz" ->
   comp' = comp /\ rtSd' = rtSd /\ mzSd' = mzSd).
Proof.
  intros H. apply localCalibration_tables in H as [-> H]. split; [done|].
  destruct H as [[-> [fit ->]]|[[-> [fit ->]]|(Hrt & Hmz & -> & -> & ->)]].
  - split; [|split; [done|done]]. intros _.
    apply Forall2_map_self. intros c. by destruct c.
  - split; [done|]. split; [|done]. intros _.
    apply Forall2_map_self. intros c. by destruct c.
  - done.
Qed.

Lemma localCalibration_calibrated ref comp rtSd mzSd params ty w
    ref' comp' rtSd' mzSd' w' :
  localCalibration py_float np_percentile std_normal r_model loess_as
    r_fitted r_predict ref comp rtSd mzSd params ty w
  = (Ok (ref', comp', rtSd', mzSd'), w') ->
  ref' = ref /\ Forall2 calibrated_from comp comp'.
Proof.
  intros H. apply localCalibration_tables in H as [-> H]. split; [done|].
  destruct H as [[-> [fit ->]]|[[-> [fit ->]]|(Hrt & Hmz & -> & -> & ->)]].
  - apply Forall2_map_self. intros c. apply calibrated_from_set_RT.
  - apply Forall2_map_self. intros c. apply calibrated_from_set_mz.
  - apply Forall_Forall2_diag, Forall_forall. intros c _.
    apply calibrated_from_refl.
Qed.

(** X13.  On an empty comparison table a pass of localCalibration raises
    KeyError, once the SDs and [sd_width] are in order: the table of
    matched pairs is built from no row and has no column to read. *)
Theorem localCalibration_empty_comp ref rtSd mzSd (params : gmap string string)
    ty w s sdw xs1 xs2 :
  sd_entries w (length ref) rtSd = Some xs1 ->
  sd_entries w (length ref) mzSd = Some xs2 ->
  has_pos xs1 -> has_pos xs2 ->
  param params "sd_width" = Ok s -> py_float s = Ok sdw ->
  (length ref <= length xs1)%nat -> (length ref <= length xs2)%nat ->
  exists w',
    localCalibration py_float np_percentile std_normal r_model loess_as
      r_fitted r_predict ref [] rtSd mzSd params ty w
    = (Raise KeyError, w').
Proof.
  intros He1 He2 Hp1 Hp2 Hs Hf Hlen1 Hlen2.
  set (w1 := set_lc_passes (lc_passes w ++ [ty]) w).
  destruct (matching_total py_float ref [] rtSd mzSd params "calibration" w1
              s sdw xs1 xs2) as (w2 & out & sub & _ & Hsub); try done.
  assert (sub = []) as ->.
  { pose proof (subset_loop_size) as Hsize.
    apply findMatchedSubset_Ok in Hsub as (rtTol & mzTol & _ & Hloop).
    by apply Hsize in Hloop as [_ ->]. }
  exists w2. unfold localCalibration.
  rewrite (bind_step _ _ w tt w1) by reflexivity.
  rewrite (bind_step _ _ w1 [] w2) by exact Hsub.
  reflexivity.
Qed.

(** What a run of calibrateFeatures that returns went through: the last
    pass, on the sorted reference table and on comparison rows that are
    the sorted comparison rows but for RT and m/z. *)
Lemma calibrateFeatures_last_pass params ref comp parameters w
    comp' rtSd mzSd w' :
  calibrateFeatures py_float py_int py_format np_percentile np_median np_std1
    std_normal r_model loess_as r_fitted r_predict params ref comp parameters w
  = (Ok (comp', rtSd, mzSd), w') ->
  exists comp3 rtSd3 mzSd3 w3 ref4 w4,
    Forall2 calibrated_from (sort_values_intensity comp) comp3 /\
    localCalibration py_float np_percentile std_normal r_model loess_as
      r_fitted r_predict (sort_values_intensity ref) comp3 rtSd3 mzSd3
      params "mz" w3
    = (Ok (ref4, comp', rtSd, mzSd), w4) /\
    arrays w' = arrays w4.
Proof.
  intros H. unfold calibrateFeatures in H. cbv zeta in H.
  do 3 (apply bind_Ok in H as (? & ? & _ & H)).
  apply bind_Ok in H as (sh & ? & _ & H).
  do 8 (apply bind_Ok in H as (? & ? & _ & H)).
  apply bind_Ok in H as ([[[ref1 comp1] rtSd1] mzSd1] & w1 & Hp1 & H).
  apply bind_Ok in H as (? & ? & _ & H).
  apply bind_Ok in H as ([[[ref2 comp2] rtSd2] mzSd2] & w2 & Hp2 & H).
  apply bind_Ok in H as (? & ? & _ & H).
  apply bind_Ok in H as ([[[ref3 comp3] rtSd3] mzSd3] & w3 & Hp3 & H).
  apply bind_Ok in H as (? & w3' & _ & H).
  apply bind_Ok in H as ([[[ref4 comp4] rtSd4] mzSd4] & w4 & Hp4 & H).
  apply bind_Ok in H as (? & w5 & Hrep & H).
  apply bind_Ok in H as (? & w6 & Hpr & H).
  apply ret_Ok in H as [[= -> -> ->] ->].
  apply keeps_report_round in Hrep. apply keeps_print in Hpr.
  pose proof (localCalibration_calibrated _ _ _ _ _ _ _ _ _ _ _ _ Hp1) as [-> Hc1].
  pose proof (localCalibration_calibrated _ _ _ _ _ _ _ _ _ _ _ _ Hp2) as [-> Hc2].
  pose proof (localCalibration_calibrated _ _ _ _ _ _ _ _ _ _ _ _ Hp3) as [-> Hc3].
  exists comp3, rtSd3, mzSd3. eexists _, ref4, w4.
  split; [|split; [exact Hp4|congruence]].
  assert (Hc0 : Forall2 calibrated_from (sort_values_intensity comp)
            (map (fun c => set_mz (mz c / (1 + np_median sh.2 / million))%float c)
               (map (fun c => set_RT (RT c - np_median sh.1)%float c)
                  (sort_values_intensity comp)))).
  { rewrite map_map. apply Forall2_map_self. intros c.
    eapply calibrated_from_trans;
      [apply calibrated_from_set_RT|apply calibrated_from_set_mz]. }
  pose proof calibrated_from_trans as Htr.
  eapply Forall2_trans; [exact Htr| |exact Hc3].
  eapply Forall2_trans; [exact Htr| |exact Hc2].
  eapply Forall2_trans; [exact Htr|exact Hc0|exact Hc1].
Qed.

(** X14.  calibrateFeatures returns the comparison features in descending
    order of their intensity, with RT and m/z calibrated and every other
    column as it was; and two SD arrays that hold, at position [i], the SD
    predicted at the RT and at the m/z of the [i]-th most intense reference
    feature. *)
Theorem calibrateFeatures_rows_and_sds params ref comp parameters w
    comp' rtSd mzSd w' :
  calibrateFeatures py_float py_int py_format np_percentile np_median np_std1
    std_normal r_model loess_as r_fitted r_predict params ref comp parameters w
  = (Ok (comp', rtSd, mzSd), w') ->
  Forall2 calibrated_from (sort_values_intensity comp) comp' /\
  exists l1 l2 mR mM,
    rtSd = SdArray l1 /\ mzSd = SdArray l2 /\ l1 <> l2 /\
    arrays w' !! l1
    = Some (sd_values r_model r_predict mR (map RT (sort_values_intensity ref))) /\
    arrays w' !! l2
    = Some (sd_values r_model r_predict mM (map mz (sort_values_intensity ref))).
Proof.
  intros H.
  apply calibrateFeatures_last_pass in H
    as (comp3 & rtSd3 & mzSd3 & w3 & ref4 & w4 & Hc & Hp & Hw).
  pose proof (localCalibration_calibrated _ _ _ _ _ _ _ _ _ _ _ _ Hp) as [_ Hc4].
  split.
  - pose proof calibrated_from_trans as Htr.
    eapply Forall2_trans; [exact Htr|exact Hc|exact Hc4].
  - apply localCalibration_refreshed in Hp; [|by right].
    destruct Hp as (l1 & l2 & mR & mM & -> & -> & Hne & _ & _ & H1 & H2).
    exists l1, l2, mR, mM. rewrite Hw. done.
Qed.

(** X15.  The SD arrays that calibrateFeatures returns fit the reference
    table: when each has a positive entry and [float] reads [sd_width],
    matchFeatures on the reference features and the calibrated features,
    with these arrays, returns. *)
Theorem calibrated_features_match params ref comp parameters w
    comp' rtSd mzSd w' step s sdw :
  calibrateFeatures py_float py_int py_format np_percentile np_median np_std1
    std_normal r_model loess_as r_fitted r_predict params ref comp parameters w
  = (Ok (comp', rtSd, mzSd), w') ->
  (forall xs, sd_entries w' (length ref) rtSd = Some xs -> has_pos xs) ->
  (forall xs, sd_entries w' (length ref) mzSd = Some xs -> has_pos xs) ->
  param params "sd_width" = Ok s -> py_float s = Ok sdw ->
  exists out w'',
    matchFeatures py_float ref comp' rtSd mzSd params step w' = (Ok out, w'').
Proof.
  intros H Hp1 Hp2 Hs Hf.
  apply calibrateFeatures_last_pass in H
    as (comp3 & rtSd3 & mzSd3 & w3 & ref4 & w4 & _ & Hp & Hw).
  apply localCalibration_refreshed in Hp; [|by right].
  destruct Hp as (l1 & l2 & mR & mM & -> & -> & Hne & _ & _ & H1 & H2).
  rewrite <- Hw in H1, H2.
  pose proof (Permutation_length (sort_values_intensity_perm ref)) as Hlen.
  destruct (matching_total py_float ref comp' (SdArray l1) (SdArray l2)
              params step w' s sdw _ _ H1 H2) as (w'' & out & sub & Hm & _);
    try done.
  - by apply Hp1.
  - by apply Hp2.
  - unfold sd_values. rewrite !length_map. lia.
  - unfold sd_values. rewrite !length_map. lia.
  - by exists out, w''.
Qed.

(** X16.  When [tol_initial] is not among the parameters, or it is read and
    [sd_width] is not, calibrateFeatures raises KeyError before it prints a
    line or touches an array, whatever its argument [parameters] holds:
    it reads the dictionary of the module. *)
Theorem calibrateFeatures_missing_parameter (params : gmap string string)
    ref comp parameters w :
  params !! "tol_initial" = None \/
  (exists s k, params !! "tol_initial" = Some s /\ py_int s = Ok k /\
               params !! "sd_width" = None) ->
  calibrateFeatures py_float py_int py_format np_percentile np_median np_std1
    std_normal r_model loess_as r_fitted r_predict params ref comp parameters w
  = (Raise KeyError, w).
Proof.
  intros [Hno|(s & k & Hs & Hk & Hno)]; unfold calibrateFeatures, param.
  - by rewrite Hno.
  - rewrite Hs, Hno. cbn [rbind]. rewrite Hk. reflexivity.
Qed.

End CalibrationMore.

Module CalibrationMoreExample.

Import CalibrationExample.

Lemma localCalibration_keeps_rows_witness :
  pass_out.1.1.1 = ref /\
  ("mz" = "RT" ->
   Forall2 (fun c c' => c' = set_RT (RT c') c) comp pass_out.1.1.2) /\
  ("mz" = "mz" ->
   Forall2 (fun c c' => c' = set_mz (mz c') c) comp pass_out.1.1.2) /\
  ("mz" <> "RT" -> "mz" <> "mz" ->
   pass_out.1.1.2 = comp /\ pass_out.1.2 = SdScalar 1%float
   /\ pass_out.2 = SdScalar 1%float).
Proof.
  exact (localCalibration_keeps_rows py_float np_percentile std_normal r_model
           loess_as r_fitted r_predict ref comp (SdScalar 1%float)
           (SdScalar 1%float) params "mz" w0 pass_out.1.1.1 pass_out.1.1.2
           pass_out.1.2 pass_out.2 pass.2 pass_returns).
Defined.

Lemma ones_have_pos : has_pos (repeat 1%float (length MatchExample.ref)).
Proof. exists 1%float. split; [left|reflexivity]. Qed.

Lemma localCalibration_empty_comp_witness :
  exists w',
    localCalibration py_float np_percentile std_normal r_model loess_as
      r_fitted r_predict MatchExample.ref [] (SdScalar 1%float)
      (SdScalar 1%float) params "RT" w0
    = (Raise KeyError, w').
Proof.
  refine (localCalibration_empty_comp py_float np_percentile std_normal
            r_model loess_as r_fitted r_predict MatchExample.ref
            (SdScalar 1%float) (SdScalar 1%float) params "RT" w0
            "10" 10%float _ _ _ _ ones_have_pos ones_have_pos _ _ _ _).
  - reflexivity.
  - reflexivity.
  - reflexivity.
  - reflexivity.
  - cbn. lia.
  - cbn. lia.
Defined.

Definition run_out : list Feature * sd_arg * sd_arg :=
  match run.1 with
  | Ok x => x
  | Raise _ => ([], SdScalar 0%float, SdScalar 0%float)
  end.

Lemma run_result : run = (Ok (run_out.1.1, run_out.1.2, run_out.2), run.2).
Proof. vm_compute. reflexivity. Qed.

Lemma calibrateFeatures_rows_and_sds_witness :
  Forall2 calibrated_from (sort_values_intensity comp) run_out.1.1 /\
  exists l1 l2 mR mM,
    run_out.1.2 = SdArray l1 /\ run_out.2 = SdArray l2 /\ l1 <> l2 /\
    arrays run.2 !! l1
    = Some (sd_values r_model r_predict mR (map RT (sort_values_intensity ref))) /\
    arrays run.2 !! l2
    = Some (sd_values r_model r_predict mM (map mz (sort_values_intensity ref))).
Proof.
  exact (calibrateFeatures_rows_and_sds py_float py_int py_format
           np_percentile np_median np_std1 std_normal r_model loess_as
           r_fitted r_predict params ref comp params w0 run_out.1.1
           run_out.1.2 run_out.2 run.2 run_result).
Defined.

Lemma existsb_has_pos xs : existsb F.is_pos xs = true -> has_pos xs.
Proof.
  intros H. apply existsb_exists in H as (x & Hx & Hp).
  exists x. split; [by apply list_elem_of_In|done].
Qed.

Definition entries (sd : sd_arg) : list float :=
  default [] (sd_entries run.2 (length ref) sd).

Lemma entries_have_pos sd xs :
  existsb F.is_pos (entries sd) = true ->
  sd_entries run.2 (length ref) sd = Some xs -> has_pos xs.
Proof.
  unfold entries. intros Hp Hxs. rewrite Hxs in Hp.
  by apply existsb_has_pos.
Qed.

Lemma rt_entries_pos : existsb F.is_pos (entries run_out.1.2) = true.
Proof. vm_compute. reflexivity. Qed.

Lemma mz_entries_pos : existsb F.is_pos (entries run_out.2) = true.
Proof. vm_compute. reflexivity. Qed.

Lemma calibrated_features_match_witness :
  exists out w'',
    matchFeatures py_float ref run_out.1.1 run_out.1.2 run_out.2 params
      "align" run.2 = (Ok out, w'').
Proof.
  refine (calibrated_features_match py_float py_int py_format
            np_percentile np_median np_std1 std_normal r_model loess_as
            r_fitted r_predict params ref comp params w0 run_out.1.1
            run_out.1.2 run_out.2 run.2 "align" "10" 10%float run_result
            _ _ _ _).
  - intros xs. exact (entries_have_pos _ xs rt_entries_pos).
  - intros xs. exact (entries_have_pos _ xs mz_entries_pos).
  - reflexivity.
  - reflexivity.
Defined.

Lemma calibrateFeatures_missing_parameter_witness :
  calibrateFeatures py_float py_int py_format np_percentile np_median np_std1
    std_normal r_model loess_as r_fitted r_predict MatchExample.params ref comp
    params w0
  = (Raise KeyError, w0).
Proof.
  refine (calibrateFeatures_missing_parameter py_float py_int py_format
            np_percentile np_median np_std1 std_normal r_model loess_as
            r_fitted r_predict MatchExample.params ref comp params w0 _).
  left. reflexivity.
Defined.

End CalibrationMoreExample.

(** ** More on the rescue stage *)

Lemma In_np_setdiff1d_range n l k :
  In k (np_setdiff1d_range n l) <-> (0 <= k < Z.of_nat n) /\ ~ In k l.
Proof.
  unfold np_setdiff1d_range. rewrite filter_In, in_map_iff, negb_true_iff.
  split.
  - intros [(i & <- & Hi) Hno]. apply in_seq in Hi. split; [lia|].
    intros Hin. apply memZ_In in Hin. unfold memZ in Hin. congruence.
  - intros [Hk Hno]. split.
    + exists (Z.to_nat k). split; [lia|]. apply in_seq. lia.
    + apply not_true_is_false. intros Hex. apply Hno. by apply memZ_In.
Qed.

Lemma NoDup_np_setdiff1d_range n l : NoDup (np_setdiff1d_range n l).
Proof.
  unfold np_setdiff1d_range.
  assert (Hnd : NoDup (map Z.of_nat (seq 0 n))).
  { apply (NoDup_fmap_2 Z.of_nat), NoDup_ListNoDup, seq_NoDup. }
  eapply sublist_NoDup; [exact Hnd|apply filter_sublist].
Qed.

Lemma zip3_fst_sublist {A B C D} (a : list A) (b : list B) (c : list C)
    (d : list D) :
  map (fun row : A * B * C * D => row.1.1.1) (zip (zip (zip a b) c) d)
  `sublist_of` a.
Proof.
  revert b c d. induction a as [|x a IH]; intros [|y b] [|u c] [|v d]; cbn;
    first [apply sublist_nil_l | apply sublist_skip, IH].
Qed.

(** The tolerances of step 2, one for each unaligned reference row: a
    multiple of the SD of the row under unit code "1", the same number of
    seconds or ppm for every row under unit code "2". *)
Definition rescue_tolerances (unit : string) (f : float) (sds : list float)
  (n : nat) : list float :=
if String.eqb unit "1" then map (fun s => (f * s)%float) sds else repeat f n.

Section RescueMore.

Variable py_float : string -> result float.
Variable py_format : string -> list pyarg -> result string.
Variable np_percentile : list float -> float -> result float.
Variable np_ma_median : list float -> float.
Variable np_log2 : float -> float.

(** The pairs that step 3 adds, in order: for every unaligned reference row
    for which [rescue_pick] finds a comparison index, the index of the row
    with that index. *)
Definition rescued_pairs (c : RescueCriteria)
  (rows : list (Z * Feature * float * float)) : list (Z * Z) :=
omap (fun row : Z * Feature * float * float =>
        (fun k' => (row.1.1.1, k'))
          <$> rescue_pick np_log2 c row.1.1.2 row.1.2 row.2) rows.

Lemma rescue_pick_unaligned c r rtTol mzTol k :
  rescue_pick np_log2 c r rtTol mzTol = Some k -> k ∈ uCompInd c.
Proof.
  unfold rescue_pick.
  destruct (rescue_candidates np_log2 c r rtTol mzTol) as [|first ind]; [done|].
  destruct (z r =? 0); [apply list_elem_of_lookup_2|].
  destruct (match uComp c !! first with Some u => z u =? 0 | None => false end);
    [apply list_elem_of_lookup_2|].
  destruct (omap _ _) as [|first2 t]; [done|apply list_elem_of_lookup_2].
Qed.

(** The loop appends the pairs, and counts them. *)
Lemma rescue_loop_pairs c rows :
  forall refInd compInd n,
    rescue_loop np_log2 c rows refInd compInd n
    = (refInd ++ (rescued_pairs c rows).*1,
       compInd ++ (rescued_pairs c rows).*2,
       n + Z.of_nat (length (rescued_pairs c rows))).
Proof.
  induction rows as [|[[[k r] rtTol] mzTol] rows IH];
    intros refInd compInd n; cbn.
  { rewrite !app_nil_r. do 2 f_equal. lia. }
  destruct (rescue_pick np_log2 c r rtTol mzTol) as [k'|] eqn:Hpick; cbn.
  - rewrite IH, <- !app_assoc. cbn. f_equal. unfold rescued_pairs. lia.
  - apply IH.
Qed.

Lemma rescued_pairs_rows c rows :
  (rescued_pairs c rows).*1 `sublist_of` map (fun row => row.1.1.1) rows /\
  Forall (fun k => k ∈ uCompInd c) (rescued_pairs c rows).*2.
Proof.
  induction rows as [|[[[k r] rtTol] mzTol] rows [IH1 IH2]]; cbn.
  { split; constructor. }
  destruct (rescue_pick np_log2 c r rtTol mzTol) as [k'|] eqn:Hpick; cbn.
  - split; [by constructor|]. constructor; [|done].
    by eapply rescue_pick_unaligned.
  - split; [by constructor|done].
Qed.

Lemma rescue_criteria_Ok ref comp refInd compInd rtSd mzSd w c w' :
  rescue_criteria py_format np_percentile np_ma_median np_log2
    ref comp refInd compInd rtSd mzSd w = (Ok c, w') ->
  uRefInd c = np_setdiff1d_range (length ref) refInd /\
  uCompInd c = np_setdiff1d_range (length comp) compInd.
Proof.
  unfold rescue_criteria. intros H.
  do 11 (apply bind_Ok in H as (? & ? & _ & H)).
  by apply ret_Ok in H as [-> _].
Qed.

(** The tolerances that a good unit code gives. *)
Lemma unit_tolerances_Ok unit fmt1 fmt2 tol sds n w v w' :
  (if String.eqb unit "1" then
     let* _ := printf py_format fmt1 [AStr tol] in
     let* f := lift (py_float tol) in
     ret (map (fun s => (f * s)%float) sds)
   else
     let* _ := printf py_format fmt2 [AStr tol] in
     let* f := lift (py_float tol) in
     ret (repeat f n)) w = (Ok v, w') ->
  exists f, py_float tol = Ok f /\ v = rescue_tolerances unit f sds n.
Proof.
  unfold rescue_tolerances. destruct (String.eqb unit "1"); intros H;
    apply bind_Ok in H as (u & w1 & _ & H);
    apply bind_Ok in H as (f & w2 & Hf & H);
    apply lift_Ok in Hf as [Hf _]; apply ret_Ok in H as [-> _];
    by exists f.
Qed.

(** X17.  The rescue only adds, and what it adds is what step 3 picks.
    The index lists that rescueFeatures returns are the lists it was given
    with the two sides of a list of new pairs at their ends.  Every new
    reference index is an index of the reference table that was not in
    [refInd], and none comes twice; every new comparison index is an index
    of the comparison table that was not in [compInd].  With a unit code
    that is neither "1" nor "2" there is no new pair; with two good unit
    codes the new pairs are, in the order of the unaligned reference rows,
    the pairs of a row and the comparison index that [rescue_pick] finds
    for it under the tolerances of the two unit codes. *)
Theorem rescueFeatures_additive ref comp refInd compInd rtSd mzSd
    rtTolUnit rtTol mzTolUnit mzTol w refInd' compInd' w' :
  rescueFeatures py_float py_format np_percentile np_ma_median np_log2
    ref comp refInd compInd rtSd mzSd rtTolUnit rtTol mzTolUnit mzTol w
  = (Ok (refInd', compInd'), w') ->
  exists added : list (Z * Z),
    refInd' = refInd ++ added.*1 /\ compInd' = compInd ++ added.*2 /\
    NoDup added.*1 /\
    Forall (fun k => 0 <= k < Z.of_nat (length ref) /\ ~ In k refInd)
           added.*1 /\
    Forall (fun k => 0 <= k < Z.of_nat (length comp) /\ ~ In k compInd)
           added.*2 /\
    (bad_unit rtTolUnit \/ bad_unit mzTolUnit -> added = []) /\
    (forall c w1 f g,
        rescue_criteria py_format np_percentile np_ma_median np_log2
          ref comp refInd compInd rtSd mzSd w = (Ok c, w1) ->
        py_float rtTol = Ok f -> py_float mzTol = Ok g ->
        rtTolUnit = "1" \/ rtTolUnit = "2" ->
        mzTolUnit = "1" \/ mzTolUnit = "2" ->
        added
        = rescued_pairs c
            (zip (zip (zip (uRefInd c) (uRef c))
                      (rescue_tolerances rtTolUnit f (u_rtSd c)
                         (length (uRefInd c))))
                 (rescue_tolerances mzTolUnit g (u_mzSd c)
                    (length (uRefInd c))))).
Proof.
  intros H.
  assert (Hgood : forall u, u = "1" \/ u = "2" ->
            (String.eqb u "1" || String.eqb u "2") = true).
  { by intros u [-> | ->]. }
  assert (Hnone : refInd' = refInd -> compInd' = compInd ->
          (String.eqb rtTolUnit "1" || String.eqb rtTolUnit "2") = false \/
          (String.eqb mzTolUnit "1" || String.eqb mzTolUnit "2") = false ->
          exists added : list (Z * Z),
            refInd' = refInd ++ added.*1 /\ compInd' = compInd ++ added.*2 /\
            NoDup added.*1 /\
            Forall (fun k => 0 <= k < Z.of_nat (length ref) /\ ~ In k refInd)
                   added.*1 /\
            Forall (fun k => 0 <= k < Z.of_nat (length comp) /\ ~ In k compInd)
                   added.*2 /\
            (bad_unit rtTolUnit \/ bad_unit mzTolUnit -> added = []) /\
            (forall c w1 f g,
                rescue_criteria py_format np_percentile np_ma_median np_log2
                  ref comp refInd compInd rtSd mzSd w = (Ok c, w1) ->
                py_float rtTol = Ok f -> py_float mzTol = Ok g ->
                rtTolUnit = "1" \/ rtTolUnit = "2" ->
                mzTolUnit = "1" \/ mzTolUnit = "2" ->
                added
                = rescued_pairs c
                    (zip (zip (zip (uRefInd c) (uRef c))
                              (rescue_tolerances rtTolUnit f (u_rtSd c)
                                 (length (uRefInd c))))
                         (rescue_tolerances mzTolUnit g (u_mzSd c)
                            (length (uRefInd c)))))).
  { intros -> -> Hbad. exists []. cbn. rewrite !app_nil_r.
    repeat split; try constructor.
    intros c w1 f g _ _ _ Hrt Hmz.
    apply Hgood in Hrt, Hmz. destruct Hbad; congruence. }
  assert (Hwarn : forall w2,
    (let* _ := print warning_unit in
     let* _ := print warning_skipped in ret (refInd, compInd)) w2
    = (Ok (refInd', compInd'), w') ->
    refInd' = refInd /\ compInd' = compInd).
  { by intros w2 [= <- <-]. }
  unfold rescueFeatures in H.
  apply bind_Ok in H as (c & w1 & Hc & H).
  pose proof (rescue_criteria_Ok _ _ _ _ _ _ _ _ _ Hc) as [HuR HuC].
  destruct (String.eqb rtTolUnit "1" || String.eqb rtTolUnit "2") eqn:Hrt;
    [|apply Hwarn in H as [? ?]; apply Hnone; auto].
  apply bind_Ok in H as (rtTolv & w2 & Hrtv & H).
  apply unit_tolerances_Ok in Hrtv as (f & Hf & ->).
  destruct (String.eqb mzTolUnit "1" || String.eqb mzTolUnit "2") eqn:Hmz;
    [|apply Hwarn in H as [? ?]; apply Hnone; auto].
  apply bind_Ok in H as (mzTolv & w3 & Hmzv & H).
  apply unit_tolerances_Ok in Hmzv as (g & Hg & ->).
  rewrite rescue_loop_pairs in H.
  apply bind_Ok in H as (u & w4 & _ & H).
  apply ret_Ok in H as [[= -> ->] _].
  set (rows := zip (zip (zip (uRefInd c) (uRef c)) _) _).
  destruct (rescued_pairs_rows c rows) as [Hsub Hall].
  assert (Hsub' : (rescued_pairs c rows).*1 `sublist_of` uRefInd c).
  { etrans; [exact Hsub|apply zip3_fst_sublist]. }
  exists (rescued_pairs c rows). repeat split; try done.
  - eapply sublist_NoDup; [|exact Hsub']. rewrite HuR.
    apply NoDup_np_setdiff1d_range.
  - apply Forall_forall. intros k Hk.
    apply In_np_setdiff1d_range. rewrite <- HuR. apply list_elem_of_In.
    by apply (sublist_subseteq _ _ Hsub').
  - eapply Forall_impl; [exact Hall|]. cbn. intros k Hk.
    apply In_np_setdiff1d_range. rewrite <- HuC. by apply list_elem_of_In.
  - intros [Hbad|Hbad]; apply bad_unit_eqb in Hbad; congruence.
  - intros c' w1' f' g' Hc' Hf' Hg' _ _.
    rewrite Hc in Hc'. injection Hc' as <- _.
    rewrite Hf in Hf'. injection Hf' as <-.
    rewrite Hg in Hg'. by injection Hg' as <-.
Qed.

End RescueMore.

Module RescueMoreExample.

Import MatchExample.

(** Two aligned pairs and one pair left over that passes every criterion
    of the rescue. *)
Definition ref : list Feature :=
  [ feat 1 100%float 1 60%float 1000%float;
    feat 2 300%float 2 180%float 1000%float;
    feat 3 200%float 0 120%float 2000%float ].

Definition comp : list Feature :=
  [ feat 11 100.000244140625%float 1 61%float 1050%float;
    feat 12 300.000732421875%float 2 181%float 950%float;
    feat 13 200.00048828125%float 0 121%float 1950%float ].

Definition rescue :=
  rescueFeatures py_float RescueExample.py_format
    CalibrationExample.np_percentile RescueExample.np_ma_median
    RescueExample.np_log2 ref comp [0; 1] [0; 1] RescueExample.sds
    RescueExample.sds "2" "10" "2" "10" RescueExample.w0.

Lemma rescue_result : rescue = (Ok ([0; 1; 2], [0; 1; 2]), rescue.2).
Proof. vm_compute. reflexivity. Qed.

Definition criteria :=
  rescue_criteria RescueExample.py_format CalibrationExample.np_percentile
    RescueExample.np_ma_median RescueExample.np_log2 ref comp [0; 1] [0; 1]
    RescueExample.sds RescueExample.sds RescueExample.w0.

Definition criteria_out : RescueCriteria :=
  match criteria.1 with
  | Ok c => c
  | Raise _ => mkCriteria [] [] [] [] [] [] 0 0 0
  end.

Lemma criteria_result : criteria = (Ok criteria_out, criteria.2).
Proof. vm_compute. reflexivity. Qed.

(** The pair that is rescued is the pair that step 3 picks. *)
Lemma rescueFeatures_additive_witness :
  exists added : list (Z * Z),
    [0; 1; 2] = [0; 1] ++ added.*1 /\ [0; 1; 2] = [0; 1] ++ added.*2 /\
    added
    = rescued_pairs RescueExample.np_log2 criteria_out
        (zip (zip (zip (uRefInd criteria_out) (uRef criteria_out))
                  (rescue_tolerances "2" 10 (u_rtSd criteria_out)
                     (length (uRefInd criteria_out))))
             (rescue_tolerances "2" 10 (u_mzSd criteria_out)
                (length (uRefInd criteria_out)))) /\
    added = [(2, 2)].
Proof.
  destruct (rescueFeatures_additive py_float RescueExample.py_format
              CalibrationExample.np_percentile RescueExample.np_ma_median
              RescueExample.np_log2 ref comp [0; 1] [0; 1] RescueExample.sds
              RescueExample.sds "2" "10" "2" "10" RescueExample.w0
              [0; 1; 2] [0; 1; 2] rescue.2 rescue_result)
    as (added & H1 & H2 & _ & _ & _ & _ & Hpairs).
  exists added. split; [done|]. split; [done|].
  pose proof (Hpairs criteria_out criteria.2 10%float 10%float criteria_result
                eq_refl eq_refl (or_intror eq_refl) (or_intror eq_refl))
    as Hadded.
  split; [exact Hadded|]. rewrite Hadded. vm_compute. reflexivity.
Defined.

(** The unaligned reference row has charge 2, and so has the one comparison
    row that passes the criteria for it: the second test of the charge
    finds it, at position 0 of the candidates, and the pair is rescued. *)
Definition ref_charged : list Feature :=
  [ feat 1 100%float 1 60%float 1000%float;
    feat 2 300%float 2 180%float 1000%float;
    feat 3 200%float 2 120%float 2000%float ].

Definition comp_charged : list Feature :=
  [ feat 11 100.000244140625%float 1 61%float 1050%float;
    feat 12 300.000732421875%float 2 181%float 950%float;
    feat 13 200.00048828125%float 2 121%float 1950%float ].

Example charged_pair_rescued :
  (rescueFeatures py_float RescueExample.py_format
     CalibrationExample.np_percentile RescueExample.np_ma_median
     RescueExample.np_log2 ref_charged comp_charged [0; 1] [0; 1]
     RescueExample.sds RescueExample.sds "2" "10" "2" "10"
     RescueExample.w0).1
  = Ok ([0; 1; 2], [0; 1; 2]).
Proof. vm_compute. reflexivity. Qed.

End RescueMoreExample.

(** ** More on the alignment *)

(** *** Fully and partially aligned reference features *)

Lemma insert_unique_In x y l : In x (insert_unique y l) <-> x = y \/ In x l.
Proof.
  induction l as [|a l IH]; cbn; [intuition congruence|].
  destruct (Z.ltb_spec y a); cbn; [intuition congruence|].
  destruct (Z.eqb_spec y a); cbn; [subst; intuition congruence|].
  rewrite IH. intuition congruence.
Qed.

Lemma np_unique_In x l : In x (np_unique l) <-> In x l.
Proof.
  induction l as [|a l IH]; cbn; [tauto|].
  rewrite insert_unique_In, IH. intuition congruence.
Qed.

Lemma In_np_intersect1d x a b : In x (np_intersect1d a b) <-> In x a /\ In x b.
Proof.
  unfold np_intersect1d. by rewrite np_unique_In, filter_In, memZ_In.
Qed.

Lemma In_np_union1d x a b : In x (np_union1d a b) <-> In x a \/ In x b.
Proof. unfold np_union1d. rewrite np_unique_In. apply in_app_iff. Qed.

Lemma In_np_setdiff1d x a b : In x (np_setdiff1d a b) <-> In x a /\ ~ In x b.
Proof.
  unfold np_setdiff1d. rewrite filter_In, np_unique_In, negb_true_iff.
  split; intros [Ha Hb]; (split; [done|]).
  - intros Hin. apply memZ_In in Hin. congruence.
  - apply not_true_is_false. intros Hin. by apply memZ_In in Hin.
Qed.

Lemma In_where_present col r :
  In (Z.of_nat r) (where_present col) <-> exists v, col !! r = Some v /\ 0 <= v.
Proof.
  unfold where_present. rewrite <- list_elem_of_In, list_elem_of_omap. split.
  - intros ([i v] & Hiv & Hx).
    apply elem_of_lookup_imap in Hiv as (i' & v' & [= -> ->] & Hlook).
    cbn in Hx. destruct (Z.leb_spec 0 v'); [|done]. injection Hx as Hx.
    apply Nat2Z.inj in Hx. subst. by exists v'.
  - intros (v & Hlook & Hv). exists (r, v). split.
    + apply elem_of_lookup_imap. by exists r, v.
    + cbn. by rewrite (proj2 (Z.leb_le _ _) Hv).
Qed.

Lemma column_lookup i (indArray : list (list Z)) col r row :
  column i indArray = Ok col -> indArray !! r = Some row ->
  col !! r = row !! i.
Proof.
  unfold column. destruct (mapM _ indArray) as [c|] eqn:Hm; [|done].
  intros [= <-] Hrow. apply mapM_Some in Hm.
  destruct (Forall2_lookup_l _ _ _ _ _ Hm Hrow) as (y & Hy & Hi). congruence.
Qed.

Lemma partition_loop_spec refNo indArray runs :
  forall fullInd partialInd f p,
    partition_loop refNo indArray runs fullInd partialInd = Ok (f, p) ->
    (forall i, In i runs -> i <> refNo -> exists col, column i indArray = Ok col) /\
    (forall x, In x f <->
               In x fullInd /\
               forall i col, In i runs -> i <> refNo ->
                             column i indArray = Ok col ->
                             In x (where_present col)) /\
    (forall x, In x p <->
               In x partialInd \/
               exists i col, In i runs /\ i <> refNo /\
                             column i indArray = Ok col /\
                             In x (where_present col)).
Proof.
  induction runs as [|i runs IH]; intros fullInd partialInd f p; cbn.
  { intros [= <- <-]. split; [done|]. split; intros x.
    - split; [by intros ?|by intros [? _]].
    - split; [by left|]. by intros [?|(? & ? & [] & _)]. }
  destruct (Nat.eqb_spec i refNo) as [->|Hne].
  { intros H. apply IH in H as (Hcols & Hf & Hp). split; [|split].
    - intros j [<-|Hj] Hj'; [done|by apply Hcols].
    - intros x. rewrite Hf. split; intros [Hx Hall]; (split; [done|]).
      + intros j col [<-|Hj] Hj'; [done|by apply Hall].
      + intros j col Hj. apply Hall. by right.
    - intros x. rewrite Hp. split; (intros [Hx|(j & col & Hj & Hj' & Hc)];
        [by left|right; exists j, col]).
      + split; [by right|done].
      + destruct Hj as [<-|Hj]; done. }
  destruct (column i indArray) as [col|] eqn:Hcol; [cbn [rbind]|done].
  intros H. apply IH in H as (Hcols & Hf & Hp). split; [|split].
  - intros j [<-|Hj] Hj'; [by exists col|by apply Hcols].
  - intros x. rewrite Hf, In_np_intersect1d. split.
    + intros [[Hx Hw] Hall]. split; [done|].
      intros j col' [<-|Hj] Hj' Hc; [congruence|by eapply Hall].
    + intros [Hx Hall]. split; [split; [done|]|].
      * apply (Hall i col); [by left|done|done].
      * intros j col' Hj. apply Hall. by right.
  - intros x. rewrite Hp, In_np_union1d. split.
    + intros [[Hx|Hx]|(j & col' & Hj & Hj' & Hc)].
      * by left.
      * right. exists i, col. split; [by left|done].
      * right. exists j, col'. split; [by right|done].
    + intros [Hx|(j & col' & [<-|Hj] & Hj' & Hc & Hw)].
      * left. by left.
      * left. right. congruence.
      * right. by exists j, col'.
Qed.

(** X18.  The sets of fully and of partially aligned reference features:
    a reference feature is fully aligned when every run other than the
    reference run holds a feature for it (its entry in the row of the index
    array is not negative), and partially aligned when some such run does
    and it is not fully aligned. *)
Theorem partition_indices_meaning refNo n (indArray : list (list Z))
    fullInd partialInd r row :
  partition_indices refNo n indArray = Ok (fullInd, partialInd) ->
  indArray !! r = Some row ->
  (In (Z.of_nat r) fullInd <->
   forall i, (i < n)%nat -> i <> refNo -> exists v, row !! i = Some v /\ 0 <= v) /\
  (In (Z.of_nat r) partialInd <->
   (exists i v, (i < n)%nat /\ i <> refNo /\ row !! i = Some v /\ 0 <= v) /\
   ~ In (Z.of_nat r) fullInd).
Proof.
  unfold partition_indices. intros H Hrow.
  apply rbind_Ok in H as ([f p] & Hloop & H). injection H as <- <-.
  apply partition_loop_spec in Hloop as (Hcols & Hf & Hp). cbn [fst snd].
  assert (Hrange : In (Z.of_nat r) (py_range (length indArray))).
  { apply in_map, in_seq. apply lookup_lt_Some in Hrow. lia. }
  assert (Hpres : forall i col, column i indArray = Ok col ->
            (In (Z.of_nat r) (where_present col) <->
             exists v, row !! i = Some v /\ 0 <= v)).
  { intros i col Hc. rewrite In_where_present.
    by rewrite (column_lookup _ _ _ _ _ Hc Hrow). }
  split.
  - rewrite Hf. split.
    + intros [_ Hall] i Hi Hne.
      destruct (Hcols i) as [col Hc]; [apply in_seq; lia|done|].
      apply (Hpres i col Hc). apply (Hall i col); [apply in_seq; lia|done|done].
    + intros Hall. split; [done|]. intros i col Hi Hne Hc.
      apply (Hpres i col Hc). apply Hall; [|done]. apply in_seq in Hi. lia.
  - rewrite In_np_setdiff1d, Hp. split.
    + intros [[[]|(i & col & Hi & Hne & Hc & Hw)] Hnf]. split; [|done].
      apply (Hpres i col Hc) in Hw as (v & Hv & Hv').
      exists i, v. apply in_seq in Hi. split; [lia|done].
    + intros [(i & v & Hi & Hne & Hv & Hv') Hnf]. split; [|done]. right.
      destruct (Hcols i) as [col Hc]; [apply in_seq; lia|done|].
      exists i, col. split; [apply in_seq; lia|]. split; [done|].
      split; [done|]. apply (Hpres i col Hc). by exists v.
Qed.

(** *** The threshold step, for every threshold *)

(** A row of the partial table that the threshold step moves: it has a
    feature in at least [threshold] runs. *)
Definition promoted (colInd : list nat) (threshold : float) (row : list float)
  : bool :=
  match runs_present colInd row with
  | Ok k => F.int_ge k threshold
  | Raise _ => false
  end.

Lemma promoted_rows_split colInd threshold partial :
  forall i pre rowInd,
    length pre = i ->
    promoted_rows colInd threshold i partial = Ok rowInd ->
    Forall (fun r => (i <= r)%nat) rowInd /\
    rows_at rowInd (pre ++ partial)
    = List.filter (promoted colInd threshold) partial /\
    rows_without_from i rowInd partial
    = List.filter (fun row => negb (promoted colInd threshold row)) partial.
Proof.
  induction partial as [|row partial IH]; intros i pre rowInd Hi; cbn.
  { intros [= <-]. done. }
  destruct (runs_present colInd row) as [k|] eqn:Hk; [cbn [rbind]|done].
  assert (Hrow : promoted colInd threshold row = F.int_ge k threshold)
    by (unfold promoted; by rewrite Hk).
  rewrite Hrow.
  destruct (promoted_rows _ _ (S i) partial) as [rest|] eqn:Hrest;
    [cbn [rbind]|done].
  intros [= <-].
  destruct (IH (S i) (pre ++ [row]) rest) as (Hge & Hat & Hwo);
    [rewrite length_app; cbn; lia|done|].
  rewrite <- app_assoc in Hat. cbn in Hat.
  destruct (F.int_ge k threshold); cbn [negb].
  - split; [|split].
    + constructor; [done|]. eapply Forall_impl; [exact Hge|]. cbn. lia.
    + rewrite rows_at_cons, lookup_app_r by lia.
      rewrite Hi, Nat.sub_diag. cbn. by rewrite Hat.
    + cbn [existsb]. rewrite Nat.eqb_refl. cbn [orb].
      by rewrite rows_without_from_skip by lia.
  - split; [|split].
    + eapply Forall_impl; [exact Hge|]. cbn. lia.
    + done.
    + assert (Hno : existsb (Nat.eqb i) rest = false).
      { apply not_true_is_false. intros Hex.
        apply existsb_exists in Hex as (r & Hr & Heq).
        apply Nat.eqb_eq in Heq. subst r.
        rewrite Forall_forall in Hge. apply list_elem_of_In in Hr.
        specialize (Hge _ Hr). cbn in Hge. lia. }
      by rewrite Hno, Hwo.
Qed.

Lemma filter_split_perm {A} (f : A -> bool) (l : list A) :
  List.filter f l ++ List.filter (fun x => negb (f x)) l ≡ₚ l.
Proof.
  induction l as [|x l IH]; cbn; [done|].
  destruct (f x); cbn.
  - by rewrite IH.
  - by rewrite <- Permutation_middle, IH.
Qed.

Section AlignMore.

Variable py_float : string -> result float.
Variable py_format : string -> list pyarg -> result string.
Variable refNo : nat.
Variable nFiles : nat.
Variable featureNames : list string.
Variable rtSdArray : list sd_arg.
Variable mzSdArray : list sd_arg.

(** X19.  The threshold step loses no row and makes none: the rows it
    moves are rows of the partial table, they go to the end of the full
    table in their order, and the rows moved and the rows left are together
    the partial table.  The rows moved are those with a feature in at
    least ceil(pct_full_alignment / 100 * nFiles) runs; when
    pct_full_alignment is not below 100 no row is moved. *)
Theorem promote_conserves_rows (params : gmap string string) header
    full partial w full' partial' w' :
  promote py_float py_format nFiles params header full partial w
  = (Ok (full', partial'), w') ->
  exists s pct moved,
    params !! "pct_full_alignment" = Some s /\ py_float s = Ok pct /\
    full' = full ++ moved /\
    moved `sublist_of` partial /\ partial' `sublist_of` partial /\
    moved ++ partial' ≡ₚ partial /\
    (PrimFloat.ltb pct 100 = true ->
     moved = List.filter
               (promoted (index_columns header)
                  (F.ceil (pct / 100 * F.of_Z (Z.of_nat nFiles))%float))
               partial) /\
    (PrimFloat.ltb pct 100 = false -> moved = []).
Proof.
  unfold promote. intros H.
  apply bind_Ok in H as (pct & w1 & Hpct & H).
  apply lift_Ok in Hpct as [Hpct ->].
  apply rbind_Ok in Hpct as (s & Hs & Hf).
  unfold param in Hs. destruct (params !! "pct_full_alignment") as [s'|] eqn:Hp;
    [|done]. injection Hs as ->.
  exists s, pct. destruct (PrimFloat.ltb pct 100) eqn:Hlt.
  - apply bind_Ok in H as (rowInd & w2 & Hrows & H).
    apply lift_Ok in Hrows as [Hrows ->].
    apply bind_Ok in H as (u & w3 & _ & H). apply ret_Ok in H as [[= -> ->] _].
    fold (index_columns header) in Hrows.
    destruct (promoted_rows_split _ _ partial 0%nat [] rowInd eq_refl Hrows)
      as (_ & Hat & Hwo).
    cbn [app] in Hat. unfold rows_without. rewrite Hat, Hwo.
    eexists. repeat split; try done.
    + apply filter_sublist.
    + apply filter_sublist.
    + apply filter_split_perm.
  - apply bind_Ok in H as (u & w3 & _ & H). apply ret_Ok in H as [[= -> ->] _].
    exists []. rewrite app_nil_r. repeat split; try done.
    apply sublist_nil_l.
Qed.

(** X20.  When the number of the reference run is not the number of a
    feature table, or not the number of a file name, alignFeatures raises
    IndexError before it matches a run or prints a line. *)
Theorem alignFeatures_bad_reference fArray fNames params w :
  (length fArray <= refNo)%nat \/ (length fNames <= refNo)%nat ->
  alignFeatures py_float py_format refNo nFiles featureNames rtSdArray
    mzSdArray fArray fNames params w
  = (Raise IndexError, w).
Proof.
  intros Hbad. unfold alignFeatures, bind at 1, lift at 1, rows_of, table_of.
  destruct (fArray !! refNo) as [t|] eqn:Ht; [cbn [rbind]|done].
  destruct Hbad as [Hbad|Hbad].
  { apply lookup_lt_Some in Ht. lia. }
  unfold bind at 1, lift at 1.
  by rewrite (proj2 (Nat.ltb_ge _ _) Hbad).
Qed.

End AlignMore.

Module AlignMoreExample.

Import AlignExample.

(** The index array of three reference features over three runs, run 0
    the reference: the first feature is in both other runs, the second in
    one of them, the third in none. *)
Definition indArray : list (list Z) := [[0; 5; 7]; [1; -1; 3]; [2; -1; -1]].

Lemma partition_result : partition_indices 0 3 indArray = Ok ([0], [1]).
Proof. vm_compute. reflexivity. Qed.

Lemma partition_indices_meaning_witness :
  (In 1 [0] <->
   forall i, (i < 3)%nat -> i <> 0%nat ->
             exists v, [1; -1; 3] !! i = Some v /\ 0 <= v) /\
  (In 1 [1] <->
   (exists i v, (i < 3)%nat /\ i <> 0%nat /\ [1; -1; 3] !! i = Some v /\ 0 <= v) /\
   ~ In 1 [0]).
Proof.
  exact (partition_indices_meaning 0 3 indArray [0] [1] 1 [1; -1; 3]
           partition_result eq_refl).
Defined.

Lemma promote_conserves_rows_witness :
  exists s pct moved,
    half !! "pct_full_alignment" = Some s /\ py_float s = Ok pct /\
    full0 ++ [[2%float; 200%float; nan; nan]] = full0 ++ moved /\
    moved `sublist_of` partial0 /\
    [[nan; nan; nan; nan]] `sublist_of` partial0 /\
    moved ++ [[nan; nan; nan; nan]] ≡ₚ partial0 /\
    (PrimFloat.ltb pct 100 = true ->
     moved = List.filter
               (promoted (index_columns header)
                  (F.ceil (pct / 100 * F.of_Z (Z.of_nat 2))%float))
               partial0) /\
    (PrimFloat.ltb pct 100 = false -> moved = []).
Proof.
  exact (promote_conserves_rows py_float py_format 2 half header full0
           partial0 w0 _ _ step.2 step_result).
Defined.

Lemma alignFeatures_bad_reference_witness :
  alignFeatures py_float py_format 2 2 fNames rtSdArray mzSdArray
    fArray fNames half w0
  = (Raise IndexError, w0).
Proof.
  refine (alignFeatures_bad_reference py_float py_format 2 2 fNames rtSdArray
            mzSdArray fArray fNames half w0 _).
  left. cbn. lia.
Defined.

End AlignMoreExample.

(** ** What the functions leave alone *)

(** [c] leaves the part [proj] of the world as it is, whether it returns
    or raises. *)
Definition keeps {A B} (proj : world -> B) (c : M A) : Prop :=
  forall w r w', c w = (r, w') -> proj w' = proj w.

Lemma keeps_bind_proj {A B C} (proj : world -> C) (c : M A) (k : A -> M B) :
  keeps proj c -> (forall a, keeps proj (k a)) -> keeps proj (bind c k).
Proof.
  intros Hc Hk w r w'. unfold bind.
  destruct (c w) as [[a|e] w1] eqn:Hcw.
  - intros Hkw. rewrite (Hk _ _ _ _ Hkw). by eapply Hc.
  - intros [= <- <-]. by eapply Hc.
Qed.

Lemma keeps_ret_proj {A C} (proj : world -> C) (a : A) : keeps proj (ret a).
Proof. by intros w r w' [= <- <-]. Qed.

Lemma keeps_lift_proj {A C} (proj : world -> C) (r : result A) :
  keeps proj (lift r).
Proof. by intros w r' w' [= <- <-]. Qed.

Lemma keeps_np_read_proj {C} (proj : world -> C) l : keeps proj (np_read l).
Proof.
  intros w r w'. unfold np_read. destruct (arrays w !! l); by intros [= <- <-].
Qed.

(** The console, the random generator and the history of passes do not see
    what is done to the arrays. *)
Definition off_arrays {C} (proj : world -> C) : Prop :=
  forall h w, proj (set_arrays h w) = proj w.

Lemma off_arrays_stdout : off_arrays stdout.
Proof. done. Qed.

Lemma off_arrays_rng : off_arrays rng_drawn.
Proof. done. Qed.

Lemma off_arrays_passes : off_arrays lc_passes.
Proof. done. Qed.

Lemma keeps_np_new {C} (proj : world -> C) xs :
  off_arrays proj -> keeps proj (np_new xs).
Proof. intros Hoff w r w' [= <- <-]. apply Hoff. Qed.

Lemma keeps_np_write {C} (proj : world -> C) l xs :
  off_arrays proj -> keeps proj (np_write l xs).
Proof. intros Hoff w r w' [= <- <-]. apply Hoff. Qed.

Lemma keeps_sd_repeat {C} (proj : world -> C) sd n :
  off_arrays proj -> keeps proj (sd_repeat sd n).
Proof.
  intros Hoff. destruct sd; cbn; try apply keeps_ret_proj.
  apply keeps_bind_proj; [by apply keeps_np_new|intros; apply keeps_ret_proj].
Qed.

Lemma keeps_sd_floor {C} (proj : world -> C) sd :
  off_arrays proj -> keeps proj (sd_floor sd).
Proof.
  intros Hoff. destruct sd; cbn; try (by intros w r w' [= <- <-]).
  unfold floor_in_place.
  apply keeps_bind_proj; [apply keeps_np_read_proj|intros].
  apply keeps_bind_proj; [apply keeps_lift_proj|intros].
  by apply keeps_np_write.
Qed.

Lemma keeps_sd_times {C} (proj : world -> C) sd x : keeps proj (sd_times sd x).
Proof.
  destruct sd; cbn; try (by intros w r w' [= <- <-]).
  apply keeps_bind_proj; [apply keeps_np_read_proj|intros; apply keeps_ret_proj].
Qed.

Section LeavesAlone.

Variable py_float : string -> result float.

Lemma keeps_tolerances {C} (proj : world -> C) n rtSd mzSd params :
  off_arrays proj -> keeps proj (tolerances py_float n rtSd mzSd params).
Proof.
  intros Hoff. unfold tolerances.
  apply keeps_bind_proj; [by apply keeps_sd_repeat|intros].
  apply keeps_bind_proj; [by apply keeps_sd_repeat|intros].
  apply keeps_bind_proj; [by apply keeps_sd_floor|intros].
  apply keeps_bind_proj; [by apply keeps_sd_floor|intros].
  apply keeps_bind_proj; [apply keeps_lift_proj|intros].
  apply keeps_bind_proj; [apply keeps_sd_times|intros].
  apply keeps_bind_proj; [apply keeps_sd_times|intros].
  apply keeps_ret_proj.
Qed.

Lemma keeps_matchFeatures {C} (proj : world -> C) ref comp rtSd mzSd params step :
  off_arrays proj ->
  keeps proj (matchFeatures py_float ref comp rtSd mzSd params step).
Proof.
  intros Hoff. unfold matchFeatures.
  apply keeps_bind_proj; [by apply keeps_tolerances|intros [? ?]].
  apply keeps_lift_proj.
Qed.

Lemma keeps_findMatchedSubset {C} (proj : world -> C) ref comp rtSd mzSd params :
  off_arrays proj ->
  keeps proj (findMatchedSubset py_float ref comp rtSd mzSd params).
Proof.
  intros Hoff. unfold findMatchedSubset.
  apply keeps_bind_proj; [by apply keeps_tolerances|intros [? ?]].
  apply keeps_lift_proj.
Qed.

(** X21.  matchFeatures and findMatchedSubset print nothing and draw no
    random number, whether they return or raise; and a call that returns
    has left every array that it was not passed as it was (so, with two
    scalar SDs, every array of the caller). *)
Theorem matching_touches_only_its_sds ref comp rtSd mzSd params step w
    r1 w1 r2 w2 :
  matchFeatures py_float ref comp rtSd mzSd params step w = (r1, w1) ->
  findMatchedSubset py_float ref comp rtSd mzSd params w = (r2, w2) ->
  (stdout w1 = stdout w /\ rng_drawn w1 = rng_drawn w /\
   stdout w2 = stdout w /\ rng_drawn w2 = rng_drawn w) /\
  (forall l sd,
      arrays w !! l = Some sd -> rtSd <> SdArray l -> mzSd <> SdArray l ->
      (forall out, r1 = Ok out -> arrays w1 !! l = Some sd) /\
      (forall sub, r2 = Ok sub -> arrays w2 !! l = Some sd)).
Proof.
  intros H1 H2. split.
  - pose proof (keeps_matchFeatures stdout _ _ _ _ _ _ off_arrays_stdout
                  _ _ _ H1).
    pose proof (keeps_matchFeatures rng_drawn _ _ _ _ _ _ off_arrays_rng
                  _ _ _ H1).
    pose proof (keeps_findMatchedSubset stdout _ _ _ _ _ off_arrays_stdout
                  _ _ _ H2).
    pose proof (keeps_findMatchedSubset rng_drawn _ _ _ _ _ off_arrays_rng
                  _ _ _ H2).
    done.
  - intros l sd Hl Hrt Hmz. split.
    + intros out ->. apply matchFeatures_Ok in H1 as (rtTol & mzTol & Ht & _).
      destruct (tolerances_arrays _ _ _ _ _ _ _ _ _ _ Ht Hl) as [_ Hfr]. auto.
    + intros sub ->.
      apply findMatchedSubset_Ok in H2 as (rtTol & mzTol & Ht & _).
      destruct (tolerances_arrays _ _ _ _ _ _ _ _ _ _ Ht Hl) as [_ Hfr]. auto.
Qed.

End LeavesAlone.

(** ** The random generator in the local calibration *)

(** [c] draws from the random generator only in a run that raises
    TypeError. *)
Definition draws_only_to_fail {A} (c : M A) : Prop :=
  forall w r w', c w = (r, w') ->
    rng_drawn w' = rng_drawn w \/ r = Raise TypeError.

Lemma keeps_rng_no_draw {A} (c : M A) :
  keeps rng_drawn c -> draws_only_to_fail c.
Proof. intros Hc w r w' H. left. by eapply Hc. Qed.

Lemma draws_bind {A B} (c : M A) (k : A -> M B) :
  draws_only_to_fail c -> (forall a, draws_only_to_fail (k a)) ->
  draws_only_to_fail (bind c k).
Proof.
  intros Hc Hk w r w'. unfold bind.
  destruct (c w) as [[a|e] w1] eqn:Hcw.
  - intros Hkw. destruct (Hc _ _ _ Hcw) as [Hw|]; [|done].
    destruct (Hk _ _ _ _ Hkw) as [Hw'|]; [left; congruence|by right].
  - intros [= <- <-]. destruct (Hc _ _ _ Hcw) as [?|[= ->]]; [by left|by right].
Qed.

Lemma draws_keep_bind {A B} (c : M A) (k : A -> M B) :
  keeps rng_drawn c -> (forall a, draws_only_to_fail (k a)) ->
  draws_only_to_fail (bind c k).
Proof. intros Hc. apply draws_bind. by apply keeps_rng_no_draw. Qed.

Lemma draws_lift_bind {A B} (r : result A) (k : A -> M B) :
  (forall a, draws_only_to_fail (k a)) -> draws_only_to_fail (bind (lift r) k).
Proof. apply draws_keep_bind, keeps_lift_proj. Qed.

Section Jitter.

Variable py_float : string -> result float.
Variable py_int : string -> result Z.
Variable py_format : string -> list pyarg -> result string.
Variable np_percentile : list float -> float -> result float.
Variable np_median : list float -> float.
Variable np_std1 : list float -> float.
Variable std_normal : nat -> float.
Variable r_model : Type.
Variable loess_as : list float -> list float -> result r_model.
Variable r_fitted : r_model -> list float.
Variable r_predict : r_model -> float -> float.

(** After a guard, what follows either gets a Series and behaves, or gets
    the one float and raises TypeError. *)
Lemma draws_rt_shifts {B} a b (k : shifts -> M B) :
  (forall x w, exists w', k (Scalar x) w = (Raise TypeError, w')) ->
  (forall xs, draws_only_to_fail (k (Series xs))) ->
  draws_only_to_fail (bind (rt_shifts std_normal a b) k).
Proof.
  intros Hs Hv w r w'. unfold rt_shifts.
  destruct (all_equal a b).
  - unfold bind at 1 2, np_random_normal, ret.
    match goal with
    | |- k (Scalar ?x) ?w1 = _ -> _ => destruct (Hs x w1) as [w2 Hk]
    end.
    rewrite Hk. intros [= <- <-]. by right.
  - unfold bind at 1, ret. apply Hv.
Qed.

Lemma draws_mz_shifts {B} a b (k : shifts -> M B) :
  (forall x w, exists w', k (Scalar x) w = (Raise TypeError, w')) ->
  (forall xs, draws_only_to_fail (k (Series xs))) ->
  draws_only_to_fail (bind (mz_shifts std_normal a b) k).
Proof.
  intros Hs Hv w r w'. unfold mz_shifts.
  destruct (all_equal a b).
  - unfold bind at 1 2, np_random_normal, ret.
    match goal with
    | |- k (Scalar ?x) ?w1 = _ -> _ => destruct (Hs x w1) as [w2 Hk]
    end.
    rewrite Hk. intros [= <- <-]. by right.
  - unfold bind at 1, ret. apply Hv.
Qed.

Lemma keeps_rng_sd_from_model (m : r_model) xs :
  keeps rng_drawn (sd_from_model r_model r_predict m xs).
Proof.
  unfold sd_from_model.
  apply keeps_bind_proj; [apply keeps_np_new, off_arrays_rng|intros].
  apply keeps_ret_proj.
Qed.

Lemma draws_refit_rtSd ref a b :
  draws_only_to_fail
    (refit_rtSd np_percentile std_normal r_model loess_as r_predict ref a b).
Proof.
  unfold refit_rtSd. apply draws_rt_shifts.
  - intros x w. exists w. unfold bind, lift. cbn.
    by destruct (PrimFloat.eqb x x).
  - intros xs. apply draws_lift_bind. intros ind.
    apply draws_lift_bind. intros m.
    apply keeps_rng_no_draw, keeps_rng_sd_from_model.
Qed.

Lemma draws_refit_mzSd ref a b :
  draws_only_to_fail
    (refit_mzSd std_normal r_model loess_as r_predict ref a b).
Proof.
  unfold refit_mzSd. apply draws_mz_shifts.
  - intros x w. by exists w.
  - intros xs. apply draws_lift_bind. intros m.
    apply keeps_rng_no_draw, keeps_rng_sd_from_model.
Qed.

Lemma draws_localCalibration ref comp rtSd mzSd params ty :
  draws_only_to_fail
    (localCalibration py_float np_percentile std_normal r_model loess_as
       r_fitted r_predict ref comp rtSd mzSd params ty).
Proof.
  unfold localCalibration.
  apply draws_keep_bind; [by intros w r w' [= <- <-]|intros _].
  apply draws_keep_bind;
    [apply keeps_findMatchedSubset, off_arrays_rng|intros subDf].
  apply draws_lift_bind. intros _.
  destruct (String.eqb ty "RT").
  { apply draws_rt_shifts.
    - intros x w. by exists w.
    - intros xs. apply draws_lift_bind. intros fit.
      apply draws_lift_bind. intros compRt.
      apply draws_bind; [apply draws_refit_rtSd|intros sd1].
      apply draws_bind; [apply draws_refit_mzSd|intros sd2].
      apply keeps_rng_no_draw, keeps_ret_proj. }
  destruct (String.eqb ty "mz").
  { apply draws_mz_shifts.
    - intros x w. by exists w.
    - intros xs. apply draws_lift_bind. intros fit.
      apply draws_lift_bind. intros compMz.
      apply draws_bind; [apply draws_refit_mzSd|intros sd2].
      apply draws_bind; [apply draws_refit_rtSd|intros sd1].
      apply keeps_rng_no_draw, keeps_ret_proj. }
  apply keeps_rng_no_draw, keeps_ret_proj.
Qed.

Lemma keeps_rng_print s : keeps rng_drawn (print s).
Proof. by intros w r w' [= <- <-]. Qed.

Lemma keeps_rng_printf fmt args : keeps rng_drawn (printf py_format fmt args).
Proof.
  unfold printf.
  apply keeps_bind_proj; [apply keeps_lift_proj|intros; apply keeps_rng_print].
Qed.

Lemma keeps_rng_report_round a b c sd :
  keeps rng_drawn (report_round py_format a b c sd).
Proof.
  unfold report_round.
  apply keeps_bind_proj; [apply keeps_rng_print|intros].
  apply keeps_bind_proj.
  { destruct sd; cbn; [apply keeps_ret_proj| |apply keeps_lift_proj].
    apply keeps_bind_proj; [apply keeps_np_read_proj|intros; apply keeps_lift_proj]. }
  intros. apply keeps_bind_proj; [apply keeps_rng_printf|intros].
  apply keeps_bind_proj.
  { destruct sd; cbn; [apply keeps_ret_proj| |apply keeps_lift_proj].
    apply keeps_bind_proj; [apply keeps_np_read_proj|intros; apply keeps_lift_proj]. }
  intros. apply keeps_rng_printf.
Qed.

Lemma draws_calibrateFeatures params ref comp parameters :
  draws_only_to_fail
    (calibrateFeatures py_float py_int py_format np_percentile np_median
       np_std1 std_normal r_model loess_as r_fitted r_predict params ref comp
       parameters).
Proof.
  unfold calibrateFeatures. cbv zeta.
  repeat first
    [ apply draws_lift_bind; intros
    | apply draws_keep_bind; [first [apply keeps_rng_print
                                    |apply keeps_rng_printf
                                    |apply keeps_rng_report_round]|intros]
    | apply draws_bind; [apply draws_localCalibration|intros [[[? ?] ?] ?]]
    | apply keeps_rng_no_draw, keeps_ret_proj ].
Qed.

(** X22.  The jitter of the degenerate guards is never used: a run of
    localCalibration, and so a run of calibrateFeatures, that has drawn
    from the random generator raises TypeError, on every input; a run that
    returns has drawn nothing. *)
Theorem jitter_never_used ref comp rtSd mzSd params ty parameters w r w' r' w'' :
  localCalibration py_float np_percentile std_normal r_model loess_as
    r_fitted r_predict ref comp rtSd mzSd params ty w = (r, w') ->
  calibrateFeatures py_float py_int py_format np_percentile np_median
    np_std1 std_normal r_model loess_as r_fitted r_predict params ref comp
    parameters w = (r', w'') ->
  (rng_drawn w' = rng_drawn w \/ r = Raise TypeError) /\
  (rng_drawn w'' = rng_drawn w \/ r' = Raise TypeError).
Proof.
  intros H1 H2. split.
  - by eapply draws_localCalibration.
  - by eapply draws_calibrateFeatures.
Qed.

End Jitter.

Module LeavesAloneExample.

Import MatchExample.

Lemma matching_touches_only_its_sds_witness :
  (stdout (snd run) = stdout w0 /\ rng_drawn (snd run) = rng_drawn w0 /\
   stdout (snd MatchMoreExample.sub_run) = stdout w0 /\
   rng_drawn (snd MatchMoreExample.sub_run) = rng_drawn w0) /\
  (forall l sd,
      arrays w0 !! l = Some sd ->
      SdArray 1%positive <> SdArray l -> SdArray 2%positive <> SdArray l ->
      (forall out', Ok out = Ok out' -> arrays (snd run) !! l = Some sd) /\
      (forall sub, Ok MatchMoreExample.sub = Ok sub ->
                   arrays (snd MatchMoreExample.sub_run) !! l = Some sd)).
Proof.
  exact (matching_touches_only_its_sds py_float ref comp (SdArray 1%positive)
           (SdArray 2%positive) params "align" w0 (Ok out) (snd run)
           (Ok MatchMoreExample.sub) (snd MatchMoreExample.sub_run)
           match_run_result MatchMoreExample.sub_run_result).
Defined.

End LeavesAloneExample.

Module JitterExample.

Import CalibrationExample.

Lemma jitter_never_used_witness :
  (rng_drawn pass.2 = rng_drawn w0 \/
   Ok (pass_out.1.1.1, pass_out.1.1.2, pass_out.1.2, pass_out.2)
   = Raise TypeError) /\
  (rng_drawn run.2 = rng_drawn w0 \/
   Ok (CalibrationMoreExample.run_out.1.1, CalibrationMoreExample.run_out.1.2,
       CalibrationMoreExample.run_out.2) = Raise TypeError).
Proof.
  exact (jitter_never_used py_float py_int py_format np_percentile np_median
           np_std1 std_normal r_model loess_as r_fitted r_predict
           ref comp (SdScalar 1%float) (SdScalar 1%float) params "mz" params
           w0 _ pass.2 _ run.2 pass_returns CalibrationMoreExample.run_result).
Defined.

End JitterExample.

(** ** The shape of what alignFeatures returns *)

Lemma result_map_Ok {A B} (f : A -> result B) (l : list A) ys :
  result_map f l = Ok ys -> Forall2 (fun x y => f x = Ok y) l ys.
Proof.
  revert ys. induction l as [|x l IH]; intros ys; cbn.
  { intros [= <-]. constructor. }
  destruct (f x) as [y|] eqn:Hy; [cbn [rbind]|done].
  destruct (result_map f l) as [rest|]; [cbn [rbind]|done].
  intros [= <-]. constructor; [done|by apply IH].
Qed.

Lemma fit_row_length width line row :
  fit_row width line = Ok row -> length row = width.
Proof.
  unfold fit_row. destruct (Nat.eqb_spec (length line) width) as [Heq|Hne].
  { by intros [= <-]. }
  destruct line as [|x [|y line]]; try done.
  intros [= <-]. apply repeat_length.
Qed.

Lemma rows_at_elem rowInd (t : table) row :
  row ∈ rows_at rowInd t -> row ∈ t.
Proof.
  unfold rows_at. intros H. apply list_elem_of_omap in H as (i & _ & Hi).
  by eapply list_elem_of_lookup_2.
Qed.

Lemma rows_without_from_elem rowInd (t : table) :
  forall i row, row ∈ rows_without_from i rowInd t -> row ∈ t.
Proof.
  induction t as [|r t IH]; intros i row; cbn; [done|].
  destruct (existsb (Nat.eqb i) rowInd).
  - intros H. right. by eapply IH.
  - intros [->|H]%elem_of_cons; [left|right; by eapply IH].
Qed.

Section AlignShapes.

Variable py_float : string -> result float.
Variable py_format : string -> list pyarg -> result string.
Variable refNo : nat.
Variable nFiles : nat.
Variable featureNames : list string.
Variable rtSdArray : list sd_arg.
Variable mzSdArray : list sd_arg.

Lemma build_tables_shapes r fArray n nRef indArray fullInd partialInd
    full partial unaligned :
  build_tables r fArray n nRef indArray fullInd partialInd
  = Ok (full, partial, unaligned) ->
  exists names row0 t0 rest,
    fArray = RecArray names (row0 :: t0) :: rest /\
    length full = length fullInd /\ length partial = length partialInd /\
    length unaligned = n /\
    Forall (fun row => length row = (n * length row0)%nat) (full ++ partial).
Proof.
  unfold build_tables. intros H.
  apply rbind_Ok in H as (nCols & Hn & H).
  unfold table_of in Hn.
  destruct fArray as [|[rows|names [|row0 t0]] rest]; try done.
  cbn in Hn. injection Hn as <-.
  apply rbind_Ok in H as (full0 & Hfull & H).
  apply rbind_Ok in H as (partial0 & Hpartial & H).
  apply rbind_Ok in H as (unaligned0 & Hun & H).
  injection H as <- <- <-.
  apply result_map_Ok in Hfull, Hpartial, Hun.
  exists names, row0, t0, rest. split; [done|].
  split; [symmetry; by eapply Forall2_length|].
  split; [rewrite length_map; symmetry; by eapply Forall2_length|].
  split; [rewrite <- (Forall2_length _ _ _ Hun); apply length_seq|].
  apply Forall_app. split.
  - apply Forall_forall. intros row Hrow.
    apply list_elem_of_lookup in Hrow as [i Hi].
    destruct (Forall2_lookup_r _ _ _ _ _ Hfull Hi) as (f & _ & Hf).
    apply rbind_Ok in Hf as (ind_row & _ & Hf).
    apply rbind_Ok in Hf as (line & _ & Hf). by apply fit_row_length in Hf.
  - apply Forall_forall. intros row Hrow.
    apply list_elem_of_fmap in Hrow as (row' & -> & Hrow).
    rewrite length_map.
    apply list_elem_of_lookup in Hrow as [i Hi].
    destruct (Forall2_lookup_r _ _ _ _ _ Hpartial Hi) as (f & _ & Hf).
    apply rbind_Ok in Hf as (ind_row & _ & Hf).
    apply rbind_Ok in Hf as (line & _ & Hf). by apply fit_row_length in Hf.
Qed.

(** With the reference alone, every reference feature is fully aligned,
    and no row of the reference is left unaligned. *)
Lemma build_tables_single names rows rest nRef indArray fullInd
    full partial unaligned :
  build_tables 0 (RecArray names rows :: rest) 1 nRef indArray
    fullInd [] = Ok (full, partial, unaligned) ->
  (forall x, In x (py_range nRef) -> In x fullInd) ->
  partial = [] /\ unaligned = [[]].
Proof.
  intros H Hall. unfold build_tables in H.
  apply rbind_Ok in H as (nCols & _ & H).
  apply rbind_Ok in H as (full0 & _ & H).
  apply rbind_Ok in H as (partial0 & Hp & H).
  apply rbind_Ok in H as (unaligned0 & Hun & H).
  injection Hp as <-. injection H as _ <- <-. split; [done|].
  cbn in Hun.
  rewrite np_setdiff1d_nil in Hun.
  - cbn in Hun. by injection Hun as <-.
  - intros x Hx. unfold np_union1d. apply np_unique_In.
    rewrite app_nil_r. by apply Hall.
Qed.

(** X23.  A call of alignFeatures that returns has one run, the reference,
    and the table of that run is a record array with at least one row.
    Every feature of the run is then in the fully aligned table, on a row
    of as many cells as the record array has columns; the partially aligned
    table is empty, and the one table of unaligned features is empty. *)
Theorem alignFeatures_shapes fArray fNames params w full partial unaligned w' :
  alignFeatures py_float py_format refNo nFiles featureNames rtSdArray
    mzSdArray fArray fNames params w
  = (Ok (full, partial, unaligned), w') ->
  length fNames = 1%nat /\ refNo = 0%nat /\
  exists names row0 t0 rest,
    fArray = RecArray names (row0 :: t0) :: rest /\
    length full = S (length t0) /\
    Forall (fun row => length row = length row0) full /\
    partial = [] /\ unaligned = [[]].
Proof.
  intros H.
  destruct (alignFeatures_Ok_single _ _ _ _ _ _ _ _ _ _ _ _ _ H)
    as (Hn & Hr & names & rows & rest & ->).
  split; [done|]. split; [done|].
  unfold alignFeatures in H. rewrite Hn, Hr in H.
  apply bind_Ok in H as (nRef & w1 & HnRef & H).
  apply lift_Ok in HnRef as [[= <-] _]. cbn [shape0] in H.
  apply bind_Ok in H as (u & w2 & _ & H).
  apply bind_Ok in H as (indArray & w3 & Hruns & H).
  assert (indArray = map (fun r => <[0%nat := Z.of_nat r]> (repeat (-1) 1))
                         (seq 0 (length rows))) as ->.
  { cbn [seq align_runs] in Hruns. unfold align_run in Hruns.
    rewrite Nat.eqb_refl in Hruns. by injection Hruns as <- _. }
  apply bind_Ok in H as (u2 & w4 & _ & H).
  apply bind_Ok in H as (colNames & w5 & _ & H).
  apply bind_Ok in H as ([fullInd partialInd] & w6 & Hp & H).
  apply lift_Ok in Hp as [Hp _]. cbn in Hp.
  rewrite length_map, length_seq in Hp. injection Hp as <- <-.
  apply bind_Ok in H as ([[full0 partial0] unaligned0] & w7 & Hb & H).
  apply lift_Ok in Hb as [Hb _].
  apply bind_Ok in H as (u3 & w8 & _ & H).
  apply bind_Ok in H as ([full1 partial1] & w9 & Hpr & H).
  apply ret_Ok in H as [[= -> -> ->] _].
  destruct (build_tables_single _ _ _ _ _ _ _ _ _ Hb) as [-> ->]; [done|].
  apply promote_nil in Hpr as [-> ->].
  apply build_tables_shapes in Hb
    as (names' & row0 & t0 & rest' & [= <- -> <-] & Hlen & _ & _ & Hall).
  exists names, row0, t0, rest. split; [done|].
  unfold py_range in Hlen. rewrite length_map, length_seq in Hlen.
  split; [done|]. split; [|done].
  rewrite app_nil_r in Hall. eapply Forall_impl; [exact Hall|].
  cbn. intros row ->. lia.
Qed.

End AlignShapes.

Module AlignShapesExample.

Import AlignExample.

(** One run, the reference, as a record array of two features with the
    fields index, mz and RT. *)
Definition records1 : frame :=
  RecArray ["index"; "mz"; "RT"]
    [ [1%float; 100%float; 60%float]; [2%float; 200%float; 90%float] ].

Definition aligned :=
  alignFeatures py_float py_format 0 1 ["run1"] [] [] [records1] ["run1"]
    half w0.

Lemma aligned_result :
  aligned
  = (Ok ([ [1%float; 100%float; 60%float]; [2%float; 200%float; 90%float] ],
         [], [[]]), aligned.2).
Proof. vm_compute. reflexivity. Qed.

Lemma alignFeatures_shapes_witness :
  length ["run1"] = 1%nat /\ 0%nat = 0%nat /\
  exists names row0 t0 rest,
    [records1] = RecArray names (row0 :: t0) :: rest /\
    length [ [1%float; 100%float; 60%float]; [2%float; 200%float; 90%float] ]
    = S (length t0) /\
    Forall (fun row => length row = length row0)
           [ [1%float; 100%float; 60%float]; [2%float; 200%float; 90%float] ] /\
    (@nil (list float)) = [] /\ [@nil (list float)] = [[]].
Proof.
  exact (alignFeatures_shapes py_float py_format 0 1 ["run1"] [] []
           [records1] ["run1"] half w0 _ _ _ aligned.2 aligned_result).
Defined.

End AlignShapesExample.


(** ** The most intense candidate *)

Lemma labelled_rows df : (labelled df).*2 = df.
Proof.
  apply list_eq. intros i. unfold labelled.
  rewrite list_lookup_fmap, list_lookup_imap. by destruct (df !! i).
Qed.

Lemma head_filter_most_intense (f : nat * Feature -> bool) pool c t :
  descending pool.*2 ->
  List.filter f pool = c :: t ->
  forall c', c' ∈ pool -> f c' = true -> more_intense c'.2 c.2 = false.
Proof.
  induction pool as [|p pool IH]; cbn; [done|].
  intros [Hp Hd]. destruct (f p) eqn:Hfp.
  - intros [= <- <-] c' [->|Hin]%elem_of_cons _.
    + apply more_intense_irrefl.
    + rewrite Forall_forall in Hp. apply Hp.
      apply list_elem_of_fmap. by exists c'.
  - intros Hf c' [->|Hin]%elem_of_cons Hc'; [congruence|by eapply IH].
Qed.

Lemma subset_choice_most_intense rt mt r pool l c :
  descending pool.*2 ->
  subset_choice rt mt r pool = Some (l, c) ->
  forall l' c', (l', c') ∈ pool -> in_tolerance rt mt r c' = true ->
                z r = 0 \/ z c' = z r -> more_intense c' c = false.
Proof.
  unfold subset_choice. intros Hd H l' c' Hin Htol Hz.
  destruct (Z.eqb_spec (z r) 0) as [Hz0|Hz0].
  - destruct (candidates rt mt r pool) as [|first t] eqn:Hc; [done|].
    injection H as ->.
    by apply (head_filter_most_intense _ _ _ _ Hd Hc (l', c')).
  - destruct (candidates_charge rt mt r pool) as [|first t] eqn:Hc; [done|].
    injection H as ->.
    apply (head_filter_most_intense _ _ _ _ Hd Hc (l', c')); [done|].
    cbn. rewrite Htol. unfold same_charge. cbn.
    apply Z.eqb_eq. by destruct Hz.
Qed.

Lemma subset_loop_most_intense rtTol mzTol refs pool :
  descending pool.*2 ->
  forall i sub,
    subset_loop rtTol mzTol i refs pool = Ok sub ->
    Forall (fun row => exists k rt mt r l c,
              refs !! k = Some r /\
              rtTol !! (i + k)%nat = Some rt /\ mzTol !! (i + k)%nat = Some mt /\
              (l, c) ∈ pool /\
              row = mkSubRow (mz r) (RT r) (intensity r)
                             (mz c) (RT c) (intensity c) /\
              forall l' c', (l', c') ∈ pool ->
                            in_tolerance rt mt r c' = true ->
                            z r = 0 \/ z c' = z r ->
                            more_intense c' c = false) sub.
Proof.
  intros Hd. induction refs as [|r refs IH]; intros i sub; cbn.
  { intros [= <-]. constructor. }
  unfold np_get.
  destruct (rtTol !! i) as [rt|] eqn:Hrt; [cbn [rbind]|done].
  destruct (mzTol !! i) as [mt|] eqn:Hmt; [cbn [rbind]|done].
  assert (Hshift : forall rest,
            subset_loop rtTol mzTol (S i) refs pool = Ok rest ->
            Forall (fun row => exists k rt mt r0 l c,
              (r :: refs) !! k = Some r0 /\
              rtTol !! (i + k)%nat = Some rt /\ mzTol !! (i + k)%nat = Some mt /\
              (l, c) ∈ pool /\
              row = mkSubRow (mz r0) (RT r0) (intensity r0)
                             (mz c) (RT c) (intensity c) /\
              forall l' c', (l', c') ∈ pool ->
                            in_tolerance rt mt r0 c' = true ->
                            z r0 = 0 \/ z c' = z r0 ->
                            more_intense c' c = false) rest).
  { intros rest Hrest. apply IH in Hrest.
    eapply Forall_impl; [exact Hrest|].
    intros row (k & rt' & mt' & r0 & l & c & Hk & Hr' & Hm' & H).
    exists (S k), rt', mt', r0, l, c. rewrite Nat.add_succ_r. done. }
  destruct (subset_choice rt mt r pool) as [[l c]|] eqn:Hch.
  - destruct (subset_loop rtTol mzTol (S i) refs pool)
      as [rest|] eqn:Hrest; [cbn [rbind]|done].
    intros [= <-]. constructor; [|by apply Hshift].
    pose proof (subset_choice_most_intense _ _ _ _ _ _ Hd Hch) as Hbest.
    apply subset_choice_spec in Hch as (Hin & Ht & Hz).
    exists 0%nat, rt, mt, r, l, c. rewrite Nat.add_0_r. done.
  - intros Hrest. by apply Hshift.
Qed.

Section MostIntense.

Variable py_float : string -> result float.

(** X24.  For every reference row, findMatchedSubset takes the most
    intense of the comparison rows that match it: no comparison row within
    the tolerances of the reference row, and of its charge when the charge
    is not 0, is more intense than the row in the returned table (a NaN
    intensity counts as the least). *)
Theorem findMatchedSubset_most_intense ref comp rtSd mzSd
    (params : gmap string string) w s sdw xs1 xs2 xs1' xs2' sub w' :
  sd_entries w (length ref) rtSd = Some xs1 ->
  sd_entries w (length ref) mzSd = Some xs2 ->
  zero_floor xs1 = Ok xs1' -> zero_floor xs2 = Ok xs2' ->
  param params "sd_width" = Ok s -> py_float s = Ok sdw ->
  findMatchedSubset py_float ref comp rtSd mzSd params w = (Ok sub, w') ->
  Forall (fun row => exists i sd1 sd2 r c,
            sort_values_intensity ref !! i = Some r /\ c ∈ comp /\
            xs1' !! i = Some sd1 /\ xs2' !! i = Some sd2 /\
            row = mkSubRow (mz r) (RT r) (intensity r)
                           (mz c) (RT c) (intensity c) /\
            forall c', c' ∈ comp ->
                       in_tolerance (sd1 * sdw) (sd2 * sdw) r c' = true ->
                       z r = 0 \/ z c' = z r ->
                       more_intense c' c = false) sub.
Proof.
  intros He1 He2 Hz1 Hz2 Hs Hf H.
  destruct (matching_exact py_float ref comp _ _ _ "calibration" w _ _ _ _ _ _
              He1 He2 Hz1 Hz2 Hs Hf) as (w1 & _ & Hm).
  rewrite Hm in H. injection H as H _.
  apply subset_loop_most_intense in H.
  2:{ rewrite labelled_rows. apply sort_values_intensity_descending. }
  eapply Forall_impl; [exact H|].
  intros row (k & rt & mt & r & l & c & Hk & Hrt & Hmt & Hin & -> & Hbest).
  cbn in Hrt, Hmt. rewrite list_lookup_fmap in Hrt, Hmt.
  destruct (xs1' !! k) as [sd1|] eqn:H1; [|done].
  destruct (xs2' !! k) as [sd2|] eqn:H2; [|done].
  cbn in Hrt, Hmt. injection Hrt as <-. injection Hmt as <-.
  exists k, sd1, sd2, r, c. repeat split; try done.
  - apply labelled_lookup in Hin. apply list_elem_of_lookup_2 in Hin.
    by rewrite sort_values_intensity_perm in Hin.
  - intros c' Hc' Htol Hz.
    rewrite <- (sort_values_intensity_perm comp) in Hc'.
    apply list_elem_of_lookup in Hc' as [l' Hl'].
    apply labelled_lookup in Hl'. by eapply Hbest.
Qed.

End MostIntense.

Module MostIntenseExample.

Import MatchExample.

Lemma findMatchedSubset_most_intense_witness :
  Forall (fun row => exists i sd1 sd2 r c,
            sort_values_intensity ref !! i = Some r /\ c ∈ comp /\
            MatchMoreExample.rtSd_floored !! i = Some sd1 /\
            mzSd_array !! i = Some sd2 /\
            row = mkSubRow (mz r) (RT r) (intensity r)
                           (mz c) (RT c) (intensity c) /\
            forall c', c' ∈ comp ->
                       in_tolerance (sd1 * 10) (sd2 * 10) r c' = true ->
                       z r = 0 \/ z c' = z r ->
                       more_intense c' c = false) MatchMoreExample.sub.
Proof.
  refine (findMatchedSubset_most_intense py_float ref comp (SdArray 1%positive)
            (SdArray 2%positive) params w0 "10" 10%float
            rtSd_array mzSd_array MatchMoreExample.rtSd_floored mzSd_array
            MatchMoreExample.sub (snd MatchMoreExample.sub_run)
            _ _ _ _ _ _ MatchMoreExample.sub_run_result); reflexivity.
Defined.

End MostIntenseExample.

(** ** The choice of the reference run *)

(** What the statements at module level that choose the reference run come
    to: a run number, the exit of the interpreter, or an exception. *)
Inductive selection :=
| Selected (refNo : nat)
| Exit (message : string)
| Failed (e : exn).

(** The loop over the runs, from run [i] on:
    [if tmpIntensity >= refIntensity: refNo = i; refIntensity = tmpIntensity] *)
Fixpoint select_loop (scores : list float) (i refNo : nat) (refIntensity : float)
  : nat * float :=
  match scores with
  | [] => (refNo, refIntensity)
  | tmpIntensity :: rest =>
      if PrimFloat.leb refIntensity tmpIntensity
      then select_loop rest (S i) i tmpIntensity
      else select_loop rest (S i) refNo refIntensity
  end.

(** [featureFiles.index(name)], counting from [i]. *)
Fixpoint list_index (name : string) (files : list string) (i : nat) : option nat :=
  match files with
  | [] => None
  | f :: rest => if String.eqb f name then Some i else list_index name rest (S i)
  end.

Definition exit_message : string :=
  "  'reference_feature' parameter should be correctly specified".

Section Reference.

Variable np_median : list float -> float.
(** [sorted(a, reverse = True)] *)
Variable py_sorted_reverse : list float -> list float.

(** [np.median(sorted(fArray[i]["intensity"], reverse = True)[0: 100])] *)
Definition top_intensity (t : list Feature) : float :=
  np_median (take 100 (py_sorted_reverse (map intensity t))).

Definition select_reference (params : gmap string string)
    (featureFiles : list string) (fArray : list (list Feature)) : selection :=
  match params !! "reference_feature" with
  | None => Failed KeyError
  | Some v =>
      if String.eqb v "0" then
        Selected (select_loop (map top_intensity fArray) 0 0 0%float).1
      else
        match list_index v featureFiles 0 with
        | Some refNo => Selected refNo
        | None => Exit exit_message
        end
  end.

Lemma select_loop_spec scores :
  forall i refNo v k v',
    select_loop scores i refNo v = (k, v') ->
    F.is_nan v = false ->
    F.is_nan v' = false /\ PrimFloat.leb v v' = true /\
    (forall j s, scores !! j = Some s -> F.is_nan s = false ->
                 PrimFloat.leb s v' = true) /\
    ((k = refNo /\ v' = v /\
      forall j s, scores !! j = Some s -> PrimFloat.leb v s = false) \/
     (exists j, k = (i + j)%nat /\ scores !! j = Some v' /\
                forall j' s, (j < j')%nat -> scores !! j' = Some s ->
                             PrimFloat.leb v' s = false)).
Proof.
  induction scores as [|s rest IH]; intros i refNo v k v'; cbn.
  { intros [= <- <-] Hv. split; [done|]. split; [by apply fleb_refl|].
    split; [done|]. left. done. }
  destruct (PrimFloat.leb v s) eqn:Hvs.
  - intros H Hv. destruct (fleb_not_nan _ _ Hvs) as [_ Hs].
    destruct (IH _ _ _ _ _ H Hs) as (Hv' & Hle & Hall & Hk).
    split; [done|]. split; [by eapply fleb_trans|]. split.
    + intros [|j] s' Hj Hs'; cbn in Hj; [by injection Hj as <-|by eapply Hall].
    + right. destruct Hk as [(-> & -> & Hrest)|(j & -> & Hj & Hrest)].
      * exists 0%nat. split; [lia|]. split; [done|].
        intros [|j'] s' Hlt Hj'; [lia|]. by eapply Hrest.
      * exists (S j). split; [lia|]. split; [done|].
        intros [|j'] s' Hlt Hj'; [lia|]. cbn in Hj'.
        eapply (Hrest j'); [lia|done].
  - intros H Hv.
    destruct (IH _ _ _ _ _ H Hv) as (Hv' & Hle & Hall & Hk).
    split; [done|]. split; [done|]. split.
    + intros [|j] s' Hj Hs'; cbn in Hj; [|by eapply Hall].
      injection Hj as <-. eapply fleb_trans; [|exact Hle].
      by apply fleb_total.
    + destruct Hk as [(-> & -> & Hrest)|(j & -> & Hj & Hrest)].
      * left. split; [done|]. split; [done|].
        intros [|j'] s' Hj'; cbn in Hj'; [by injection Hj' as <-|].
        by eapply Hrest.
      * right. exists (S j). split; [lia|]. split; [done|].
        intros [|j'] s' Hlt Hj'; [lia|]. cbn in Hj'.
        eapply (Hrest j'); [lia|done].
Qed.

(** X25.  With [reference_feature] set to "0", the run chosen as the
    reference is the last of the runs whose median of the hundred greatest
    intensities is greatest; a run whose median is NaN or negative is never
    chosen for it, and when every run is such a run, run 0 is chosen. *)
Theorem select_reference_auto (params : gmap string string) featureFiles fArray :
  params !! "reference_feature" = Some "0" ->
  exists refNo,
    select_reference params featureFiles fArray = Selected refNo /\
    ((refNo = 0%nat /\
      forall j t, fArray !! j = Some t ->
                  PrimFloat.leb 0 (top_intensity t) = false) \/
     (exists t, fArray !! refNo = Some t /\
                PrimFloat.leb 0 (top_intensity t) = true /\
                (forall j t', fArray !! j = Some t' ->
                              F.is_nan (top_intensity t') = false ->
                              PrimFloat.leb (top_intensity t') (top_intensity t)
                              = true) /\
                (forall j t', (refNo < j)%nat -> fArray !! j = Some t' ->
                              PrimFloat.leb (top_intensity t) (top_intensity t')
                              = false))).
Proof.
  intros Hp. unfold select_reference. rewrite Hp. cbn [String.eqb Ascii.eqb Bool.eqb].
  destruct (select_loop (map top_intensity fArray) 0 0 0%float) as [k v] eqn:Hl.
  exists k. split; [done|].
  destruct (select_loop_spec _ _ _ _ _ _ Hl eq_refl) as (Hv & Hle & Hall & Hk).
  destruct Hk as [(-> & -> & Hrest)|(j & -> & Hj & Hrest)].
  - left. split; [done|]. intros j t Hj. apply (Hrest j).
    by rewrite list_lookup_fmap, Hj.
  - right. rewrite list_lookup_fmap in Hj.
    destruct (fArray !! j) as [t|] eqn:Ht; [|done]. injection Hj as <-.
    exists t. cbn [Nat.add]. split; [done|]. split; [done|]. split.
    + intros j' t' Hj' Hn. apply (Hall j'); [|done].
      by rewrite list_lookup_fmap, Hj'.
    + intros j' t' Hlt Hj'. apply (Hrest j'); [done|].
      by rewrite list_lookup_fmap, Hj'.
Qed.

Lemma list_index_spec name files :
  forall i,
    match list_index name files i with
    | Some k => exists j, k = (i + j)%nat /\ files !! j = Some name /\
                          forall j', (j' < j)%nat -> files !! j' <> Some name
    | None => name ∉ files
    end.
Proof.
  induction files as [|f rest IH]; intros i; cbn; [apply not_elem_of_nil|].
  destruct (String.eqb_spec f name) as [->|Hne].
  - exists 0%nat. split; [lia|]. split; [done|]. intros j' Hj'. lia.
  - specialize (IH (S i)). destruct (list_index name rest (S i)) as [k|].
    + destruct IH as (j & -> & Hj & Hfirst). exists (S j).
      split; [lia|]. split; [done|]. intros [|j'] Hj'; cbn; [congruence|].
      apply Hfirst. lia.
    + intros [->|Hin]%elem_of_cons; done.
Qed.

(** X26.  With any other value of [reference_feature], the reference run
    is the first run whose file has that name; when no file has it the
    interpreter exits with the message about the parameter. *)
Theorem select_reference_named (params : gmap string string) featureFiles
    fArray name :
  params !! "reference_feature" = Some name -> name <> "0" ->
  ((name ∉ featureFiles) /\
   select_reference params featureFiles fArray = Exit exit_message) \/
  (exists refNo,
      select_reference params featureFiles fArray = Selected refNo /\
      featureFiles !! refNo = Some name /\
      forall j, (j < refNo)%nat -> featureFiles !! j <> Some name).
Proof.
  intros Hp Hne. unfold select_reference. rewrite Hp.
  apply String.eqb_neq in Hne. rewrite Hne.
  pose proof (list_index_spec name featureFiles 0) as H.
  destruct (list_index name featureFiles 0) as [k|].
  - right. destruct H as (j & -> & Hj & Hfirst). by exists j.
  - by left.
Qed.

End Reference.

Module ReferenceExample.

(** Stand-ins for [sorted(a, reverse = True)] and [np.median], and three
    runs of three features. *)
Definition py_sorted_reverse (a : list float) : list float :=
  rev (CalibrationExample.sorted a).

Definition featureFiles : list string := ["run1"; "run2"; "run3"].

Definition fArray : list (list Feature) :=
  [MatchExample.ref; RescueMoreExample.ref; MatchExample.comp].

Definition auto : gmap string string := {[ "reference_feature" := "0" ]}.
Definition named : gmap string string := {[ "reference_feature" := "run2" ]}.

Example auto_selects_run2 :
  select_reference CalibrationExample.np_median py_sorted_reverse auto
    featureFiles fArray = Selected 1.
Proof. vm_compute. reflexivity. Qed.

Lemma select_reference_auto_witness :
  exists refNo,
    select_reference CalibrationExample.np_median py_sorted_reverse auto
      featureFiles fArray = Selected refNo /\
    ((refNo = 0%nat /\
      forall j t, fArray !! j = Some t ->
                  PrimFloat.leb 0
                    (top_intensity CalibrationExample.np_median
                       py_sorted_reverse t) = false) \/
     (exists t, fArray !! refNo = Some t /\
                PrimFloat.leb 0
                  (top_intensity CalibrationExample.np_median
                     py_sorted_reverse t) = true /\
                (forall j t', fArray !! j = Some t' ->
                              F.is_nan (top_intensity CalibrationExample.np_median
                                          py_sorted_reverse t') = false ->
                              PrimFloat.leb
                                (top_intensity CalibrationExample.np_median
                                   py_sorted_reverse t')
                                (top_intensity CalibrationExample.np_median
                                   py_sorted_reverse t) = true) /\
                (forall j t', (refNo < j)%nat -> fArray !! j = Some t' ->
                              PrimFloat.leb
                                (top_intensity CalibrationExample.np_median
                                   py_sorted_reverse t)
                                (top_intensity CalibrationExample.np_median
                                   py_sorted_reverse t') = false))).
Proof.
  exact (select_reference_auto CalibrationExample.np_median py_sorted_reverse
           auto featureFiles fArray eq_refl).
Defined.

Lemma run2_is_not_0 : "run2" <> "0".
Proof. discriminate. Qed.

Lemma select_reference_named_witness :
  (("run2" ∉ featureFiles) /\
   select_reference CalibrationExample.np_median py_sorted_reverse named
     featureFiles fArray = Exit exit_message) \/
  (exists refNo,
      select_reference CalibrationExample.np_median py_sorted_reverse named
        featureFiles fArray = Selected refNo /\
      featureFiles !! refNo = Some "run2" /\
      forall j, (j < refNo)%nat -> featureFiles !! j <> Some "run2").
Proof.
  exact (select_reference_named CalibrationExample.np_median py_sorted_reverse
           named featureFiles fArray "run2" eq_refl run2_is_not_0).
Defined.

End ReferenceExample.
